(** * metasql: the Redshift Data API connection engine

    A shallow embedding of the connection / transaction engine of
    [utils/utils.go] (type [redshiftDataConn] and its methods), of
    [result.go] and of the transaction handle [types.RedshiftDataTx],
    together with the properties of the query rewriter, of the
    transaction buffer and of the terminal-state mapping.

    Conventions.
    - Go [string] is [string] (a sequence of bytes); [rune] and [int]
      are [Z]; the wrap-around of [int] is written out ([int_wrap]).
    - Pointers to [redshiftDataDelayedResult] are addresses into a
      store ([heap]); a fresh object is allocated at the end of it.
    - Every method is a computation of the monad [M] over the record
      [machine]: the connection, the store, the remote service and the
      log of the calls made to it.  A Go [panic] is the outcome
      [Panicked]; a Go [error] is an ordinary value. *)

From Stdlib Require Import ZArith String Ascii List Lia Bool DecimalString.
From Stdlib Require DecimalPos DecimalZ DecimalN DecimalFacts.
From stdpp Require Import base list gmap strings.
Import ListNotations.
Local Open Scope Z_scope.

(** ** Go strings, runes and [fmt] *)

Module Utf8.

(** Go's [rune] is an [int32] code point. *)
Abbreviation rune := Z (only parsing).

(** [utf8.RuneError], U+FFFD. *)
Definition RuneError : rune := 0xFFFD.

Definition byte_of_ascii (c : ascii) : Z := Z.of_N (N_of_ascii c).
Definition ascii_of_byte (b : Z) : ascii := ascii_of_N (Z.to_N b).

Definition bytes_of_string (s : string) : list Z :=
  map byte_of_ascii (list_ascii_of_string s).
Definition string_of_bytes (bs : list Z) : string :=
  string_of_list_ascii (map ascii_of_byte bs).

Definition between (lo hi b : Z) : bool := (lo <=? b) && (b <=? hi).

(** The table [first] of package [unicode/utf8]: for a leading byte,
    the length of the sequence and the range accepted for the second
    byte; length 1 marks an invalid leading byte. *)
Definition first (b0 : Z) : nat * Z * Z :=
  if between 0xC2 0xDF b0 then (2%nat, 0x80, 0xBF)
  else if b0 =? 0xE0 then (3%nat, 0xA0, 0xBF)
  else if between 0xE1 0xEC b0 then (3%nat, 0x80, 0xBF)
  else if b0 =? 0xED then (3%nat, 0x80, 0x9F)
  else if between 0xEE 0xEF b0 then (3%nat, 0x80, 0xBF)
  else if b0 =? 0xF0 then (4%nat, 0x90, 0xBF)
  else if between 0xF1 0xF3 b0 then (4%nat, 0x80, 0xBF)
  else if b0 =? 0xF4 then (4%nat, 0x80, 0x8F)
  else (1%nat, 0, 0).

Definition low6 (b : Z) : Z := Z.land b 0x3F.

(** [utf8.DecodeRuneInString]: the rune at the head of the bytes and
    its width; an invalid or truncated encoding is [RuneError] of
    width 1. *)
Definition DecodeRune (p : list Z) : rune * nat :=
  match p with
  | [] => (RuneError, 0%nat)
  | b0 :: t =>
      if b0 <? 0x80 then (b0, 1%nat)
      else
        let '(sz, lo, hi) := first b0 in
        match sz, t with
        | 2%nat, b1 :: _ =>
            if between lo hi b1
            then (Z.lor (Z.shiftl (Z.land b0 0x1F) 6) (low6 b1), 2%nat)
            else (RuneError, 1%nat)
        | 3%nat, b1 :: b2 :: _ =>
            if between lo hi b1 && between 0x80 0xBF b2
            then (Z.lor (Z.shiftl (Z.land b0 0x0F) 12)
                    (Z.lor (Z.shiftl (low6 b1) 6) (low6 b2)), 3%nat)
            else (RuneError, 1%nat)
        | 4%nat, b1 :: b2 :: b3 :: _ =>
            if between lo hi b1 && between 0x80 0xBF b2 && between 0x80 0xBF b3
            then (Z.lor (Z.shiftl (Z.land b0 0x07) 18)
                    (Z.lor (Z.shiftl (low6 b1) 12)
                       (Z.lor (Z.shiftl (low6 b2) 6) (low6 b3))), 4%nat)
            else (RuneError, 1%nat)
        | _, _ => (RuneError, 1%nat)
        end
  end.

(** [for _, r := range s]: the runes the loop visits, in order. *)
Fixpoint range_runes (fuel : nat) (p : list Z) : list rune :=
  match fuel, p with
  | O, _ | _, [] => []
  | S fuel', _ :: _ =>
      let '(r, w) := DecodeRune p in
      r :: range_runes fuel' (drop w p)
  end.

Definition runes_of_string (s : string) : list rune :=
  let p := bytes_of_string s in range_runes (length p) p.

(** [utf8.AppendRune]: surrogates and values out of range are encoded
    as [RuneError]. *)
Definition EncodeRune (r : rune) : list Z :=
  if between 0 0x7F r then [r]
  else if between 0x80 0x7FF r then
    [Z.lor 0xC0 (Z.shiftr r 6); Z.lor 0x80 (low6 r)]
  else if (r <? 0) || (0x10FFFF <? r) || between 0xD800 0xDFFF r then
    [0xEF; 0xBF; 0xBD]
  else if r <=? 0xFFFF then
    [Z.lor 0xE0 (Z.shiftr r 12); Z.lor 0x80 (low6 (Z.shiftr r 6));
     Z.lor 0x80 (low6 r)]
  else
    [Z.lor 0xF0 (Z.shiftr r 18); Z.lor 0x80 (low6 (Z.shiftr r 12));
     Z.lor 0x80 (low6 (Z.shiftr r 6)); Z.lor 0x80 (low6 r)].

(** The conversion [string(runes)]. *)
Definition string_of_runes (rs : list rune) : string :=
  string_of_bytes (concat (map EncodeRune rs)).

Definition rune_of_ascii (c : ascii) : rune := byte_of_ascii c.

End Utf8.
Export Utf8.

(** Go's [int] on the platforms the driver targets: 64 bits, two's
    complement. *)
Definition int_wrap (z : Z) : Z := (z + 2 ^ 63) mod 2 ^ 64 - 2 ^ 63.

(** [fmt.Sprintf("%d", z)]. *)
Definition Sprintf_d (z : Z) : string := NilZero.string_of_int (Z.to_int z).

Definition question_mark : rune := rune_of_ascii "?".
Definition dollar : rune := rune_of_ascii "$".
Definition colon : rune := rune_of_ascii ":".
(** U+0022, the double quote. *)
Definition double_quote : rune := 34.
Definition single_quote : rune := rune_of_ascii "'".

(** [[]rune(fmt.Sprintf(":%d", n))]: the text is ASCII, one rune per byte. *)
Definition marker (n : Z) : list rune :=
  colon :: map rune_of_ascii (list_ascii_of_string (Sprintf_d n)).

(** ** [utils.Nullif] and [utils.Coalesce] *)

Definition Nullif (str : string) : option string :=
  if String.eqb str EmptyString then None else Some str.

Fixpoint Coalesce (strs : list (option string)) : string :=
  match strs with
  | [] => EmptyString
  | Some str :: _ => str
  | None :: rest => Coalesce rest
  end.

(** ** The query rewriter, [rewriteQuery] *)

(** The three local variables of the loop. The slice [stack] grows at
    its end: its top is its last element. *)
Record rewriter := mkRewriter {
  runes : list rune;
  stack : list rune;
  exclamationCount : Z
}.

Definition rewriter_init : rewriter :=
  {| runes := []; stack := []; exclamationCount := 0 |}.

Definition is_quote (r : rune) : bool :=
  (r =? double_quote) || (r =? single_quote).

(** The second [switch] of the loop body and the append after it. *)
Definition push_and_copy (st : rewriter) (r : rune) : rewriter :=
  {| runes := runes st ++ [r];
     stack := if is_quote r then stack st ++ [r] else stack st;
     exclamationCount := exclamationCount st |}.

(** One iteration of [for _, r := range query]. *)
Definition rewrite_step (st : rewriter) (r : rune) : rewriter :=
  if (0 <? length (stack st))%nat then
    if r =? List.last (stack st) 0 then
      {| runes := runes st ++ [r];
         stack := removelast (stack st);
         exclamationCount := exclamationCount st |}
    else push_and_copy st r
  else if r =? question_mark then
    let n := int_wrap (exclamationCount st + 1) in
    {| runes := runes st ++ marker n;
       stack := stack st;
       exclamationCount := n |}
  else if r =? dollar then
    {| runes := runes st ++ [colon];
       stack := stack st;
       exclamationCount := exclamationCount st |}
  else push_and_copy st r.

(** The loop, from the initial values of the locals. *)
Definition scan (rs : list rune) : rewriter :=
  fold_left rewrite_step rs rewriter_init.

(** The body of [rewriteQuery] after the [paramsCount == 0] test, on
    the runes of the query. *)
Definition rewrite_runes (rs : list rune) : list rune := runes (scan rs).

Definition rewriteQuery (query : string) (paramsCount : Z) : string :=
  if paramsCount =? 0 then query
  else string_of_runes (rewrite_runes (runes_of_string query)).


(** ** Errors and panics *)

(** Go [error] values: the sentinels of package [errors], the errors
    the remote client hands back, and the values built by
    [fmt.Errorf], which keep their format string and their argument. *)
Inductive error : Type :=
| ErrNotSupported
| ErrInTx
| ErrNotInTx
| ClientError (msg : string)
| Errorf_w (format : string) (err : error)
| Errorf_s (format : string) (arg : string)
| Errorf_d (format : string) (arg : Z).

(** The run-time faults the modelled code can raise. [PanicLengths] is
    the explicit [panic] of [OnCommit]. *)
Inductive panic : Type :=
| PanicLengths (sqls_len delayedResult_len : nat)
| PanicNilDereference
| PanicIndexOutOfRange (i len : nat)
| PanicCloseOfClosedChannel.

(** A Go result pair [(T, error)]. *)
Inductive result (T : Type) : Type :=
| Ok (v : T)
| Err (e : error).
Arguments Ok {T} v.
Arguments Err {T} e.

(** ** Data *)

(** [driver.TxOptions]; [driver.IsolationLevel] is an [int]. *)
Record TxOptions := mkTxOptions {
  Isolation : Z;
  ReadOnly : bool
}.

(** [sql.LevelDefault]. *)
Definition LevelDefault : Z := 0.

(** [driver.NamedValue]; [Value] holds the text [fmt.Sprintf("%v", _)]
    gives for the value. *)
Record NamedValue := mkNamedValue {
  Name : string;
  Ordinal : Z;
  Value : string
}.

Record SqlParameter := mkSqlParameter {
  param_Name : option string;
  param_Value : option string
}.

(** The fields of [config.RedshiftDataConfig] the engine reads. *)
Record RedshiftDataConfig := mkConfig {
  ClusterIdentifier : option string;
  Database : option string;
  DBUser : option string;
  WorkgroupName : option string;
  SecretsArn : option string
}.

Record ExecuteStatementInput := mkExecuteStatementInput {
  Sql : option string;
  Parameters : list SqlParameter;
  in_ClusterIdentifier : option string;
  in_Database : option string;
  in_DbUser : option string;
  in_SecretArn : option string;
  in_WorkgroupName : option string
}.

Record ExecuteStatementOutput := mkExecuteStatementOutput {
  Id : option string
}.

Record SubStatementData := mkSubStatementData {
  sub_ResultRows : Z
}.

(** [awstypes.StatusString] is a string type. *)
Definition StatusStringAborted : string := "ABORTED".
Definition StatusStringFailed : string := "FAILED".
Definition StatusStringFinished : string := "FINISHED".

(** [redshiftdata.DescribeStatementOutput]: [Error] and [HasResultSet]
    are pointers, [None] is [nil]. *)
Record DescribeStatementOutput := mkDescribeStatementOutput {
  desc_Id : option string;
  Status : string;
  Error : option string;
  HasResultSet : option bool;
  ResultRows : Z;
  SubStatements : list SubStatementData
}.

(** Addresses of [redshiftDataDelayedResult] objects. *)
Definition ptr := nat.

(** A [driver.Result] interface value: [nil], a [*redshiftDataResult]
    (never written after its creation, so kept by value), or a
    [*redshiftDataDelayedResult]. *)
Inductive Result : Type :=
| NilResult
| RedshiftDataResult (affectedRows : Z)
| DelayedResult (p : ptr).

(** [redshiftdata.GetStatementResultPaginator], by the statement id it
    was opened on. *)
Record Paginator := mkPaginator { paginator_Id : option string }.

Record Rows := mkRows {
  rows_id : string;
  rows_paginator : option Paginator
}.

(** [driver.Stmt]: no value of it is ever built. *)
Inductive Stmt : Type := .

Inductive chan := ChanOpen | ChanClosed.

(** [redshiftDataConn] without its [client], which lives in [machine]. *)
Record redshiftDataConn := mkConn {
  cfg : RedshiftDataConfig;
  aliveCh : chan;
  isClosed : bool;
  inTx : bool;
  txOpts : TxOptions;
  sqls : list string;
  delayedResult : list (option ptr)
}.

Definition set_closed (c : redshiftDataConn) (ch : chan) (b : bool) :=
  mkConn (cfg c) ch b (inTx c) (txOpts c) (sqls c) (delayedResult c).
Definition set_tx (c : redshiftDataConn) (b : bool) (o : TxOptions) :=
  mkConn (cfg c) (aliveCh c) (isClosed c) b o (sqls c) (delayedResult c).
Definition set_sqls (c : redshiftDataConn) (l : list string) :=
  mkConn (cfg c) (aliveCh c) (isClosed c) (inTx c) (txOpts c) l (delayedResult c).
Definition set_delayedResult (c : redshiftDataConn) (l : list (option ptr)) :=
  mkConn (cfg c) (aliveCh c) (isClosed c) (inTx c) (txOpts c) (sqls c) l.

(** ** The remote service *)

(** The calls made to the [RedshiftDataClient]. *)
Inductive call : Type :=
| CallExecuteStatement (params : ExecuteStatementInput)
| CallDescribeStatement (id : option string)
| CallBatchExecuteStatement (Sqls : list string).

(** The remote service as the engine sees it, over a state [W] of its
    own. [client_ExecuteStatement] is the method of the interface
    [RedshiftDataClient]. The two others stand for methods of the
    connection whose bodies are not part of the sources:
    [client_wait] is what the polling of [DescribeStatement] in
    [waitWithCancel] ends with (a description, or the error of a
    cancellation), [client_batch] what [BatchExecuteStatement] ends
    with. *)
Class RedshiftDataClient (W : Type) := {
  client_ExecuteStatement :
    ExecuteStatementInput -> W -> result ExecuteStatementOutput * W;
  client_wait :
    option string -> W -> result DescribeStatementOutput * W;
  client_batch :
    list string -> W -> result DescribeStatementOutput * W
}.

(** ** The machine and its monad *)

Record machine (W : Type) := mkMachine {
  conn : redshiftDataConn;
  heap : list Result;
  world : W;
  calls : list call
}.
Arguments mkMachine {W}.
Arguments conn {W}.
Arguments heap {W}.
Arguments world {W}.
Arguments calls {W}.

Inductive outcome (A : Type) : Type :=
| Done (a : A)
| Panicked (p : panic).
Arguments Done {A} a.
Arguments Panicked {A} p.

Definition M (W A : Type) : Type := machine W -> outcome A * machine W.

Definition ret {W A} (a : A) : M W A := fun m => (Done a, m).

Definition bind {W A B} (c : M W A) (k : A -> M W B) : M W B :=
  fun m =>
    match c m with
    | (Done a, m') => k a m'
    | (Panicked p, m') => (Panicked p, m')
    end.

Definition raise {W A} (p : panic) : M W A := fun m => (Panicked p, m).

Declare Scope go_scope.
Delimit Scope go_scope with go.
Notation "x <- c ;; k" := (bind c (fun x => k))
  (at level 90, c at next level, right associativity) : go_scope.
Notation "c ;;; k" := (bind c (fun _ => k))
  (at level 90, right associativity) : go_scope.
Local Open Scope go_scope.

Definition get_conn {W} : M W redshiftDataConn := fun m => (Done (conn m), m).

Definition put_conn {W} (c : redshiftDataConn) : M W unit :=
  fun m => (Done tt, mkMachine c (heap m) (world m) (calls m)).

(** [&redshiftDataDelayedResult{}]: a fresh object whose embedded
    [Result] is [nil]. *)
Definition new_delayed {W} : M W ptr :=
  fun m =>
    (Done (length (heap m)),
     mkMachine (conn m) (heap m ++ [NilResult]) (world m) (calls m)).

(** [p.Result = v]. *)
Definition store {W} (p : ptr) (v : Result) : M W unit :=
  fun m => (Done tt, mkMachine (conn m) (<[p := v]> (heap m)) (world m) (calls m)).

(** [*p] for a pointer that may be [nil]. *)
Definition deref {W A} (p : option A) : M W A :=
  match p with
  | Some a => ret a
  | None => raise PanicNilDereference
  end.

(** [l[i]]. *)
Definition index {W A} (l : list A) (i : nat) : M W A :=
  match l !! i with
  | Some a => ret a
  | None => raise (PanicIndexOutOfRange i (length l))
  end.

(** A call to the remote service: logged, then answered by it. *)
Definition remote {W A} (c : call) (f : W -> result A * W) : M W (result A) :=
  fun m =>
    let '(r, w) := f (world m) in
    (Done r, mkMachine (conn m) (heap m) w (calls m ++ [c])).

(** ** The connection's methods *)

(** [convertArgsToParameters]. *)
Definition convertArgsToParameters (args : list NamedValue) : list SqlParameter :=
  map (fun arg =>
         {| param_Name :=
              Some (Coalesce [Nullif (Name arg); Some (Sprintf_d (Ordinal arg))]);
            param_Value := Some (Value arg) |})
      args.

(** [NewResultWithSubStatementData], [result.go]. *)
Definition NewResultWithSubStatementData (st : SubStatementData) : Result :=
  RedshiftDataResult (sub_ResultRows st).

(** Modelled from the spec: [newResult], whose body is not part of the
    sources; a finished statement without a result set gives "no rows,
    N affected" with the row count the remote service reported. *)
Definition newResult (output : DescribeStatementOutput) : Result :=
  RedshiftDataResult (ResultRows output).

(** Modelled from the spec: [newRows], whose body is not part of the
    sources; the row iterator is a handle on the statement id and the
    paginator. *)
Definition newRows (id : string) (p : option Paginator) : Rows :=
  {| rows_id := id; rows_paginator := p |}.

(** The five assignments that open [executeStatement]: the session
    target of the configuration is written into the parameters. *)
Definition set_target (config : RedshiftDataConfig) (params : ExecuteStatementInput)
  : ExecuteStatementInput :=
  {| Sql := Sql params; Parameters := Parameters params;
     in_ClusterIdentifier := ClusterIdentifier config;
     in_Database := Database config;
     in_DbUser := DBUser config;
     in_SecretArn := SecretsArn config;
     in_WorkgroupName := WorkgroupName config |}.

(** [NewConnection]. *)
Definition NewConnection {W} (client : W) (config : RedshiftDataConfig) : machine W :=
  {| conn := {| cfg := config; aliveCh := ChanOpen; isClosed := false;
                inTx := false; txOpts := mkTxOptions 0 false;
                sqls := []; delayedResult := [] |};
     heap := []; world := client; calls := [] |}.

Section Connection.

Context {W : Type} `{RedshiftDataClient W}.

(** [PrepareContext] and [Prepare]. *)
Definition PrepareContext (query : string) : M W (result Stmt) :=
  ret (Err (Errorf_w "prepared statment %w" ErrNotSupported)).

Definition Prepare (query : string) : M W (result Stmt) :=
  PrepareContext query.

(** [Close]. *)
Definition Close : M W (option error) :=
  c <- get_conn ;;
  if isClosed c then ret None
  else
    put_conn (set_closed c (aliveCh c) true) ;;;
    match aliveCh c with
    | ChanClosed => raise PanicCloseOfClosedChannel
    | ChanOpen => put_conn (set_closed c ChanClosed true) ;;; ret None
    end.

(** Modelled from the spec: [waitWithCancel], whose body is not part
    of the sources; it polls [DescribeStatement] until the statement
    is terminal or the wait is cancelled, and returns the last
    description or the error. *)
Definition waitWithCancel (id : option string) : M W (result DescribeStatementOutput) :=
  remote (CallDescribeStatement id) (client_wait id).

(** [executeStatement]. *)
Definition executeStatement (params : ExecuteStatementInput)
  : M W (result (option Paginator * DescribeStatementOutput)) :=
  c <- get_conn ;;
  let params := set_target (cfg c) params in
  r <- remote (CallExecuteStatement params) (client_ExecuteStatement params) ;;
  match r with
  | Err err => ret (Err (Errorf_w "execute statement error: %w" err))
  | Ok executeOutput =>
      r <- waitWithCancel (Id executeOutput) ;;
      match r with
      | Err err => ret (Err err)
      | Ok describeOutput =>
          if String.eqb (Status describeOutput) StatusStringAborted then
            msg <- deref (Error describeOutput) ;;
            ret (Err (Errorf_s "query aborted: %s" msg))
          else if String.eqb (Status describeOutput) StatusStringFailed then
            msg <- deref (Error describeOutput) ;;
            ret (Err (Errorf_s "query failed: %s" msg))
          else if negb (String.eqb (Status describeOutput) StatusStringFinished) then
            ret (Err (Errorf_s "query status is not finished: %s"
                        (Status describeOutput)))
          else
            has <- deref (HasResultSet describeOutput) ;;
            if negb has then ret (Ok (None, describeOutput))
            else ret (Ok (Some (mkPaginator (Id executeOutput)), describeOutput))
      end
  end.

(** Modelled from the spec: the connection's [BatchExecuteStatement],
    whose body is empty in the sources; one batch call carrying the
    statement texts, answered by an error or by the description that
    enumerates the sub-statements. *)
Definition BatchExecuteStatement (Sqls : list string)
  : M W (result DescribeStatementOutput) :=
  remote (CallBatchExecuteStatement Sqls) (client_batch Sqls).

Definition exec_params (query : string) (args : list NamedValue) : ExecuteStatementInput :=
  {| Sql := Nullif (rewriteQuery query (Z.of_nat (length args)));
     Parameters := convertArgsToParameters args;
     in_ClusterIdentifier := None; in_Database := None; in_DbUser := None;
     in_SecretArn := None; in_WorkgroupName := None |}.

(** [ExecContext]. *)
Definition ExecContext (query : string) (args : list NamedValue) : M W (result Result) :=
  c <- get_conn ;;
  if inTx c then
    if (0 <? length args)%nat then
      ret (Err (Errorf_w "exec with args in transaction: %w" ErrNotSupported))
    else if ReadOnly (txOpts c) then
      ret (Err (Errorf_w "exec in read only transaction: %w" ErrNotSupported))
    else
      put_conn (set_sqls c (sqls c ++ [query])) ;;;
      res <- new_delayed ;;
      c <- get_conn ;;
      put_conn (set_delayedResult c (delayedResult c ++ [Some res])) ;;;
      fresh <- new_delayed ;;
      ret (Ok (DelayedResult fresh))
  else
    r <- executeStatement (exec_params query args) ;;
    match r with
    | Err err => ret (Err err)
    | Ok (_, output) => ret (Ok (newResult output))
    end.

(** [QueryContext]. Its call [conn.ExecuteStatement] names a method
    the sources do not define.
    Modelled from the spec: the single-statement path delegates to the
    statement waiter, that is to [executeStatement]. *)
Definition QueryContext (query : string) (args : list NamedValue) : M W (result Rows) :=
  c <- get_conn ;;
  if inTx c then ret (Err ErrInTx)
  else
    r <- executeStatement (exec_params query args) ;;
    match r with
    | Err err => ret (Err err)
    | Ok (p, output) => ret (Ok (newRows (Coalesce [desc_Id output]) p))
    end.

(** The closure [cleanup] of [BeginTx]. *)
Definition cleanup : M W (option error) :=
  c <- get_conn ;;
  put_conn (mkConn (cfg c) (aliveCh c) (isClosed c)
              false (mkTxOptions 0 false) [] []) ;;;
  ret None.

(** The closure [OnRollback]. *)
Definition OnRollback : M W (option error) :=
  c <- get_conn ;;
  if negb (inTx c) then ret (Some ErrNotInTx)
  else
    err <- cleanup ;;
    match err with
    | Some err => ret (Some (Errorf_w "rollback error : %w" err))
    | None => ret None
    end.

(** The loop [for i := range input.Sqls] of [OnCommit] from index [i]
    on, [n] iterations left: [Some err] is its early return. *)
Fixpoint resolve_loop (desc : DescribeStatementOutput) (i n : nat)
  : M W (option error) :=
  match n with
  | O => ret None
  | S n' =>
      if (length (SubStatements desc) <=? i)%nat then
        ret (Some (Errorf_d "sub statement not found: %d" (Z.of_nat i)))
      else
        c <- get_conn ;;
        d <- index (delayedResult c) i ;;
        match d with
        | Some p =>
            st <- index (SubStatements desc) i ;;
            store p (NewResultWithSubStatementData st)
        | None => ret tt
        end ;;;
        resolve_loop desc (S i) n'
  end.

(** The closure [OnCommit]. *)
Definition OnCommit : M W (option error) :=
  c <- get_conn ;;
  if negb (inTx c) then ret (Some ErrNotInTx)
  else if (length (sqls c) =? 0)%nat then cleanup
  else if negb (length (sqls c) =? length (delayedResult c))%nat then
    raise (PanicLengths (length (sqls c)) (length (delayedResult c)))
  else if (length (sqls c) =? 1)%nat then
    sql0 <- index (sqls c) 0 ;;
    r <- ExecContext sql0 [] ;;
    match r with
    | Err err => ret (Some (Errorf_w "commit error: %w" err))
    | Ok res =>
        c <- get_conn ;;
        d <- index (delayedResult c) 0 ;;
        match d with
        | Some p => store p res
        | None => ret tt
        end ;;;
        ret None
    end
  else
    let input_Sqls := sqls c in
    r <- BatchExecuteStatement input_Sqls ;;
    match r with
    | Err err => ret (Some err)
    | Ok desc =>
        early <- resolve_loop desc 0 (length input_Sqls) ;;
        match early with
        | Some err => ret (Some err)
        | None => cleanup
        end
    end.

(** [types.RedshiftDataTx] and its methods. *)
Record RedshiftDataTx := mkTx {
  tx_OnCommit : M W (option error);
  tx_OnRollback : M W (option error)
}.

Definition Commit (tx : RedshiftDataTx) : M W (option error) := tx_OnCommit tx.
Definition Rollback (tx : RedshiftDataTx) : M W (option error) := tx_OnRollback tx.

(** [BeginTx] and [Begin]. *)
Definition BeginTx (opts : TxOptions) : M W (result RedshiftDataTx) :=
  c <- get_conn ;;
  if inTx c then ret (Err ErrInTx)
  else if negb (Isolation opts =? LevelDefault) then
    ret (Err (Errorf_w "isolation level %w" ErrNotSupported))
  else
    put_conn (set_tx c true opts) ;;;
    ret (Ok {| tx_OnCommit := OnCommit; tx_OnRollback := OnRollback |}).

Definition Begin : M W (result RedshiftDataTx) :=
  BeginTx (mkTxOptions 0 false).

(** ** The operations a caller can perform, and the states they reach *)

Inductive operation : Type :=
| OpPrepare (query : string)
| OpClose
| OpBegin (opts : TxOptions)
| OpExec (query : string) (args : list NamedValue)
| OpQuery (query : string) (args : list NamedValue)
| OpCommit
| OpRollback.

(** The [error] component of a result pair. *)
Definition error_of {A} (r : result A) : option error :=
  match r with
  | Ok _ => None
  | Err e => Some e
  end.

Definition errors {A} (c : M W (result A)) : M W (option error) :=
  bind c (fun r => ret (error_of r)).

(** Every transaction handle carries the same two closures, so commit
    and rollback are operations of the connection. An operation is
    observed through the error it returns. *)
Definition perform (o : operation) : M W (option error) :=
  match o with
  | OpPrepare q => errors (Prepare q)
  | OpClose => Close
  | OpBegin opts => errors (BeginTx opts)
  | OpExec q args => errors (ExecContext q args)
  | OpQuery q args => errors (QueryContext q args)
  | OpCommit => OnCommit
  | OpRollback => OnRollback
  end.

(** The operations the engine does not support: prepare, query in a
    transaction, exec with arguments or in a read-only transaction,
    begin with another isolation level than the default. *)
Definition capability_unsupported (c : redshiftDataConn) (o : operation) : bool :=
  match o with
  | OpPrepare _ => true
  | OpQuery _ _ => inTx c
  | OpExec _ args => inTx c && ((0 <? length args)%nat || ReadOnly (txOpts c))
  | OpBegin opts => negb (Isolation opts =? LevelDefault)
  | OpClose | OpCommit | OpRollback => false
  end.

(** The states reached from a new connection; the state an operation
    leaves behind counts whether it returned or panicked. *)
Inductive reachable : machine W -> Prop :=
| reachable_new client config : reachable (NewConnection client config)
| reachable_step m o : reachable m -> reachable (snd (perform o m)).

Fixpoint run (os : list operation) (m : machine W) : machine W :=
  match os with
  | [] => m
  | o :: os' => run os' (snd (perform o m))
  end.

End Connection.

(** ** The rewriter described by its result, position by position *)

(** The description names its characters by code point: [?] is U+003F,
    [$] is U+0024, [:] is U+003A, and the quote characters are U+0022
    and U+0027. *)
Definition quote_character (r : rune) : bool := (r =? 0x22) || (r =? 0x27).

(** The decimal digits of a number, the most significant first. *)
Fixpoint decimal_digits (fuel : nat) (n : N) : list rune :=
  match fuel with
  | O => []
  | S fuel' =>
      (if (n <? 10)%N then [] else decimal_digits fuel' (n / 10)%N)
      ++ [0x30 + Z.of_N (n mod 10)%N]
  end.

Definition decimal (n : N) : list rune := decimal_digits (S (N.to_nat n)) n.

(** The positional marker [:k]. *)
Definition positional_marker (k : nat) : list rune :=
  0x3A :: decimal (N.of_nat k).

(** *** Two readings of "outside quotes" *)

(** Quoted literals, as section 4.1 words quoting: outside quotes a
    quote character opens a quote; inside a quote every rune is copied,
    and the character that opened the quote closes it. [literal] gives
    the quote that is open after a rune, if any. *)
Definition literal (opened : option rune) (r : rune) : option rune :=
  match opened with
  | Some c => if r =? c then None else Some c
  | None => if quote_character r then Some r else None
  end.

Definition open_literal (q : list rune) (i : nat) : option rune :=
  fold_left literal (take i q) None.

Definition outside_literals (q : list rune) (i : nat) : bool :=
  match open_literal q i with
  | None => true
  | Some _ => false
  end.

(** Nested quotes: a rune equal to the character that opened the
    innermost open quote closes that quote; any other quote character
    opens a further quote, inside a quote as well as outside. [nest]
    gives the open quotes after a rune, the innermost first. *)
Definition nest (opened : list rune) (r : rune) : list rune :=
  match opened with
  | c :: outer =>
      if r =? c then outer
      else if quote_character r then r :: opened
      else opened
  | [] => if quote_character r then [r] else []
  end.

(** The quotes that are open at position [i] of the query. *)
Definition open_quotes (q : list rune) (i : nat) : list rune :=
  fold_left nest (take i q) [].

(** Position [i] lies outside any open quote. *)
Definition outside_quotes (q : list rune) (i : nat) : bool :=
  match open_quotes q i with
  | [] => true
  | _ :: _ => false
  end.

(** *** The result, for a reading of "outside quotes" *)

Section Description.

Variable outside : list rune -> nat -> bool.

(** Position [i] holds a bare [?]. *)
Definition bare_question_where (q : list rune) (i : nat) : bool :=
  outside q i &&
  match q !! i with
  | Some r => r =? 0x3F
  | None => false
  end.

(** The number of bare [?] among the first [n] positions. *)
Definition bare_questions_where (q : list rune) (n : nat) : nat :=
  length (List.filter (bare_question_where q) (seq 0 n)).

(** What stands in the result in the place of the rune at position
    [i]: the marker [:k] for the [k]-th bare [?], [:] for a bare [$],
    the rune itself otherwise. *)
Definition rewritten_at_where (q : list rune) (i : nat) : list rune :=
  match q !! i with
  | None => []
  | Some r =>
      if outside q i then
        if r =? 0x3F then positional_marker (bare_questions_where q (S i))
        else if r =? 0x24 then [0x3A]
        else [r]
      else [r]
  end.

Definition rewritten_where (q : list rune) : list rune :=
  concat (map (rewritten_at_where q) (seq 0 (length q))).

End Description.

(** The result as section 4.1 words it, with quoted literals. *)
Definition rewritten_as_specified (q : list rune) : list rune :=
  rewritten_where outside_literals q.

(** The result with nested quotes. *)
Definition bare_question (q : list rune) (i : nat) : bool :=
  bare_question_where outside_quotes q i.

Definition bare_questions (q : list rune) (n : nat) : nat :=
  bare_questions_where outside_quotes q n.

Definition rewritten_at (q : list rune) (i : nat) : list rune :=
  rewritten_at_where outside_quotes q i.

Definition rewritten (q : list rune) : list rune :=
  rewritten_where outside_quotes q.

(** *** Decimal numerals of the library, for the proofs *)

(** The rune of a digit, and the runes of the text of a numeral. *)
Definition digit_rune (d : DecimalFacts.digits) : rune :=
  match d with
  | DecimalFacts.d0 => 48 | DecimalFacts.d1 => 49 | DecimalFacts.d2 => 50
  | DecimalFacts.d3 => 51 | DecimalFacts.d4 => 52 | DecimalFacts.d5 => 53
  | DecimalFacts.d6 => 54 | DecimalFacts.d7 => 55 | DecimalFacts.d8 => 56
  | DecimalFacts.d9 => 57
  end.

Definition uint_text (u : Decimal.uint) : list rune :=
  map rune_of_ascii (list_ascii_of_string (NilEmpty.string_of_uint u)).

(** The numeral of one digit. *)
Definition digit_uint (k : N) : Decimal.uint :=
  match k with
  | 0 => Decimal.D0 Decimal.Nil | 1 => Decimal.D1 Decimal.Nil
  | 2 => Decimal.D2 Decimal.Nil | 3 => Decimal.D3 Decimal.Nil
  | 4 => Decimal.D4 Decimal.Nil | 5 => Decimal.D5 Decimal.Nil
  | 6 => Decimal.D6 Decimal.Nil | 7 => Decimal.D7 Decimal.Nil
  | 8 => Decimal.D8 Decimal.Nil | _ => Decimal.D9 Decimal.Nil
  end%N.

(** The runes the loop rewrites when it meets them outside quotes. *)
Definition is_placeholder (r : rune) : bool :=
  (r =? question_mark) || (r =? dollar).

(** A Unicode scalar value: a code point that is not a surrogate. *)
Definition valid_rune (r : rune) : bool :=
  between 0 0x10FFFF r && negb (between 0xD800 0xDFFF r).

Definition is_byte (b : Z) : bool := between 0 255 b.

(** Whether the bytes are well-formed UTF-8: no step of the decoding
    falls back on [RuneError] for a byte that starts no sequence. *)
Fixpoint well_formed (fuel : nat) (p : list Z) : bool :=
  match fuel, p with
  | _, [] => true
  | O, _ :: _ => false
  | S fuel', b0 :: _ =>
      let '(r, w) := DecodeRune p in
      ((b0 <? 0x80) || negb (Nat.eqb w 1)) && well_formed fuel' (drop w p)
  end.

Definition valid_utf8 (s : string) : bool :=
  let p := bytes_of_string s in well_formed (length p) p.

(** The one-character string holding a double quote. *)
Definition dq : string := String (ascii_of_byte 34) EmptyString.

(** ** What the commit loop leaves in the store *)

(** The writes of the loop of [OnCommit] on the store: the i-th buffered
    Delayed Result receives the result of the i-th sub-statement, as far
    as both lists go. *)
Fixpoint write_results (ds : list (option ptr)) (subs : list SubStatementData)
    (h : list Result) : list Result :=
  match ds, subs with
  | d :: ds', st :: subs' =>
      write_results ds' subs'
        match d with
        | Some p => <[p := NewResultWithSubStatementData st]> h
        | None => h
        end
  | _, _ => h
  end.

(** ** A remote service for the examples *)

(** The service answers every wait and every batch with the description
    it holds, and every submission with the id of that description. *)
Definition canned_client : RedshiftDataClient DescribeStatementOutput :=
  {| client_ExecuteStatement := fun _ w => (Ok {| Id := desc_Id w |}, w);
     client_wait := fun _ w => (Ok w, w);
     client_batch := fun _ w => (Ok w, w) |}.

(** A service whose every call fails. *)
Definition failing_client : RedshiftDataClient unit :=
  {| client_ExecuteStatement := fun _ w => (Err (ClientError "down"), w);
     client_wait := fun _ w => (Err (ClientError "down"), w);
     client_batch := fun _ w => (Err (ClientError "down"), w) |}.

Definition description (status : string) (err : option string)
    (rows : Z) (subs : list SubStatementData) : DescribeStatementOutput :=
  {| desc_Id := Some "id-1"%string; Status := status; Error := err;
     HasResultSet := Some false; ResultRows := rows; SubStatements := subs |}.

Definition finished (subs : list SubStatementData) : DescribeStatementOutput :=
  description StatusStringFinished None 0 subs.

Definition no_config : RedshiftDataConfig :=
  {| ClusterIdentifier := None; Database := None; DBUser := None;
     WorkgroupName := None; SecretsArn := None |}.

Definition default_options : TxOptions := {| Isolation := 0; ReadOnly := false |}.

(** The buffer after an operation: kept (and a transaction is not left),
    emptied, or extended by one statement and one Delayed Result while
    in a transaction. *)
Definition buffer_step (c c' : redshiftDataConn) : Prop :=
  (sqls c' = sqls c /\ delayedResult c' = delayedResult c /\
   (inTx c' = false -> inTx c = false)) \/
  (sqls c' = [] /\ delayedResult c' = []) \/
  (inTx c' = true /\
   exists q p, sqls c' = sqls c ++ [q] /\
               delayedResult c' = delayedResult c ++ [p]).

(** The connection after [cleanup]. *)
Definition cleaned (c : redshiftDataConn) : redshiftDataConn :=
  mkConn (cfg c) (aliveCh c) (isClosed c) false (mkTxOptions 0 false) [] [].

(** The connection after the two appends of [ExecContext]. *)
Definition buffered (c : redshiftDataConn) (query : string) (p : ptr)
  : redshiftDataConn :=
  mkConn (cfg c) (aliveCh c) (isClosed c) (inTx c) (txOpts c)
    (sqls c ++ [query]) (delayedResult c ++ [Some p]).

(** What one operation can do to the machine: the store never shrinks,
    and the connection is kept, closed, put in a transaction, cleaned
    up, or given one more statement with a freshly allocated Delayed
    Result. *)
Definition machine_step {W} (m m' : machine W) : Prop :=
  (length (heap m) <= length (heap m'))%nat /\
  (conn m' = conn m \/
   (isClosed (conn m) = false /\ conn m' = set_closed (conn m) ChanClosed true) \/
   (inTx (conn m) = false /\ exists opts, conn m' = set_tx (conn m) true opts) \/
   (inTx (conn m) = true /\ conn m' = cleaned (conn m)) \/
   (inTx (conn m) = true /\ ReadOnly (txOpts (conn m)) = false /\
    (length (heap m) < length (heap m'))%nat /\
    exists query, conn m' = buffered (conn m) query (length (heap m)))).

(** Unfolds the monad. *)
Ltac go :=
  unfold errors, error_of, waitWithCancel, BatchExecuteStatement, cleanup,
    new_delayed, store, deref, index, remote, put_conn, get_conn, raise,
    bind, ret in *;
  cbn [fst snd conn heap world calls] in *.

(** ** The configuration, [config/config.go] *)

Module Config.

(** *** The functions of package [strings] the file uses *)

(** [strings.HasPrefix]. *)
Fixpoint HasPrefix (s prefix : string) {struct prefix} : bool :=
  match prefix, s with
  | EmptyString, _ => true
  | String c prefix', String d s' => Ascii.eqb c d && HasPrefix s' prefix'
  | String _ _, EmptyString => false
  end.

Fixpoint drop_string (n : nat) (s : string) : string :=
  match n, s with
  | O, _ => s
  | S n', String _ s' => drop_string n' s'
  | S _, EmptyString => EmptyString
  end.

Fixpoint take_string (n : nat) (s : string) : string :=
  match n, s with
  | S n', String c s' => String c (take_string n' s')
  | _, _ => EmptyString
  end.

(** [strings.TrimPrefix]. *)
Definition TrimPrefix (s prefix : string) : string :=
  if HasPrefix s prefix then drop_string (String.length prefix) s else s.

(** [strings.HasSuffix] and [strings.TrimSuffix]. *)
Definition HasSuffix (s suffix : string) : bool :=
  (String.length suffix <=? String.length s)%nat &&
  String.eqb (drop_string (String.length s - String.length suffix) s) suffix.

Definition TrimSuffix (s suffix : string) : string :=
  if HasSuffix s suffix
  then take_string (String.length s - String.length suffix) s
  else s.

(** [strings.Split(s, sep)] for a separator of one byte: the pieces
    between the occurrences of the separator, at least one piece. *)
Fixpoint Split (s : string) (sep : ascii) : list string :=
  match s with
  | EmptyString => [EmptyString]
  | String c s' =>
      if Ascii.eqb c sep then EmptyString :: Split s' sep
      else
        match Split s' sep with
        | piece :: pieces => String c piece :: pieces
        | [] => [String c EmptyString]
        end
  end.

(** [strings.Join]. *)
Fixpoint Join (elems : list string) (sep : string) : string :=
  match elems with
  | [] => EmptyString
  | [e] => e
  | e :: rest => (e ++ sep ++ Join rest sep)%string
  end.

(** Whether the byte [c] occurs in [s]. *)
Fixpoint contains (c : ascii) (s : string) : bool :=
  match s with
  | EmptyString => false
  | String d s' => Ascii.eqb d c || contains c s'
  end.

(** *** Data *)

(** The errors of the file: the two sentinels of package [errors] it
    returns, the errors of the library functions it calls, and the
    values built by [fmt.Errorf]. *)
Inductive error : Type :=
| ErrDSNEmpty
| ErrRedshiftDSNInvalid
| LibraryError (msg : string)
| Errorf_w (format : string) (err : error)
| Errorf (format : string).

Inductive result (T : Type) : Type :=
| Ok (v : T)
| Err (e : error).
Arguments Ok {T} v.
Arguments Err {T} e.

(** [url.Values], a map from keys to lists of values; [None] is the
    nil map, which has no key and ignores deletions. *)
Definition Values : Type := option (gmap string (list string)).

(** [Values.Has], [Values.Get], [Values.Del]. *)
Definition Has (v : Values) (key : string) : bool :=
  match v with
  | Some m => match m !! key with Some _ => true | None => false end
  | None => false
  end.

Definition Get (v : Values) (key : string) : string :=
  match v with
  | Some m => match m !! key with Some (x :: _) => x | _ => EmptyString end
  | None => EmptyString
  end.

Definition Del (v : Values) (key : string) : Values :=
  option_map (delete key) v.

(** The map element [v[key]]. *)
Definition entry (v : Values) (key : string) : option (list string) :=
  match v with
  | Some m => m !! key
  | None => None
  end.

(** [Values.Set] and [Values.Add] on a map that is not nil. *)
Definition Set_ (m : gmap string (list string)) (key value : string)
  : gmap string (list string) := <[key := [value]]> m.

Definition Add (m : gmap string (list string)) (key value : string)
  : gmap string (list string) :=
  <[key := default [] (m !! key) ++ [value]]> m.

(** The fields of [url.URL] the file reads and writes, and [RawQuery],
    which [URL.Query] reads; [User] is the user name of the [Userinfo],
    [None] for a nil one. *)
Record URL := mkURL {
  Host : string;
  User : option string;
  Path : string;
  RawQuery : string
}.

(** [Userinfo.Username], which accepts a nil receiver. *)
Definition Username (u : option string) : string := default EmptyString u.

(** [RedshiftDataConfig]. [Timeout] and [Polling] are durations in
    nanoseconds; each function of [RedshiftDataOptFns] sets a region
    and is kept as that region. *)
Record RedshiftDataConfig := mkConfig {
  ClusterIdentifier : option string;
  Database : option string;
  DBUser : option string;
  WorkgroupName : option string;
  SecretsArn : option string;
  Timeout : Z;
  Polling : Z;
  Params : Values;
  RedshiftDataOptFns : list string
}.

(** The functions of the Go library the file calls and whose code is
    not part of it. [time_ParseDuration] returns its two results. *)
Class Library := {
  url_Parse : string -> result URL;
  URL_Query : URL -> Values;
  URL_String : URL -> string;
  url_ParseQuery : string -> result Values;
  time_ParseDuration : string -> Z * option error;
  Duration_String : Z -> string;
  Values_Encode : Values -> string
}.

Definition set_Params (cfg : RedshiftDataConfig) (params : Values)
  : RedshiftDataConfig :=
  mkConfig (ClusterIdentifier cfg) (Database cfg) (DBUser cfg)
    (WorkgroupName cfg) (SecretsArn cfg) (Timeout cfg) (Polling cfg)
    params (RedshiftDataOptFns cfg).

Definition set_Timeout (cfg : RedshiftDataConfig) (d : Z) : RedshiftDataConfig :=
  mkConfig (ClusterIdentifier cfg) (Database cfg) (DBUser cfg)
    (WorkgroupName cfg) (SecretsArn cfg) d (Polling cfg)
    (Params cfg) (RedshiftDataOptFns cfg).

Definition set_Polling (cfg : RedshiftDataConfig) (d : Z) : RedshiftDataConfig :=
  mkConfig (ClusterIdentifier cfg) (Database cfg) (DBUser cfg)
    (WorkgroupName cfg) (SecretsArn cfg) (Timeout cfg) d
    (Params cfg) (RedshiftDataOptFns cfg).

Section WithLibrary.

Context `{Library}.

(** *** The methods *)

(** [AddOrDeleteParam] on a map that is not nil, with the text
    [value.String()] gives. *)
Definition AddOrDeleteParam (params : gmap string (list string))
    (key value : string) : gmap string (list string) :=
  if negb (String.eqb value "0") then Add params key value
  else delete key params.

(** [BaseString]. *)
Definition BaseString (cfg : RedshiftDataConfig) : string :=
  match SecretsArn cfg with
  | Some arn => arn
  | None =>
      let u := mkURL EmptyString None EmptyString EmptyString in
      let u :=
        match ClusterIdentifier cfg, DBUser cfg with
        | Some cluster, Some user =>
            mkURL ("cluster(" ++ cluster ++ ")") (Some user) (Path u) (RawQuery u)
        | _, _ => u
        end in
      let u :=
        match WorkgroupName cfg with
        | Some workgroup => mkURL workgroup (User u) (Path u) (RawQuery u)
        | None => u
        end in
      let u :=
        match Database cfg with
        | Some database => mkURL (Host u) (User u) database (RawQuery u)
        | None => u
        end in
      if String.eqb (Host u) EmptyString
         || match Database cfg with None => true | Some _ => false end
      then EmptyString
      else URL_String u
  end.

(** [String]. *)
Definition String_ (cfg : RedshiftDataConfig) : string :=
  let base := TrimPrefix (BaseString cfg) "//" in
  if String.eqb base EmptyString then EmptyString
  else
    let params := AddOrDeleteParam ∅ "timeout" (Duration_String (Timeout cfg)) in
    let params := AddOrDeleteParam params "polling" (Duration_String (Polling cfg)) in
    let EncodedParams := Values_Encode (Some params) in
    if negb (String.eqb EncodedParams EmptyString)
    then (base ++ "?" ++ EncodedParams)%string
    else base.

(** [WithRegion]. *)
Definition WithRegion (cfg : RedshiftDataConfig) (region : string)
  : RedshiftDataConfig :=
  let params := default ∅ (Params cfg) in
  mkConfig (ClusterIdentifier cfg) (Database cfg) (DBUser cfg)
    (WorkgroupName cfg) (SecretsArn cfg) (Timeout cfg) (Polling cfg)
    (Some (Set_ params "region" region))
    (RedshiftDataOptFns cfg ++ [region]).

(** The [timeout] block of [SetParams]: the configuration after it and
    the error it returns with. After [cfg.Params = params] the two
    names denote one map, read here through the configuration. *)
Definition SetParams_timeout (cfg : RedshiftDataConfig)
  : RedshiftDataConfig * option error :=
  if Has (Params cfg) "timeout" then
    let '(d, err) := time_ParseDuration (Get (Params cfg) "timeout") in
    let cfg := set_Timeout cfg d in
    match err with
    | Some err => (cfg, Some (Errorf_w "error parsing timeout: %w" err))
    | None => (set_Params cfg (Del (Params cfg) "timeout"), None)
    end
  else (cfg, None).

(** The [polling] block. *)
Definition SetParams_polling (cfg : RedshiftDataConfig)
  : RedshiftDataConfig * option error :=
  if Has (Params cfg) "polling" then
    let '(d, err) := time_ParseDuration (Get (Params cfg) "polling") in
    let cfg := set_Polling cfg d in
    match err with
    | Some err => (cfg, Some (Errorf_w "error parsing polling: %w" err))
    | None => (set_Params cfg (Del (Params cfg) "polling"), None)
    end
  else (cfg, None).

(** [SetParams]: the configuration it leaves behind and the error it
    returns. *)
Definition SetParams (cfg : RedshiftDataConfig) (params : Values)
  : RedshiftDataConfig * option error :=
  let cfg := set_Params cfg params in
  match SetParams_timeout cfg with
  | (cfg, Some err) => (cfg, Some err)
  | (cfg, None) =>
      match SetParams_polling cfg with
      | (cfg, Some err) => (cfg, Some err)
      | (cfg, None) =>
          if Has (Params cfg) "region"
          then (WithRegion cfg (Get (Params cfg) "region"), None)
          else (cfg, None)
      end
  end.

(** The configuration [ParseDSN] starts from in its two branches. *)
Definition secret_config (arn : string) : RedshiftDataConfig :=
  mkConfig None None None None (Some arn) 0 0 None [].

Definition database_config (database : option string) : RedshiftDataConfig :=
  mkConfig None database None None None 0 0 None [].

(** [ParseDSN]. *)
Definition ParseDSN (dsn : string) : result RedshiftDataConfig :=
  if String.eqb dsn EmptyString then Err ErrDSNEmpty
  else if HasPrefix dsn "arn:" then
    let parts := Split dsn "?" in
    let cfg := secret_config (List.hd EmptyString parts) in
    if (2 <=? length parts)%nat then
      match url_ParseQuery (Join (List.tl parts) "?") with
      | Err err =>
          Err (Errorf_w "dsn is invalid: can not parse query params: %w" err)
      | Ok params =>
          match SetParams cfg params with
          | (_, Some err) =>
              Err (Errorf_w "dsn is invalid: set query params: %w" err)
          | (cfg, None) => Ok cfg
          end
      end
    else Ok cfg
  else
    match url_Parse ("redshift-data://" ++ dsn) with
    | Err err => Err (Errorf_w "dsn is invalid: %w" err)
    | Ok u =>
        let cfg := database_config (Nullif (TrimPrefix (Path u) "/")) in
        match Database cfg with
        | None => Err (Errorf "dsn is invalid: database is missing")
        | Some _ =>
            match SetParams cfg (URL_Query u) with
            | (_, Some err) =>
                Err (Errorf_w "dsn is invalid: set query params: %w" err)
            | (cfg, None) =>
                if HasPrefix (Host u) "cluster(" then
                  Ok (mkConfig
                        (Nullif (TrimSuffix (TrimPrefix (Host u) "cluster(") ")"))
                        (Database cfg) (Nullif (Username (User u)))
                        (WorkgroupName cfg) (SecretsArn cfg) (Timeout cfg)
                        (Polling cfg) (Params cfg) (RedshiftDataOptFns cfg))
                else if HasPrefix (Host u) "workgroup(" then
                  Ok (mkConfig (ClusterIdentifier cfg) (Database cfg) (DBUser cfg)
                        (Nullif (TrimSuffix (TrimPrefix (Host u) "workgroup(") ")"))
                        (SecretsArn cfg) (Timeout cfg)
                        (Polling cfg) (Params cfg) (RedshiftDataOptFns cfg))
                else Err ErrRedshiftDSNInvalid
            end
        end
    end.

End WithLibrary.

End Config.

(** ** The Go library, for the examples *)

(** The functions of [net/url] and [time] that [config.go] calls,
    written after the Go library so that the examples run on concrete
    text. [ParseQuery], [Query], [Encode], [URL.String] and
    [Duration.String] follow the library on every input. [Parse] and
    [ParseDuration] follow it on plain text and refuse everything else
    with the error [outside_the_model], which is not an error of Go:
    [Parse] takes [redshift-data://] followed by letters, digits and
    the characters [- _ . ~ ( ) / @ ? = &], so that no escape, port,
    password, address literal or fragment occurs; [ParseDuration]
    takes whole numbers with units, no fraction. The messages of the
    errors name their kind and are not the texts of Go. *)
Module Library.

Import Config.

Definition outside_the_model : error := LibraryError "outside the model".

(** *** Bytes *)

Definition byte (c : ascii) : N := N_of_ascii c.

Definition in_range (lo hi c : ascii) : bool :=
  (byte lo <=? byte c)%N && (byte c <=? byte hi)%N.

Definition is_digit (c : ascii) : bool := in_range "0" "9" c.

Definition is_letter (c : ascii) : bool :=
  in_range "a" "z" c || in_range "A" "Z" c.

Definition ishex (c : ascii) : bool :=
  is_digit c || in_range "a" "f" c || in_range "A" "F" c.

Definition unhex (c : ascii) : N :=
  if is_digit c then byte c - byte "0"
  else if in_range "a" "f" c then byte c - byte "a" + 10
  else if in_range "A" "F" c then byte c - byte "A" + 10
  else 0.

Definition one_of (cs : list ascii) (c : ascii) : bool :=
  existsb (Ascii.eqb c) cs.

(** [strings.Cut] for a separator of one byte. *)
Fixpoint Cut (s : string) (sep : ascii) : string * string * bool :=
  match s with
  | EmptyString => (EmptyString, EmptyString, false)
  | String c rest =>
      if Ascii.eqb c sep then (EmptyString, rest, true)
      else let '(before, after, found) := Cut rest sep in
           (String c before, after, found)
  end.

(** *** Escaping *)

Inductive encoding : Type :=
| encodePath
| encodeHost
| encodeUserPassword
| encodeQueryComponent.

(** [shouldEscape], for the four modes in use. *)
Definition shouldEscape (c : ascii) (mode : encoding) : bool :=
  if is_letter c || is_digit c then false
  else if match mode with encodeHost => true | _ => false end
          && (one_of ["!"; "$"; "&"; "'"; "("; ")"; "*"; "+"; ","; ";"; "=";
                      ":"; "["; "]"; "<"; ">"]%char c
              || (byte c =? 34)%N)
  then false
  else if one_of ["-"; "_"; "."; "~"]%char c then false
  else if one_of ["$"; "&"; "+"; ","; "/"; ":"; ";"; "="; "?"; "@"]%char c then
    match mode with
    | encodePath => Ascii.eqb c "?"
    | encodeUserPassword => one_of ["@"; "/"; "?"; ":"]%char c
    | encodeQueryComponent => true
    | encodeHost => true
    end
  else true.

Definition upperhex (n : N) : ascii :=
  nth (N.to_nat n)
    (list_ascii_of_string "0123456789ABCDEF") "0"%char.

(** [escape]. *)
Fixpoint escape (s : string) (mode : encoding) : string :=
  match s with
  | EmptyString => EmptyString
  | String c rest =>
      if shouldEscape c mode then
        if Ascii.eqb c " "
           && match mode with encodeQueryComponent => true | _ => false end
        then String "+" (escape rest mode)
        else String "%" (String (upperhex (byte c / 16))
                           (String (upperhex (byte c mod 16)) (escape rest mode)))
      else String c (escape rest mode)
  end.

(** [QueryUnescape]: [%XX] is a byte, [+] is a space. *)
Fixpoint QueryUnescape (s : string) : result string :=
  match s with
  | EmptyString => Ok EmptyString
  | String c rest =>
      if Ascii.eqb c "%" then
        match rest with
        | String a (String b rest') =>
            if ishex a && ishex b then
              match QueryUnescape rest' with
              | Ok t => Ok (String (ascii_of_N (16 * unhex a + unhex b)) t)
              | Err e => Err e
              end
            else Err (LibraryError "invalid URL escape")
        | _ => Err (LibraryError "invalid URL escape")
        end
      else
        match QueryUnescape rest with
        | Ok t => Ok (String (if Ascii.eqb c "+" then " "%char else c) t)
        | Err e => Err e
        end
  end.

(** *** [url.ParseQuery], [URL.Query] and [Values.Encode] *)

(** One turn of the loop of [parseQuery], on the piece before the next
    [&]: the map and the error so far, and after it. *)
Definition parse_pair (acc : gmap string (list string) * option error)
    (piece : string) : gmap string (list string) * option error :=
  let '(m, err) := acc in
  if contains ";" piece
  then (m, Some (LibraryError "invalid semicolon separator in query"))
  else if String.eqb piece EmptyString then (m, err)
  else
    let '(key, value, _) := Cut piece "=" in
    match QueryUnescape key with
    | Err err1 => (m, Some (default err1 err))
    | Ok key =>
        match QueryUnescape value with
        | Err err1 => (m, Some (default err1 err))
        | Ok value => (Add m key value, err)
        end
    end.

Definition parseQuery (query : string)
  : gmap string (list string) * option error :=
  fold_left parse_pair (Split query "&") (∅, None).

Definition ParseQuery (query : string) : result Values :=
  match parseQuery query with
  | (m, None) => Ok (Some m)
  | (_, Some err) => Err err
  end.

(** [URL.Query] drops the error of [ParseQuery] and keeps its map. *)
Definition Query (u : URL) : Values := Some (fst (parseQuery (RawQuery u))).

(** The keys in the order of their bytes. *)
Fixpoint insert_key (k : string) (ks : list string) : list string :=
  match ks with
  | [] => [k]
  | k' :: rest =>
      match String.compare k k' with
      | Gt => k' :: insert_key k rest
      | _ => k :: ks
      end
  end.

Definition sort_keys (ks : list string) : list string :=
  fold_right insert_key [] ks.

Definition Encode (v : Values) : string :=
  match v with
  | None => EmptyString
  | Some m =>
      Join
        (concat
           (map (fun k =>
                   map (fun value =>
                          (escape k encodeQueryComponent ++ "="
                           ++ escape value encodeQueryComponent)%string)
                     (default [] (m !! k)))
              (sort_keys (map fst (map_to_list m)))))
        "&"
  end.

(** *** [url.Parse] and [URL.String] *)

Definition plain (c : ascii) : bool :=
  is_letter c || is_digit c
  || one_of ["-"; "_"; "."; "~"; "("; ")"; "/"; "@"; "?"; "="; "&"]%char c.

Fixpoint all_plain (s : string) : bool :=
  match s with
  | EmptyString => true
  | String c rest => plain c && all_plain rest
  end.

(** [Parse] on [redshift-data://] followed by plain text: the query is
    what follows the first [?], the authority runs to the first [/],
    the path starts there, and the user is what precedes the last [@]
    of the authority. *)
Definition Parse (rawURL : string) : result URL :=
  if HasPrefix rawURL "redshift-data://"
     && all_plain (drop_string 16 rawURL)
  then
    let '(rest, query, _) := Cut (drop_string 16 rawURL) "?" in
    let '(authority, path, found) := Cut rest "/" in
    let parts := Split authority "@" in
    Ok {| Host := List.last parts EmptyString;
          User := if (2 <=? length parts)%nat
                  then Some (Join (removelast parts) "@")
                  else None;
          Path := if found then String "/" path else EmptyString;
          RawQuery := query |}
  else Err outside_the_model.

(** [URL.String] for a URL without scheme, opaque part and fragment. *)
Definition URL_String (u : URL) : string :=
  let authority :=
    if negb (String.eqb (Host u) EmptyString)
       || match User u with Some _ => true | None => false end
    then
      ("//"
       ++ match User u with
          | Some name => escape name encodeUserPassword ++ "@"
          | None => EmptyString
          end
       ++ escape (Host u) encodeHost)%string
    else EmptyString in
  let path :=
    if String.eqb (Path u) "*" then Path u else escape (Path u) encodePath in
  let slash :=
    if negb (String.eqb path EmptyString) && negb (HasPrefix path "/")
       && negb (String.eqb (Host u) EmptyString)
    then "/"%string else EmptyString in
  let dot :=
    if String.eqb (authority ++ slash) EmptyString
       && contains ":" (fst (fst (Cut path "/")))
    then "./"%string else EmptyString in
  (authority ++ slash ++ dot ++ path
   ++ if String.eqb (RawQuery u) EmptyString then EmptyString
      else "?" ++ RawQuery u)%string.

(** *** [time.ParseDuration] and [Duration.String] *)

Definition invalid_duration : error := LibraryError "invalid duration".

(** [leadingInt]: the value of the leading digits and the rest. *)
Fixpoint leadingInt (s : string) (x : Z) : Z * string :=
  match s with
  | EmptyString => (x, s)
  | String c rest =>
      if is_digit c then leadingInt rest (x * 10 + Z.of_N (byte c - byte "0"))
      else (x, s)
  end.

(** The unit: the bytes up to the next digit or period. *)
Fixpoint leadingUnit (s : string) : string * string :=
  match s with
  | EmptyString => (EmptyString, EmptyString)
  | String c rest =>
      if Ascii.eqb c "." || is_digit c then (EmptyString, s)
      else let '(u, rest') := leadingUnit rest in (String c u, rest')
  end.

Definition unitMap (u : string) : option Z :=
  if String.eqb u "ns" then Some 1
  else if String.eqb u "us" || String.eqb u "µs" || String.eqb u "μs"
  then Some 1000
  else if String.eqb u "ms" then Some 1000000
  else if String.eqb u "s" then Some 1000000000
  else if String.eqb u "m" then Some 60000000000
  else if String.eqb u "h" then Some 3600000000000
  else None.

(** The loop of [ParseDuration] over the numbers with their units; [d]
    is the sum so far, an unsigned number of 64 bits. *)
Fixpoint durations (fuel : nat) (s : string) (d : Z) : Z * option error :=
  match fuel, s with
  | _, EmptyString => (d, None)
  | O, _ => (0, Some invalid_duration)
  | S fuel', String c _ =>
      if Ascii.eqb c "." then (0, Some outside_the_model)
      else if negb (is_digit c) then (0, Some invalid_duration)
      else
        let '(v, rest) := leadingInt s 0 in
        if 2 ^ 63 <? v then (0, Some invalid_duration)
        else if HasPrefix rest "." then (0, Some outside_the_model)
        else
          let '(u, rest') := leadingUnit rest in
          if String.eqb u EmptyString
          then (0, Some (LibraryError "missing unit in duration"))
          else
            match unitMap u with
            | None => (0, Some (LibraryError "unknown unit in duration"))
            | Some unit =>
                if 2 ^ 63 / unit <? v then (0, Some invalid_duration)
                else
                  let d := (d + v * unit) mod 2 ^ 64 in
                  if 2 ^ 63 <? d then (0, Some invalid_duration)
                  else durations fuel' rest' d
            end
  end.

Definition ParseDuration (s : string) : Z * option error :=
  let neg := HasPrefix s "-" in
  let s := if HasPrefix s "-" || HasPrefix s "+" then drop_string 1 s else s in
  if String.eqb s "0" then (0, None)
  else if String.eqb s EmptyString then (0, Some invalid_duration)
  else
    match durations (String.length s) s 0 with
    | (d, None) =>
        if neg then (- d, None)
        else if 2 ^ 63 - 1 <? d then (0, Some invalid_duration)
        else (d, None)
    | (d, Some err) => (d, Some err)
    end.

(** [fmtFrac]: the fraction [v / 10^prec] without its trailing zeros,
    in front of [text], and the whole part. *)
Fixpoint fmtFrac (prec : nat) (v : Z) (print : bool) (text : string)
  : string * Z :=
  match prec with
  | O => (if print then String "." text else text, v)
  | S prec' =>
      let digit := v mod 10 in
      let print := print || negb (digit =? 0) in
      fmtFrac prec' (v / 10) print
        (if print then String (ascii_of_N (byte "0" + Z.to_N digit)) text
         else text)
  end.

Definition Duration_String (d : Z) : string :=
  let u := Z.abs d in
  let sign := if d <? 0 then "-"%string else EmptyString in
  if u <? 1000000000 then
    if u =? 0 then "0s"%string
    else
      let '(prec, unit) :=
        if u <? 1000 then (0%nat, "ns"%string)
        else if u <? 1000000 then (3%nat, "µs"%string)
        else (6%nat, "ms"%string) in
      let '(frac, whole) := fmtFrac prec u false unit in
      (sign ++ Sprintf_d whole ++ frac)%string
  else
    let '(frac, seconds) := fmtFrac 9 u false "s" in
    let text := (Sprintf_d (seconds mod 60) ++ frac)%string in
    let minutes := seconds / 60 in
    if 0 <? minutes then
      let text := (Sprintf_d (minutes mod 60) ++ "m" ++ text)%string in
      let hours := minutes / 60 in
      if 0 <? hours then (sign ++ Sprintf_d hours ++ "h" ++ text)%string
      else (sign ++ text)%string
    else (sign ++ text)%string.

End Library.

Definition go_library : Config.Library :=
  {| Config.url_Parse := Library.Parse;
     Config.URL_Query := Library.Query;
     Config.URL_String := Library.URL_String;
     Config.url_ParseQuery := Library.ParseQuery;
     Config.time_ParseDuration := Library.ParseDuration;
     Config.Duration_String := Library.Duration_String;
     Config.Values_Encode := Library.Encode |}.

(** * Properties *)

(** ** The query rewriter *)

Example rewriteQuery_question :
  rewriteQuery "SELECT * FROM t WHERE a = ? AND b = '?'" 1
  = "SELECT * FROM t WHERE a = :1 AND b = '?'"%string.
Proof. vm_compute. reflexivity. Qed.

Example rewriteQuery_dollar :
  rewriteQuery "WHERE x = $1" 1 = "WHERE x = :1"%string.
Proof. vm_compute. reflexivity. Qed.

Example rewriteQuery_no_params (s : string) : rewriteQuery s 0 = s.
Proof. reflexivity. Qed.

Example rewriteQuery_counts_past_quotes :
  rewriteQuery ("a=? b=" ++ dq ++ "?" ++ dq ++ " c=? d=$3 e='$' f=?") 3
  = ("a=:1 b=" ++ dq ++ "?" ++ dq ++ " c=:2 d=:3 e='$' f=:3")%string.
Proof. vm_compute. reflexivity. Qed.

Example rewriteQuery_utf8 :
  rewriteQuery "é = ? ∧ ü" 1 = "é = :1 ∧ ü"%string.
Proof. vm_compute. reflexivity. Qed.

Example rewriteQuery_tenth :
  rewriteQuery "??????????" 10 = ":1:2:3:4:5:6:7:8:9:10"%string.
Proof. vm_compute. reflexivity. Qed.

Section Rewriter.

Implicit Types (p q : list rune) (r : rune) (st : rewriter).

Lemma scan_snoc p r : scan (p ++ [r]) = rewrite_step (scan p) r.
Proof. unfold scan. now rewrite fold_left_app. Qed.

Lemma scan_app p q : scan (p ++ q) = fold_left rewrite_step q (scan p).
Proof. unfold scan. now rewrite fold_left_app. Qed.

Lemma stack_test_nonempty st :
  stack st <> [] -> (0 <? length (stack st))%nat = true.
Proof.
  destruct (stack st); [congruence | intros _; reflexivity].
Qed.

Lemma stack_test_empty st :
  stack st = [] -> (0 <? length (stack st))%nat = false.
Proof. intros ->. reflexivity. Qed.

(** Inside an open quote the step copies the rune, keeps the count,
    and pops, pushes or keeps the stack. *)
Lemma rewrite_step_inside st r :
  stack st <> [] ->
  runes (rewrite_step st r) = runes st ++ [r] /\
  exclamationCount (rewrite_step st r) = exclamationCount st /\
  stack (rewrite_step st r) =
    if r =? List.last (stack st) 0 then removelast (stack st)
    else if is_quote r then stack st ++ [r]
    else stack st.
Proof.
  intros Hne. unfold rewrite_step.
  rewrite (stack_test_nonempty st Hne).
  destruct (r =? List.last (stack st) 0); cbn; auto.
Qed.

(** Outside quotes the step rewrites [?] and [$] and copies the rest. *)
Lemma rewrite_step_outside st r :
  stack st = [] ->
  rewrite_step st r =
    if r =? question_mark then
      {| runes := runes st ++ marker (int_wrap (exclamationCount st + 1));
         stack := [];
         exclamationCount := int_wrap (exclamationCount st + 1) |}
    else if r =? dollar then
      {| runes := runes st ++ [colon]; stack := [];
         exclamationCount := exclamationCount st |}
    else
      {| runes := runes st ++ [r];
         stack := if is_quote r then [r] else [];
         exclamationCount := exclamationCount st |}.
Proof.
  intros He. unfold rewrite_step, push_and_copy.
  rewrite (stack_test_empty st He), He.
  destruct (r =? question_mark); [reflexivity|].
  destruct (r =? dollar); reflexivity.
Qed.

Lemma int_wrap_small z : - 2 ^ 63 <= z < 2 ^ 63 -> int_wrap z = z.
Proof.
  intros Hz. unfold int_wrap.
  rewrite Z.mod_small; lia.
Qed.

(** *** Decimal numerals *)

Lemma uint_text_digits u :
  uint_text u = map digit_rune (DecimalFacts.to_list u).
Proof.
unfold uint_text. induction u; cbn; [reflexivity | f_equal; assumption ..].
Qed.

Lemma uint_text_app u v :
  uint_text (Decimal.app u v) = uint_text u ++ uint_text v.
Proof. now rewrite !uint_text_digits, DecimalFacts.app_spec, map_app. Qed.

(** The numeral of a number below ten is its digit. *)
Lemma to_uint_digit (n : N) :
  (n < 10)%N -> uint_text (N.to_uint n) = [0x30 + Z.of_N n].
Proof.
intros Hn.
destruct n as [|p]; [reflexivity|].
do 9 (destruct p as [p|p|]; try lia; try reflexivity).
Qed.

Lemma to_uint_normal (n : N) : Decimal.unorm (N.to_uint n) = N.to_uint n.
Proof.
rewrite <- (DecimalN.Unsigned.of_to n) at 2.
now rewrite DecimalN.Unsigned.to_of.
Qed.

Lemma to_uint_head (n : N) :
  n <> 0%N ->
  exists h t, DecimalFacts.to_list (N.to_uint n) = h :: t /\ h <> DecimalFacts.d0.
Proof.
intros Hn.
pose proof (to_uint_normal n) as Hu.
assert (Hz : N.to_uint n <> Decimal.zero).
{ intros Hz. apply Hn. now rewrite <- (DecimalN.Unsigned.of_to n), Hz. }
destruct (N.to_uint n) as [|u|u|u|u|u|u|u|u|u|u] eqn:E;
  try (eexists _, _; split; [reflexivity | discriminate]).
- discriminate.
- exfalso. rewrite DecimalFacts.unorm_D0 in Hu. unfold Decimal.unorm in Hu.
  destruct (Decimal.nzhead u) eqn:Hh; try congruence.
  exact (DecimalFacts.nzhead_nonzero _ _ Hh).
Qed.

Lemma unorm_app_normal (n : N) (v : Decimal.uint) :
  n <> 0%N ->
  Decimal.unorm (Decimal.app (N.to_uint n) v) = Decimal.app (N.to_uint n) v.
Proof.
intros Hn. destruct (to_uint_head n Hn) as (h & t & Hl & Hh).
apply DecimalFacts.to_list_inj.
rewrite DecimalFacts.unorm_spec, DecimalFacts.app_spec, Hl. cbn [app].
unfold DecimalFacts.lunorm.
now rewrite DecimalFacts.lnzhead_head_nd0.
Qed.

Lemma of_uint_snoc (u : Decimal.uint) (k : N) :
  (k < 10)%N ->
  N.of_uint (Decimal.app u (digit_uint k)) = (k + 10 * N.of_uint u)%N.
Proof.
intros Hk. unfold N.of_uint.
rewrite !DecimalPos.Unsigned.of_uint_alt.
assert (Hrev : Decimal.rev (Decimal.app u (digit_uint k))
               = Decimal.revapp (digit_uint k) (Decimal.rev u)).
{ apply DecimalFacts.to_list_inj.
  rewrite DecimalFacts.rev_spec, DecimalFacts.app_spec, DecimalFacts.revapp_spec,
    DecimalFacts.rev_spec.
  now rewrite List.rev_app_distr, List.rev_append_rev. }
rewrite Hrev.
destruct k as [|p]; [reflexivity|].
do 9 (destruct p as [p|p|]; try lia; try reflexivity).
Qed.

(** The numeral of a number from ten on is the numeral of its tenth
    followed by its last digit. *)
Lemma to_uint_tens (n : N) :
  (10 <= n)%N ->
  uint_text (N.to_uint n)
  = uint_text (N.to_uint (n / 10)) ++ [0x30 + Z.of_N (n mod 10)].
Proof.
intros Hn.
assert (Hk : (n mod 10 < 10)%N) by (apply N.mod_lt; lia).
assert (Hq : (n / 10 <> 0)%N).
{ intros H0. apply N.div_small_iff in H0; lia. }
assert (Hd : N.to_uint n
             = Decimal.app (N.to_uint (n / 10)) (digit_uint (n mod 10))).
{ rewrite <- unorm_app_normal by assumption.
  rewrite <- DecimalN.Unsigned.to_of.
  rewrite of_uint_snoc by assumption.
  rewrite DecimalN.Unsigned.of_to. f_equal.
  rewrite N.add_comm. apply N.div_mod. lia. }
rewrite Hd, uint_text_app. f_equal.
generalize (n mod 10)%N Hk. clear. intros k Hk.
destruct k as [|p]; [reflexivity|].
do 9 (destruct p as [p|p|]; try lia; try reflexivity).
Qed.

Lemma decimal_digits_to_uint (fuel : nat) (n : N) :
  (N.to_nat n < fuel)%nat -> decimal_digits fuel n = uint_text (N.to_uint n).
Proof.
revert n. induction fuel as [|fuel IH]; intros n Hf; [lia|].
cbn [decimal_digits].
destruct (N.ltb_spec n 10) as [Hn|Hn].
- rewrite to_uint_digit by assumption. rewrite N.mod_small by assumption.
  reflexivity.
- rewrite to_uint_tens by assumption. f_equal. apply IH.
  assert ((n / 10 < n)%N) by (apply N.div_lt; lia). lia.
Qed.

(** The text [fmt.Sprintf] gives for a number that is not negative
    holds its decimal digits. *)
Lemma Sprintf_d_decimal (n : N) :
  map rune_of_ascii (list_ascii_of_string (Sprintf_d (Z.of_N n))) = decimal n.
Proof.
unfold decimal. rewrite decimal_digits_to_uint by lia.
unfold Sprintf_d, uint_text.
destruct n as [|p]; [reflexivity|]. cbn [Z.of_N Z.to_int NilZero.string_of_int N.to_uint].
pose proof (DecimalPos.Unsigned.to_uint_nonnil p) as Hp.
unfold NilZero.string_of_uint. now destruct (Pos.to_uint p).
Qed.

Lemma marker_positional (k : nat) :
  marker (Z.of_nat k) = positional_marker k.
Proof.
unfold marker, positional_marker. rewrite <- nat_N_Z, Sprintf_d_decimal.
reflexivity.
Qed.

(** *** The quote stack holds the nested quotes *)

Lemma is_quote_character r : is_quote r = quote_character r.
Proof. reflexivity. Qed.

Lemma scan_stack q : stack (scan q) = rev (fold_left nest q []).
Proof.
  induction q as [|r q IH] using rev_ind; [reflexivity|].
  rewrite scan_snoc, fold_left_app. cbn [fold_left].
  destruct (fold_left nest q []) as [|c outer] eqn:Hn.
  - cbn [rev] in IH. rewrite rewrite_step_outside by assumption.
    cbn [nest].
    destruct (Z.eqb_spec r question_mark) as [->|_]; [reflexivity|].
    destruct (Z.eqb_spec r dollar) as [->|_]; [reflexivity|].
    cbn [stack]. rewrite is_quote_character.
    now destruct (quote_character r).
  - cbn [rev] in IH.
    destruct (rewrite_step_inside (scan q) r) as (_ & _ & Hs).
    { rewrite IH. now destruct (rev outer). }
    rewrite Hs, IH, last_last, removelast_last. cbn [nest].
    destruct (r =? c); [reflexivity|].
    rewrite is_quote_character. now destruct (quote_character r).
Qed.




(** *** Positions of a query and of its extensions *)

Lemma open_quotes_snoc q r i :
  (i <= length q)%nat -> open_quotes (q ++ [r]) i = open_quotes q i.
Proof. intros Hi. unfold open_quotes. now rewrite take_app_le. Qed.

Lemma outside_quotes_end q r :
  outside_quotes (q ++ [r]) (length q)
  = match stack (scan q) with [] => true | _ :: _ => false end.
Proof.
  unfold outside_quotes. rewrite open_quotes_snoc by lia. unfold open_quotes.
  rewrite firstn_all, scan_stack.
  destruct (fold_left nest q []) as [|c outer]; [reflexivity|].
  cbn [rev]. now destruct (rev outer).
Qed.

Lemma bare_question_snoc q r i :
  (i < length q)%nat -> bare_question (q ++ [r]) i = bare_question q i.
Proof.
  intros Hi. unfold bare_question, bare_question_where, outside_quotes.
  rewrite open_quotes_snoc by lia.
  now rewrite lookup_app_l.
Qed.

Lemma bare_questions_snoc q r n :
  (n <= length q)%nat -> bare_questions (q ++ [r]) n = bare_questions q n.
Proof.
  intros Hn. unfold bare_questions, bare_questions_where. f_equal.
  apply List.filter_ext_in. intros j Hj.
  apply in_seq in Hj. apply bare_question_snoc. lia.
Qed.

Lemma bare_questions_S q n :
  bare_questions q (S n) =
  (bare_questions q n + if bare_question q n then 1 else 0)%nat.
Proof.
  unfold bare_questions, bare_questions_where.
  rewrite seq_S, List.filter_app, length_app.
  cbn [List.filter Nat.add]. fold (bare_question q n).
  destruct (bare_question q n); reflexivity.
Qed.

Lemma bare_questions_le q n : (bare_questions q n <= n)%nat.
Proof.
  unfold bare_questions, bare_questions_where.
  etransitivity; [apply List.filter_length_le|]. now rewrite length_seq.
Qed.

Lemma rewritten_at_snoc q r i :
  (i < length q)%nat -> rewritten_at (q ++ [r]) i = rewritten_at q i.
Proof.
  intros Hi. unfold rewritten_at, rewritten_at_where, outside_quotes.
  rewrite lookup_app_l by lia.
  rewrite open_quotes_snoc by lia.
  fold (bare_questions (q ++ [r]) (S i)). fold (bare_questions q (S i)).
  now rewrite bare_questions_snoc by lia.
Qed.

Lemma rewritten_snoc q r :
  rewritten (q ++ [r]) = rewritten q ++ rewritten_at (q ++ [r]) (length q).
Proof.
  unfold rewritten, rewritten_where. rewrite length_app. cbn [length].
  replace (length q + 1)%nat with (S (length q)) by lia.
  rewrite seq_S, map_app, concat_app. cbn. rewrite app_nil_r.
  f_equal. f_equal. apply map_ext_in. intros i Hi.
  apply in_seq in Hi. apply rewritten_at_snoc. lia.
Qed.

Lemma bare_questions_end q r :
  bare_questions (q ++ [r]) (S (length q))
  = (bare_questions q (length q)
     + match stack (scan q) with
       | [] => if (r =? question_mark)%Z then 1 else 0
       | _ :: _ => 0
       end)%nat.
Proof.
  rewrite bare_questions_S, bare_questions_snoc by lia. f_equal.
  unfold bare_question, bare_question_where.
  rewrite outside_quotes_end, list_lookup_middle by reflexivity.
  change 0x3F with question_mark.
  destruct (stack (scan q)); [|reflexivity].
  cbn [andb]. reflexivity.
Qed.

(** What the description puts at the end of a query, by the quote
    stack of the loop there. *)
Lemma rewritten_at_end q r :
  rewritten_at (q ++ [r]) (length q)
  = match stack (scan q) with
    | [] =>
        if r =? question_mark
        then positional_marker (S (bare_questions q (length q)))
        else if r =? dollar then [colon] else [r]
    | _ :: _ => [r]
    end.
Proof.
  unfold rewritten_at, rewritten_at_where.
  rewrite list_lookup_middle by reflexivity.
  rewrite outside_quotes_end.
  fold (bare_questions (q ++ [r]) (S (length q))).
  rewrite bare_questions_end.
  change 0x3F with question_mark. change 0x24 with dollar.
  change [0x3A] with [colon].
  destruct (stack (scan q)); [|reflexivity].
  destruct (r =? question_mark); [|reflexivity].
  f_equal. lia.
Qed.

(** *** The loop computes the position-wise description *)

Lemma scan_rewritten q :
  Z.of_nat (length q) < 2 ^ 63 ->
  runes (scan q) = rewritten q /\
  exclamationCount (scan q) = Z.of_nat (bare_questions q (length q)).
Proof.
  induction q as [|r q IH] using rev_ind; intros Hlen.
  - split; reflexivity.
  - rewrite length_app in Hlen. cbn [length] in Hlen.
    destruct IH as [IHr IHc]; [lia|].
    rewrite scan_snoc, rewritten_snoc, length_app. cbn [length].
    replace (length q + 1)%nat with (S (length q)) by lia.
    rewrite rewritten_at_end, bare_questions_end.
    pose proof (bare_questions_le q (length q)) as Hle.
    destruct (stack (scan q)) as [|top rest] eqn:Hst.
    + rewrite rewrite_step_outside by assumption.
      rewrite IHc.
      destruct (r =? question_mark).
      * rewrite int_wrap_small by lia. cbn [runes exclamationCount].
        rewrite IHr, <- marker_positional. split; [|lia].
        do 2 f_equal. lia.
      * destruct (r =? dollar); cbn [runes exclamationCount];
          rewrite IHr; split; (reflexivity || lia).
    + destruct (rewrite_step_inside (scan q) r) as (Hr & Hc & _);
        [congruence|].
      rewrite Hr, Hc, IHr, IHc. split; [reflexivity|lia].
Qed.

(** *** Decoding never runs out of fuel *)

Lemma DecodeRune_width b p : (1 <= snd (DecodeRune (b :: p)))%nat.
Proof.
  unfold DecodeRune.
  destruct (b <? 0x80); [cbn; lia|].
  destruct (first b) as [[sz lo] hi].
  destruct sz as [|[|[|[|[|sz]]]]]; cbn; try lia.
  - destruct p; cbn; try lia. destruct (between lo hi z); cbn; lia.
  - destruct p as [|b1 [|b2 p]]; cbn; try lia.
    destruct (between lo hi b1 && between 128 191 b2); cbn; lia.
  - destruct p as [|b1 [|b2 [|b3 p]]]; cbn; try lia.
    destruct (between lo hi b1 && between 128 191 b2 && between 128 191 b3);
      cbn; lia.
Qed.

Lemma range_runes_fuel_irrelevant fuel fuel' (bs : list Z) :
  (length bs <= fuel)%nat -> (length bs <= fuel')%nat ->
  range_runes fuel bs = range_runes fuel' bs.
Proof.
  revert fuel' bs. induction fuel as [|fuel IH]; intros fuel' bs Hf Hf'.
  - destruct bs; [now destruct fuel' | cbn in Hf; lia].
  - destruct bs as [|b bs]; [now destruct fuel'|].
    destruct fuel' as [|fuel']; [cbn in Hf'; lia|].
    cbn [length range_runes] in *.
    pose proof (DecodeRune_width b bs) as Hw.
    destruct (DecodeRune (b :: bs)) as [r w]. cbn [snd] in Hw.
    f_equal.
    assert (Hd : (length (drop w (b :: bs)) <= length bs)%nat).
    { rewrite length_drop. cbn [length]. lia. }
    apply IH; lia.
Qed.

Lemma range_runes_fuel fuel (bs : list Z) :
  (length bs <= fuel)%nat ->
  range_runes fuel bs = range_runes (length bs) bs.
Proof. intros Hf. apply range_runes_fuel_irrelevant; lia. Qed.



End Rewriter.

(** C4 (amended). For every prefix of the scanned query that leaves the
    quote stack non-empty, the next rune is copied to the output as it
    is and the count of placeholders is kept; the stack is popped when
    the rune equals its top, is pushed when the rune is a quote
    character of the other kind, and is kept otherwise. *)
Theorem quoted_rune_copied_stack_pops_or_pushes (p : list rune) (r : rune) :
  stack (scan p) <> [] ->
  runes (scan (p ++ [r])) = runes (scan p) ++ [r] /\
  exclamationCount (scan (p ++ [r])) = exclamationCount (scan p) /\
  stack (scan (p ++ [r])) =
    if r =? List.last (stack (scan p)) 0 then removelast (stack (scan p))
    else if is_quote r then stack (scan p) ++ [r]
    else stack (scan p).
Proof.
  intros Hne. rewrite scan_snoc. now apply rewrite_step_inside.
Qed.

Lemma quoted_rune_copied_stack_pops_or_pushes_witness :
  stack (scan [single_quote; question_mark]) <> [] /\
  runes (scan ([single_quote; question_mark] ++ [double_quote]))
  = runes (scan [single_quote; question_mark]) ++ [double_quote] /\
  exclamationCount (scan ([single_quote; question_mark] ++ [double_quote]))
  = exclamationCount (scan [single_quote; question_mark]) /\
  stack (scan ([single_quote; question_mark] ++ [double_quote])) =
    if double_quote =? List.last (stack (scan [single_quote; question_mark])) 0
    then removelast (stack (scan [single_quote; question_mark]))
    else if is_quote double_quote
         then stack (scan [single_quote; question_mark]) ++ [double_quote]
         else stack (scan [single_quote; question_mark]).
Proof.
  split; [vm_compute; discriminate|].
  apply (quoted_rune_copied_stack_pops_or_pushes
           [single_quote; question_mark] double_quote).
  vm_compute; discriminate.
Defined.

(** C4, as stated, fails: inside an open single quote a double quote is
    pushed onto the stack, so the stack changes without a pop; the [?]
    that follows the closing single quote is then still inside quotes
    for the rewriter and is left as it is. *)
Lemma other_quote_inside_quote_is_pushed :
  stack (scan [single_quote]) = [single_quote] /\
  stack (scan ([single_quote] ++ [double_quote])) = [single_quote; double_quote] /\
  rewriteQuery ("'" ++ dq ++ "' ?") 1 = ("'" ++ dq ++ "' ?")%string.
Proof. vm_compute. repeat split. Qed.



Example rewritten_markers :
  string_of_runes
    (rewritten
       (runes_of_string
          ("a = ? AND b = '?' AND c = $2 AND d = " ++ dq ++ "'?'" ++ dq
           ++ " AND e = ?")))
  = ("a = :1 AND b = '?' AND c = :2 AND d = " ++ dq ++ "'?'" ++ dq
     ++ " AND e = :2")%string.
Proof. vm_compute. reflexivity. Qed.

(** The description with the quoted literals of section 4.1 gives the
    results the specification lists. *)
Example rewritten_as_specified_examples :
  string_of_runes
    (rewritten_as_specified
       (runes_of_string "SELECT * FROM t WHERE a = ? AND b = '?'"))
  = "SELECT * FROM t WHERE a = :1 AND b = '?'"%string /\
  string_of_runes (rewritten_as_specified (runes_of_string "WHERE x = $1"))
  = "WHERE x = :1"%string.
Proof. vm_compute. split; reflexivity. Qed.


(** ** The connection *)

Section ConnectionProperties.

Context {W : Type} `{RedshiftDataClient W}.

Implicit Types (m : machine W) (c : redshiftDataConn).

(** [Close] writes [isClosed] and the channel only. *)
Lemma Close_frame (m : machine W) :
  inTx (conn (snd (Close m))) = inTx (conn m) /\
  txOpts (conn (snd (Close m))) = txOpts (conn m) /\
  sqls (conn (snd (Close m))) = sqls (conn m) /\
  delayedResult (conn (snd (Close m))) = delayedResult (conn m) /\
  cfg (conn (snd (Close m))) = cfg (conn m) /\
  heap (snd (Close m)) = heap m /\
  world (snd (Close m)) = world m /\
  calls (snd (Close m)) = calls m.
Proof.
  unfold Close. go.
  destruct (isClosed (conn m)); cbn; [tauto|].
  destruct (aliveCh (conn m)); cbn; tauto.
Qed.

(** C10. [Close] leaves inTx, the recorded options, the buffered
    statements and the buffered Delayed Results as they are, on every
    connection, in a transaction or not; the Delayed Results in the
    store are not written either. Closing neither rolls back nor
    discards a pending transaction. *)
Theorem Close_keeps_transaction (m : machine W) :
  inTx (conn (snd (Close m))) = inTx (conn m) /\
  txOpts (conn (snd (Close m))) = txOpts (conn m) /\
  sqls (conn (snd (Close m))) = sqls (conn m) /\
  delayedResult (conn (snd (Close m))) = delayedResult (conn m) /\
  heap (snd (Close m)) = heap m.
Proof.
  destruct (Close_frame m) as (Ht & Ho & Hs & Hd & _ & Hh & _). auto.
Qed.

Lemma Close_open (m : machine W) :
  isClosed (conn m) = false -> aliveCh (conn m) = ChanOpen ->
  fst (Close m) = Done None /\
  isClosed (conn (snd (Close m))) = true /\
  aliveCh (conn (snd (Close m))) = ChanClosed.
Proof.
  intros Hc Ha. unfold Close. go. rewrite Hc. cbn. rewrite Ha. cbn. tauto.
Qed.

Lemma Close_closed (m : machine W) :
  isClosed (conn m) = true -> Close m = (Done None, m).
Proof. intros Hc. unfold Close. go. now rewrite Hc. Qed.

(** C7. An operation the engine does not support (prepare, query in a
    transaction, exec with arguments in a transaction, exec in a
    read-only transaction, begin with a non-default isolation level)
    returns an error, which is ErrInTx or wraps ErrNotSupported, and
    leaves the machine as it was: the log of the calls made to the
    remote client and the state of the remote service are unchanged,
    so no ExecuteStatement, DescribeStatement or
    BatchExecuteStatement call occurs. *)
Theorem unsupported_rejected_locally (m : machine W) (o : operation) :
  capability_unsupported (conn m) o = true ->
  exists e,
    perform o m = (Done (Some e), m) /\
    (e = ErrInTx \/ exists format, e = Errorf_w format ErrNotSupported) /\
    calls (snd (perform o m)) = calls m /\
    world (snd (perform o m)) = world m.
Proof.
  assert (Hgen : forall e,
    perform o m = (Done (Some e), m) ->
    (e = ErrInTx \/ exists format, e = Errorf_w format ErrNotSupported) ->
    exists e,
      perform o m = (Done (Some e), m) /\
      (e = ErrInTx \/ exists format, e = Errorf_w format ErrNotSupported) /\
      calls (snd (perform o m)) = calls m /\
      world (snd (perform o m)) = world m).
  { intros e He Hk. exists e. rewrite He. auto. }
  destruct o as [q| |opts|q args|q args| |]; cbn [capability_unsupported];
    intros Hu; try discriminate.
  - eapply Hgen; [reflexivity|]. right. eexists. reflexivity.
  - destruct (inTx (conn m)) eqn:Ht.
    + apply (Hgen ErrInTx); [|now left].
      cbn [perform]. unfold BeginTx. go. now rewrite Ht.
    + eapply Hgen; [|right; eexists; reflexivity].
      cbn [perform]. unfold BeginTx. go. rewrite Ht, Hu. reflexivity.
  - apply andb_true_iff in Hu as [Ht Hu].
    destruct (0 <? length args)%nat eqn:Ha.
    + eapply Hgen; [|right; eexists; reflexivity].
      cbn [perform]. unfold ExecContext. go. rewrite Ht, Ha. reflexivity.
    + cbn in Hu.
      eapply Hgen; [|right; eexists; reflexivity].
      cbn [perform]. unfold ExecContext. go. rewrite Ht, Ha, Hu. reflexivity.
  - apply (Hgen ErrInTx); [|now left].
    cbn [perform]. unfold QueryContext. go. now rewrite Hu.
Qed.

(** *** The terminal-state mapping of [executeStatement] *)


(** The dereference [*describeOutput.Error] needs a message: an
    aborted or failed description without one is a nil dereference. *)
Lemma executeStatement_without_message (m : machine W)
    (params : ExecuteStatementInput) (executeOutput : ExecuteStatementOutput)
    (describeOutput : DescribeStatementOutput) (w1 w2 : W) :
  client_ExecuteStatement (set_target (cfg (conn m)) params) (world m)
    = (Ok executeOutput, w1) ->
  client_wait (Id executeOutput) w1 = (Ok describeOutput, w2) ->
  Status describeOutput = StatusStringAborted \/
  Status describeOutput = StatusStringFailed ->
  Error describeOutput = None ->
  fst (executeStatement params m) = Panicked PanicNilDereference.
Proof.
  intros Hexec Hwait Hs He.
  unfold executeStatement. go. rewrite Hexec. cbn. rewrite Hwait. cbn.
  destruct Hs as [-> | ->]; rewrite He; reflexivity.
Qed.

(** The connection itself is not written by [executeStatement]. *)
Lemma executeStatement_frame (m : machine W) (params : ExecuteStatementInput) :
  conn (snd (executeStatement params m)) = conn m /\
  heap (snd (executeStatement params m)) = heap m.
Proof.
  unfold executeStatement. go.
  destruct (client_ExecuteStatement _ _) as [[eo|e] w1]; cbn; [|tauto].
  destruct (client_wait _ _) as [[d|e] w2]; cbn; [|tauto].
  destruct (String.eqb _ _); [destruct (Error d); cbn; tauto|].
  destruct (String.eqb _ _); [destruct (Error d); cbn; tauto|].
  destruct (String.eqb _ _); cbn; [|tauto].
  destruct (HasResultSet d) as [[|]|]; cbn; tauto.
Qed.

(** *** Buffering in a transaction *)

Lemma ExecContext_buffers (m : machine W) (query : string) :
  inTx (conn m) = true ->
  ReadOnly (txOpts (conn m)) = false ->
  ExecContext query [] m =
    (Done (Ok (DelayedResult (S (length (heap m))))),
     mkMachine
       (mkConn (cfg (conn m)) (aliveCh (conn m)) (isClosed (conn m))
          (inTx (conn m)) (txOpts (conn m))
          (sqls (conn m) ++ [query])
          (delayedResult (conn m) ++ [Some (length (heap m))]))
       ((heap m ++ [NilResult]) ++ [NilResult]) (world m) (calls m)).
Proof.
  intros Ht Hro. unfold ExecContext, set_sqls, set_delayedResult. go.
  rewrite Ht, Hro. cbn. rewrite length_app. cbn.
  now replace (length (heap m) + 1)%nat with (S (length (heap m))) by lia.
Qed.

(** The connection after [ExecContext]: as before, or with one more
    statement and one more Delayed Result. *)
Lemma ExecContext_conn (m : machine W) (query : string) (args : list NamedValue) :
  conn (snd (ExecContext query args m)) = conn m \/
  (inTx (conn m) = true /\
   conn (snd (ExecContext query args m)) =
     mkConn (cfg (conn m)) (aliveCh (conn m)) (isClosed (conn m))
       (inTx (conn m)) (txOpts (conn m))
       (sqls (conn m) ++ [query])
       (delayedResult (conn m) ++ [Some (length (heap m))])).
Proof.
  destruct (inTx (conn m)) eqn:Ht.
  - destruct args as [|a args].
    + destruct (ReadOnly (txOpts (conn m))) eqn:Hro.
      * left. unfold ExecContext. go. now rewrite Ht, Hro.
      * right. split; [reflexivity|].
        rewrite ExecContext_buffers by assumption. cbn. now rewrite Ht.
    + left. unfold ExecContext. go. now rewrite Ht.
  - left. unfold ExecContext. go. rewrite Ht.
    pose proof (executeStatement_frame m (exec_params query args)) as [Hc _].
    destruct (executeStatement _ m) as [[[[p d]|e]|pn] m']; cbn in *; exact Hc.
Qed.

Lemma QueryContext_conn (m : machine W) (query : string) (args : list NamedValue) :
  conn (snd (QueryContext query args m)) = conn m.
Proof.
  unfold QueryContext. go.
  destruct (inTx (conn m)); [reflexivity|].
  pose proof (executeStatement_frame m (exec_params query args)) as [Hc _].
  destruct (executeStatement _ m) as [[[[p d]|e]|pn] m']; cbn in *; exact Hc.
Qed.

(** *** The loop of the batched commit *)

Lemma resolve_loop_spec (desc : DescribeStatementOutput) (n : nat) :
  forall (i : nat) (m : machine W),
    (i + n <= length (delayedResult (conn m)))%nat ->
    (i <= length (SubStatements desc))%nat ->
    resolve_loop desc i n m =
      (Done (if (i + n <=? length (SubStatements desc))%nat then None
             else Some (Errorf_d "sub statement not found: %d"
                          (Z.of_nat (length (SubStatements desc))))),
       mkMachine (conn m)
         (write_results (take n (drop i (delayedResult (conn m))))
            (drop i (SubStatements desc)) (heap m))
         (world m) (calls m)).
Proof.
  induction n as [|n IH]; intros i m Hds Hsubs.
  - cbn. destruct (Nat.leb_spec (i + 0) (length (SubStatements desc))); [|lia].
    now destruct m.
  - cbn [resolve_loop].
    destruct (Nat.leb_spec (length (SubStatements desc)) i) as [Hle|Hlt].
    + assert (i = length (SubStatements desc)) as Hi by lia.
      destruct (Nat.leb_spec (i + S n) (length (SubStatements desc))); [lia|].
      unfold ret. rewrite <- Hi. f_equal.
      rewrite (drop_ge (SubStatements desc)) by lia.
      destruct m as [c h w cs]. cbn. f_equal.
      now destruct (take (S n) (drop i (delayedResult c))).
    + destruct (lookup_lt_is_Some_2 (delayedResult (conn m)) i) as [d Hd]; [lia|].
      destruct (lookup_lt_is_Some_2 (SubStatements desc) i) as [st Hst]; [lia|].
      go. rewrite Hd. cbn.
      rewrite (drop_S _ _ _ Hd), (drop_S _ _ _ Hst). cbn [take write_results].
      destruct d as [p|]; cbn; [rewrite Hst; cbn|];
        rewrite IH by (cbn; lia); cbn [conn heap world calls];
        replace (S i + n)%nat with (i + S n)%nat by lia; reflexivity.
Qed.

Lemma write_results_length (ds : list (option ptr)) :
  forall (subs : list SubStatementData) (h : list Result),
    length (write_results ds subs h) = length h.
Proof.
  induction ds as [|d ds IH]; intros [|st subs] h; cbn; try reflexivity.
  rewrite IH. destruct d; [apply length_insert | reflexivity].
Qed.

Lemma write_results_other (ds : list (option ptr)) (p : ptr) :
  forall (subs : list SubStatementData) (h : list Result),
    (forall i, (i < length subs)%nat -> ds !! i <> Some (Some p)) ->
    write_results ds subs h !! p = h !! p.
Proof.
  induction ds as [|d ds IH]; intros [|st subs] h Hno; cbn; try reflexivity.
  rewrite IH.
  - destruct d as [p'|]; [|reflexivity].
    apply list_lookup_insert_ne. intros ->.
    apply (Hno 0%nat); [cbn; lia | reflexivity].
  - intros i Hi. apply (Hno (S i)). cbn. lia.
Qed.

Lemma write_results_resolved (ds : list (option ptr)) (p : ptr) :
  forall (subs : list SubStatementData) (h : list Result) (i : nat)
         (st : SubStatementData),
    ds !! i = Some (Some p) ->
    subs !! i = Some st ->
    (forall j, (i < j)%nat -> (j < length subs)%nat -> ds !! j <> Some (Some p)) ->
    (p < length h)%nat ->
    write_results ds subs h !! p = Some (NewResultWithSubStatementData st).
Proof.
  induction ds as [|d ds IH]; intros [|st0 subs] h i st Hd Hs Hlast Hp;
    try discriminate.
  destruct i as [|i]; cbn in Hd, Hs |- *.
  - injection Hd as ->. injection Hs as ->.
    rewrite write_results_other.
    + now apply list_lookup_insert_eq.
    + intros j Hj. apply (Hlast (S j)); cbn; lia.
  - apply (IH subs _ i st Hd Hs).
    + intros j Hij Hj. apply (Hlast (S j)); cbn; lia.
    + destruct d; [rewrite length_insert|]; exact Hp.
Qed.

Lemma resolve_loop_conn (desc : DescribeStatementOutput) (n : nat) :
  forall (i : nat) (m : machine W),
    conn (snd (resolve_loop desc i n m)) = conn m.
Proof.
  induction n as [|n IH]; intros i m; [reflexivity|].
  cbn [resolve_loop].
  destruct (length (SubStatements desc) <=? i)%nat; [reflexivity|].
  go. destruct (delayedResult (conn m) !! i) as [[p|]|]; cbn;
    [destruct (SubStatements desc !! i); cbn| |]; try reflexivity;
    now rewrite IH.
Qed.

(** *** What an operation does to the transaction buffer *)

Lemma buffer_step_same (c c' : redshiftDataConn) : c' = c -> buffer_step c c'.
Proof. intros ->. left. auto. Qed.

Lemma OnRollback_buffer (m : machine W) :
  buffer_step (conn m) (conn (snd (OnRollback m))).
Proof.
  unfold OnRollback. go. destruct (inTx (conn m)); cbn.
  - right. left. auto.
  - now apply buffer_step_same.
Qed.

Lemma BeginTx_buffer (m : machine W) (opts : TxOptions) :
  buffer_step (conn m) (conn (snd (BeginTx opts m))).
Proof.
  unfold BeginTx. go. destruct (inTx (conn m)); cbn.
  - now apply buffer_step_same.
  - destruct (negb (Isolation opts =? LevelDefault)); cbn.
    + now apply buffer_step_same.
    + left. repeat split. discriminate.
Qed.

Lemma ExecContext_buffer (m : machine W) (q : string) (args : list NamedValue) :
  buffer_step (conn m) (conn (snd (ExecContext q args m))).
Proof.
  destruct (ExecContext_conn m q args) as [Hc | [Ht Hc]]; rewrite Hc.
  - now apply buffer_step_same.
  - right. right. cbn. split; [exact Ht|]. eauto.
Qed.

Lemma OnCommit_buffer (m : machine W) :
  buffer_step (conn m) (conn (snd (OnCommit m))).
Proof.
  unfold OnCommit. unfold bind at 1. unfold get_conn at 1.
  destruct (inTx (conn m)) eqn:Ht; cbn [negb];
    [|now apply buffer_step_same].
  destruct (length (sqls (conn m)) =? 0)%nat.
  { right. left. auto. }
  destruct (length (sqls (conn m)) =? length (delayedResult (conn m)))%nat;
    cbn [negb]; [|now apply buffer_step_same].
  destruct (length (sqls (conn m)) =? 1)%nat.
  - unfold bind at 1. unfold index.
    destruct (sqls (conn m) !! 0%nat) as [sql0|];
      [|now apply buffer_step_same].
    unfold ret at 1. unfold bind at 1.
    pose proof (ExecContext_buffer m sql0 []) as Hb.
    destruct (ExecContext sql0 [] m) as [[[res|e]|pn] m']; cbn [snd] in Hb;
      [|exact Hb|exact Hb].
    go. destruct (delayedResult (conn m') !! 0%nat) as [[p|]|]; exact Hb.
  - unfold BatchExecuteStatement, remote, bind at 1.
    destruct (client_batch (sqls (conn m)) (world m)) as [[desc|e] w'];
      [|now apply buffer_step_same].
    unfold bind at 1.
    match goal with |- context [resolve_loop desc 0 ?n ?m0] =>
      pose proof (resolve_loop_conn desc n 0 m0) as Hc;
      destruct (resolve_loop desc 0 n m0) as [[[e|]|pn] m'] end;
      cbn [snd conn] in Hc.
    + apply buffer_step_same. exact Hc.
    + right. left. auto.
    + apply buffer_step_same. exact Hc.
Qed.

Lemma perform_buffer (o : operation) (m : machine W) :
  buffer_step (conn m) (conn (snd (perform o m))).
Proof.
  destruct o as [q| |opts|q args|q args| |]; cbn [perform].
  - now apply buffer_step_same.
  - destruct (Close_frame m) as (Ht & _ & Hs & Hd & _).
    left. rewrite Hs, Hd, Ht. auto.
  - pose proof (BeginTx_buffer m opts) as Hb. unfold errors, bind.
    destruct (BeginTx opts m) as [[r|pn] m']; exact Hb.
  - pose proof (ExecContext_buffer m q args) as Hb. unfold errors, bind.
    destruct (ExecContext q args m) as [[r|pn] m']; exact Hb.
  - pose proof (QueryContext_conn m q args) as Hb. unfold errors, bind.
    destruct (QueryContext q args m) as [[r|pn] m'];
      apply buffer_step_same; exact Hb.
  - apply OnCommit_buffer.
  - apply OnRollback_buffer.
Qed.

(** The invariant of the reachable states: the two buffers have the
    same length, and they are empty outside a transaction. *)
Lemma reachable_buffers (m : machine W) :
  reachable m ->
  length (sqls (conn m)) = length (delayedResult (conn m)) /\
  (inTx (conn m) = false -> sqls (conn m) = [] /\ delayedResult (conn m) = []).
Proof.
  induction 1 as [client config | m o Hr [IHl IHe]].
  - cbn. auto.
  - destruct (perform_buffer o m) as [(Hs & Hd & Ht) | [(Hs & Hd) | (Ht & q & p & Hs & Hd)]];
      rewrite Hs, Hd.
    + split; [exact IHl | auto].
    + auto.
    + split; [rewrite !length_app; cbn; lia | congruence].
Qed.

(** *** The mismatch panic *)

Lemma executeStatement_no_mismatch (m : machine W) (params : ExecuteStatementInput)
    (a b : nat) :
  fst (executeStatement params m) <> Panicked (PanicLengths a b).
Proof.
  unfold executeStatement. go.
  destruct (client_ExecuteStatement _ _) as [[eo|e] w1]; cbn; [|discriminate].
  destruct (client_wait _ _) as [[d|e] w2]; cbn; [|discriminate].
  destruct (String.eqb _ _); [destruct (Error d); cbn; discriminate|].
  destruct (String.eqb _ _); [destruct (Error d); cbn; discriminate|].
  destruct (String.eqb _ _); cbn; [|discriminate].
  destruct (HasResultSet d) as [[|]|]; cbn; discriminate.
Qed.

Lemma ExecContext_no_mismatch (m : machine W) (q : string)
    (args : list NamedValue) (a b : nat) :
  fst (ExecContext q args m) <> Panicked (PanicLengths a b).
Proof.
  unfold ExecContext. unfold bind at 1. unfold get_conn at 1.
  destruct (inTx (conn m)).
  - destruct (0 <? length args)%nat; [discriminate|].
    destruct (ReadOnly (txOpts (conn m))); discriminate.
  - unfold bind.
    pose proof (executeStatement_no_mismatch m (exec_params q args) a b) as Hn.
    destruct (executeStatement _ m) as [[[[p d]|e]|pn] m']; cbn in *;
      (discriminate || congruence).
Qed.

Lemma QueryContext_no_mismatch (m : machine W) (q : string)
    (args : list NamedValue) (a b : nat) :
  fst (QueryContext q args m) <> Panicked (PanicLengths a b).
Proof.
  unfold QueryContext. unfold bind at 1. unfold get_conn at 1.
  destruct (inTx (conn m)); [discriminate|].
  unfold bind.
  pose proof (executeStatement_no_mismatch m (exec_params q args) a b) as Hn.
  destruct (executeStatement _ m) as [[[[p d]|e]|pn] m']; cbn in *;
    (discriminate || congruence).
Qed.

Lemma resolve_loop_no_mismatch (desc : DescribeStatementOutput) (n : nat) (a b : nat) :
  forall (i : nat) (m : machine W),
    fst (resolve_loop desc i n m) <> Panicked (PanicLengths a b).
Proof.
  induction n as [|n IH]; intros i m; [discriminate|].
  cbn [resolve_loop].
  destruct (length (SubStatements desc) <=? i)%nat; [discriminate|].
  go. destruct (delayedResult (conn m) !! i) as [[p|]|]; cbn;
    [destruct (SubStatements desc !! i); cbn| |];
    try discriminate; apply IH.
Qed.

(** The explicit panic of [OnCommit] needs buffers of different lengths. *)
Lemma OnCommit_mismatch (m : machine W) (a b : nat) :
  fst (OnCommit m) = Panicked (PanicLengths a b) ->
  length (sqls (conn m)) <> length (delayedResult (conn m)).
Proof.
  unfold OnCommit. unfold bind at 1. unfold get_conn at 1.
  destruct (inTx (conn m)) eqn:Ht; cbn [negb]; [|discriminate].
  destruct (length (sqls (conn m)) =? 0)%nat; [discriminate|].
  destruct (Nat.eqb_spec (length (sqls (conn m)))
              (length (delayedResult (conn m)))) as [Heq|Hne];
    cbn [negb]; [|auto].
  intros Hp. exfalso. revert Hp.
  destruct (length (sqls (conn m)) =? 1)%nat.
  - unfold bind at 1. unfold index.
    destruct (sqls (conn m) !! 0%nat) as [sql0|]; [|discriminate].
    unfold ret at 1. unfold bind at 1.
    pose proof (ExecContext_no_mismatch m sql0 [] a b) as Hn.
    destruct (ExecContext sql0 [] m) as [[[res|e]|pn] m']; cbn [fst] in Hn;
      [|discriminate|cbn; congruence].
    go. destruct (delayedResult (conn m') !! 0%nat) as [[p|]|]; discriminate.
  - unfold BatchExecuteStatement, remote, bind at 1.
    destruct (client_batch (sqls (conn m)) (world m)) as [[desc|e] w'];
      [|discriminate].
    unfold bind at 1.
    match goal with |- context [resolve_loop desc 0 ?n ?m0] =>
      pose proof (resolve_loop_no_mismatch desc n a b 0 m0) as Hn;
      destruct (resolve_loop desc 0 n m0) as [[[e|]|pn] m'] end;
      cbn [fst] in Hn |- *; (discriminate || congruence).
Qed.

Lemma perform_mismatch (o : operation) (m : machine W) (a b : nat) :
  fst (perform o m) = Panicked (PanicLengths a b) ->
  length (sqls (conn m)) <> length (delayedResult (conn m)).
Proof.
  destruct o as [q| |opts|q args|q args| |]; cbn [perform].
  - discriminate.
  - unfold Close. go. destruct (isClosed (conn m)); [discriminate|].
    cbn. destruct (aliveCh (conn m)); discriminate.
  - unfold errors, BeginTx. go. destruct (inTx (conn m)); [discriminate|].
    destruct (negb _); discriminate.
  - pose proof (ExecContext_no_mismatch m q args a b) as Hn.
    unfold errors, bind.
    destruct (ExecContext q args m) as [[r|pn] m']; cbn [fst] in *;
      [discriminate | congruence].
  - pose proof (QueryContext_no_mismatch m q args a b) as Hn.
    unfold errors, bind.
    destruct (QueryContext q args m) as [[r|pn] m']; cbn [fst] in *;
      [discriminate | congruence].
  - apply OnCommit_mismatch.
  - unfold OnRollback. go. destruct (inTx (conn m)); discriminate.
Qed.

(** C8. In every state reached from a new connection by prepare,
    close, begin, exec, query, commit and rollback, the buffered
    statements and the buffered Delayed Results have the same length,
    and no operation performed there ends in the panic of the
    commit-time mismatch check. *)
Theorem reachable_buffers_aligned (m : machine W) :
  reachable m ->
  length (sqls (conn m)) = length (delayedResult (conn m)) /\
  forall o a b, fst (perform o m) <> Panicked (PanicLengths a b).
Proof.
  intros Hr. destruct (reachable_buffers m Hr) as [Hl _].
  split; [exact Hl|].
  intros o a b Hp. now apply (perform_mismatch o m a b Hp).
Qed.

(** The check does fire when the lengths differ: it is not dead code
    of the model. *)
Lemma OnCommit_mismatch_fires (m : machine W) :
  inTx (conn m) = true ->
  sqls (conn m) <> [] ->
  length (sqls (conn m)) <> length (delayedResult (conn m)) ->
  fst (OnCommit m)
  = Panicked (PanicLengths (length (sqls (conn m)))
                (length (delayedResult (conn m)))).
Proof.
  intros Ht Hs Hne. unfold OnCommit. go. rewrite Ht. cbn [negb].
  assert ((length (sqls (conn m)) =? 0)%nat = false) as ->.
  { destruct (sqls (conn m)); [congruence | reflexivity]. }
  apply Nat.eqb_neq in Hne. now rewrite Hne.
Qed.

(** *** The batched commit *)

Lemma OnCommit_batch (m : machine W) (desc : DescribeStatementOutput) (w' : W) :
  inTx (conn m) = true ->
  (2 <= length (sqls (conn m)))%nat ->
  length (sqls (conn m)) = length (delayedResult (conn m)) ->
  client_batch (sqls (conn m)) (world m) = (Ok desc, w') ->
  OnCommit m =
    let m1 :=
      mkMachine (conn m)
        (write_results (delayedResult (conn m)) (SubStatements desc) (heap m))
        w' (calls m ++ [CallBatchExecuteStatement (sqls (conn m))]) in
    if (length (sqls (conn m)) <=? length (SubStatements desc))%nat
    then cleanup m1
    else (Done (Some (Errorf_d "sub statement not found: %d"
                        (Z.of_nat (length (SubStatements desc))))), m1).
Proof.
  intros Ht Hn Hl Hb.
  unfold OnCommit. unfold bind at 1. unfold get_conn at 1. rewrite Ht.
  cbn [negb].
  destruct (Nat.eqb_spec (length (sqls (conn m))) 0); [lia|].
  rewrite <- Hl, Nat.eqb_refl. cbn [negb].
  destruct (Nat.eqb_spec (length (sqls (conn m))) 1); [lia|].
  unfold BatchExecuteStatement, remote, bind at 1. rewrite Hb.
  unfold bind at 1.
  rewrite resolve_loop_spec by (cbn; lia).
  cbn [conn heap world calls]. rewrite drop_0, drop_0, Hl, firstn_all.
  cbn zeta. rewrite <- Hl.
  destruct (0 + length (sqls (conn m)) <=? length (SubStatements desc))%nat eqn:Hk;
    cbn [Nat.add] in Hk; rewrite Hk; reflexivity.
Qed.

(** C3 (amended). When a commit of two or more buffered statements
    gets a batch response that enumerates fewer sub-statements than
    were submitted, it returns the error "sub statement not found"
    with the number of enumerated sub-statements; the connection is
    left as it was, in the transaction and with both buffers; the
    Delayed Results below that number have been resolved, each with
    the row count of its sub-statement, and every other Delayed Result
    is untouched. *)
Theorem commit_short_batch_response (m : machine W)
    (desc : DescribeStatementOutput) (w' : W) :
  inTx (conn m) = true ->
  (2 <= length (sqls (conn m)))%nat ->
  length (sqls (conn m)) = length (delayedResult (conn m)) ->
  client_batch (sqls (conn m)) (world m) = (Ok desc, w') ->
  (length (SubStatements desc) < length (sqls (conn m)))%nat ->
  fst (OnCommit m)
  = Done (Some (Errorf_d "sub statement not found: %d"
                  (Z.of_nat (length (SubStatements desc))))) /\
  conn (snd (OnCommit m)) = conn m /\
  calls (snd (OnCommit m))
  = calls m ++ [CallBatchExecuteStatement (sqls (conn m))] /\
  (forall i p st,
      delayedResult (conn m) !! i = Some (Some p) ->
      SubStatements desc !! i = Some st ->
      (forall j, (i < j)%nat -> (j < length (SubStatements desc))%nat ->
                 delayedResult (conn m) !! j <> Some (Some p)) ->
      (p < length (heap m))%nat ->
      heap (snd (OnCommit m)) !! p
      = Some (RedshiftDataResult (sub_ResultRows st))) /\
  (forall p,
      (forall i, (i < length (SubStatements desc))%nat ->
                 delayedResult (conn m) !! i <> Some (Some p)) ->
      heap (snd (OnCommit m)) !! p = heap m !! p).
Proof.
  intros Ht Hn Hl Hb Hk.
  rewrite (OnCommit_batch m desc w' Ht Hn Hl Hb). cbn zeta.
  destruct (Nat.leb_spec (length (sqls (conn m))) (length (SubStatements desc)));
    [lia|].
  cbn [fst snd conn heap calls]. repeat split.
  - intros i p st Hd Hs Hlast Hp.
    now apply (write_results_resolved _ p _ _ i st).
  - intros p Hno. now apply write_results_other.
Qed.

(** With a descriptor for every statement the batched commit resolves
    every Delayed Result and leaves the transaction. *)
Lemma commit_full_batch_response (m : machine W)
    (desc : DescribeStatementOutput) (w' : W) :
  inTx (conn m) = true ->
  (2 <= length (sqls (conn m)))%nat ->
  length (sqls (conn m)) = length (delayedResult (conn m)) ->
  client_batch (sqls (conn m)) (world m) = (Ok desc, w') ->
  (length (sqls (conn m)) <= length (SubStatements desc))%nat ->
  fst (OnCommit m) = Done None /\
  inTx (conn (snd (OnCommit m))) = false /\
  sqls (conn (snd (OnCommit m))) = [] /\
  delayedResult (conn (snd (OnCommit m))) = [] /\
  heap (snd (OnCommit m))
  = write_results (delayedResult (conn m)) (SubStatements desc) (heap m).
Proof.
  intros Ht Hn Hl Hb Hk.
  rewrite (OnCommit_batch m desc w' Ht Hn Hl Hb). cbn zeta.
  destruct (Nat.leb_spec (length (sqls (conn m))) (length (SubStatements desc)));
    [|lia].
  go. cbn. auto.
Qed.

(** *** Begin *)

Lemma BeginTx_in_transaction (m : machine W) (opts : TxOptions) :
  inTx (conn m) = true -> BeginTx opts m = (Done (Err ErrInTx), m).
Proof. intros Ht. unfold BeginTx. go. now rewrite Ht. Qed.

Lemma BeginTx_isolation (m : machine W) (opts : TxOptions) :
  inTx (conn m) = false -> Isolation opts <> LevelDefault ->
  BeginTx opts m
  = (Done (Err (Errorf_w "isolation level %w" ErrNotSupported)), m).
Proof.
  intros Ht Hi. unfold BeginTx. go. rewrite Ht.
  apply Z.eqb_neq in Hi. now rewrite Hi.
Qed.

Lemma BeginTx_success (m : machine W) (opts : TxOptions) :
  inTx (conn m) = false -> Isolation opts = LevelDefault ->
  BeginTx opts m
  = (Done (Ok {| tx_OnCommit := OnCommit; tx_OnRollback := OnRollback |}),
     mkMachine (set_tx (conn m) true opts) (heap m) (world m) (calls m)).
Proof. intros Ht Hi. unfold BeginTx. go. now rewrite Ht, Hi. Qed.

(** C6. On every connection reached from a new one through its
    operations: begin fails with ErrInTx when a transaction is active,
    whatever the options; with no transaction active it fails with the
    isolation-not-supported error when the options ask for another
    isolation level than the default; otherwise it succeeds, and the
    connection is then in a transaction with the options recorded, no
    buffered statement and no buffered Delayed Result. A failed begin
    changes nothing; a successful one writes nothing else and does not
    contact the remote service. *)
Theorem BeginTx_outcomes (m : machine W) (opts : TxOptions) :
  reachable m ->
  (inTx (conn m) = true -> BeginTx opts m = (Done (Err ErrInTx), m)) /\
  (inTx (conn m) = false -> Isolation opts <> LevelDefault ->
   BeginTx opts m
   = (Done (Err (Errorf_w "isolation level %w" ErrNotSupported)), m)) /\
  (inTx (conn m) = false -> Isolation opts = LevelDefault ->
   fst (BeginTx opts m)
   = Done (Ok {| tx_OnCommit := OnCommit; tx_OnRollback := OnRollback |}) /\
   inTx (conn (snd (BeginTx opts m))) = true /\
   txOpts (conn (snd (BeginTx opts m))) = opts /\
   sqls (conn (snd (BeginTx opts m))) = [] /\
   delayedResult (conn (snd (BeginTx opts m))) = [] /\
   cfg (conn (snd (BeginTx opts m))) = cfg (conn m) /\
   isClosed (conn (snd (BeginTx opts m))) = isClosed (conn m) /\
   aliveCh (conn (snd (BeginTx opts m))) = aliveCh (conn m) /\
   heap (snd (BeginTx opts m)) = heap m /\
   world (snd (BeginTx opts m)) = world m /\
   calls (snd (BeginTx opts m)) = calls m).
Proof.
  intros Hr.
  split; [apply BeginTx_in_transaction|].
  split; [apply BeginTx_isolation|].
  intros Ht Hi. rewrite (BeginTx_success m opts Ht Hi). cbn.
  destruct (reachable_buffers m Hr) as [_ He].
  destruct (He Ht) as [Hs Hd].
  repeat (split; [reflexivity || assumption|]). reflexivity.
Qed.

(** A second begin fails, and so does every later one, until a commit
    or a rollback leaves the transaction. *)
Lemma BeginTx_twice (m : machine W) (opts opts' : TxOptions) :
  inTx (conn m) = false -> Isolation opts = LevelDefault ->
  fst (BeginTx opts' (snd (BeginTx opts m))) = Done (Err ErrInTx) /\
  snd (BeginTx opts' (snd (BeginTx opts m))) = snd (BeginTx opts m).
Proof.
  intros Ht Hi. rewrite (BeginTx_success m opts Ht Hi). cbn [snd].
  now rewrite BeginTx_in_transaction.
Qed.

Lemma reachable_run (os : list operation) :
  forall m : machine W, reachable m -> reachable (run os m).
Proof.
  induction os as [|o os IH]; intros m Hr; [exact Hr|].
  cbn. apply IH. now constructor.
Defined.

(** *** The commit of a single buffered statement *)

(** [OnCommit] calls [ExecContext] while [inTx] is still set: the
    statement is buffered a second time, nothing is sent, and the
    first Delayed Result receives the fresh, empty Delayed Result
    that [ExecContext] returns. *)
Lemma OnCommit_single (m : machine W) (query : string) (p : ptr) :
  inTx (conn m) = true ->
  ReadOnly (txOpts (conn m)) = false ->
  sqls (conn m) = [query] ->
  delayedResult (conn m) = [Some p] ->
  OnCommit m =
    (Done None,
     mkMachine
       (mkConn (cfg (conn m)) (aliveCh (conn m)) (isClosed (conn m))
          true (txOpts (conn m)) [query; query]
          [Some p; Some (length (heap m))])
       (<[p := DelayedResult (S (length (heap m)))]>
          ((heap m ++ [NilResult]) ++ [NilResult]))
       (world m) (calls m)).
Proof.
  intros Ht Hro Hs Hd.
  unfold OnCommit. unfold bind at 1. unfold get_conn at 1.
  rewrite Ht, Hs, Hd. cbn [negb length Nat.eqb].
  unfold bind at 1. unfold index at 1. cbn [lookup list_lookup]. unfold ret at 1.
  unfold bind at 1. rewrite ExecContext_buffers by assumption.
  go. rewrite Hs, Hd, Ht. reflexivity.
Qed.

(** C1. The code at the failing input: on a new connection, begin,
    exec of one statement, commit. The commit returns no error, makes
    no call to the remote service, leaves the connection in the
    transaction with the statement buffered twice, and stores in the
    first buffered Delayed Result an unresolved Delayed Result instead
    of an affected-row count. *)
Theorem commit_single_statement_stays_buffered
    (client : W) (config : RedshiftDataConfig) (query : string) :
  let m := run [OpBegin default_options; OpExec query []]
             (NewConnection client config) in
  sqls (conn m) = [query] /\
  delayedResult (conn m) = [Some 0%nat] /\
  fst (OnCommit m) = Done None /\
  calls (snd (OnCommit m)) = [] /\
  inTx (conn (snd (OnCommit m))) = true /\
  sqls (conn (snd (OnCommit m))) = [query; query] /\
  delayedResult (conn (snd (OnCommit m))) = [Some 0%nat; Some 2%nat] /\
  heap (snd (OnCommit m))
  = [DelayedResult 3%nat; NilResult; NilResult; NilResult].
Proof.
  cbv zeta.
  assert (Hm : run [OpBegin default_options; OpExec query []]
                 (NewConnection client config)
               = mkMachine
                   (mkConn config ChanOpen false true default_options
                      [query] [Some 0%nat])
                   [NilResult; NilResult] client []) by reflexivity.
  rewrite Hm.
  rewrite (OnCommit_single _ query 0%nat) by reflexivity.
  cbn. repeat split.
Qed.

End ConnectionProperties.

(** ** The properties at work on a concrete remote service *)

Section Examples.

#[local] Existing Instance canned_client.

(** C2. The code at the failing input: begin, two execs, commit, on a
    service that answers the batch with one descriptor per statement
    (5 and 6 rows). Each exec buffers its statement and a fresh
    Delayed Result (objects 0 and 2) but returns another fresh object
    (1 and 3); the commit resolves the buffered objects, and the
    objects the caller holds stay empty. *)
Theorem exec_returns_an_object_that_is_not_buffered :
  let m1 := run [OpBegin default_options]
              (NewConnection (finished [mkSubStatementData 5; mkSubStatementData 6])
                 no_config) in
  let r1 := ExecContext "INSERT INTO t VALUES (1)" [] m1 in
  let r2 := ExecContext "INSERT INTO t VALUES (2)" [] (snd r1) in
  let r3 := OnCommit (snd r2) in
  fst r1 = Done (Ok (DelayedResult 1%nat)) /\
  sqls (conn (snd r1)) = ["INSERT INTO t VALUES (1)"%string] /\
  delayedResult (conn (snd r1)) = [Some 0%nat] /\
  heap (snd r1) = [NilResult; NilResult] /\
  fst r2 = Done (Ok (DelayedResult 3%nat)) /\
  delayedResult (conn (snd r2)) = [Some 0%nat; Some 2%nat] /\
  fst r3 = Done None /\
  inTx (conn (snd r3)) = false /\
  heap (snd r3)
  = [RedshiftDataResult 5; NilResult; RedshiftDataResult 6; NilResult].
Proof. vm_compute. repeat split. Qed.

Lemma commit_short_batch_response_witness :
  let d := finished [mkSubStatementData 5] in
  let m := run [OpBegin default_options; OpExec "a" []; OpExec "b" []]
             (NewConnection d no_config) in
  fst (OnCommit m)
  = Done (Some (Errorf_d "sub statement not found: %d" 1)) /\
  conn (snd (OnCommit m)) = conn m /\
  heap (snd (OnCommit m)) !! 0%nat = Some (RedshiftDataResult 5) /\
  heap (snd (OnCommit m)) !! 2%nat = heap m !! 2%nat.
Proof.
  cbv zeta.
  set (d := finished [mkSubStatementData 5]).
  set (m := run _ _).
  destruct (commit_short_batch_response m d d) as (Hf & Hc & _ & Hres & Hoth).
  - reflexivity.
  - vm_compute. lia.
  - reflexivity.
  - reflexivity.
  - vm_compute. lia.
  - split; [exact Hf|]. split; [exact Hc|]. split.
    + apply (Hres 0%nat 0%nat (mkSubStatementData 5)).
      * reflexivity.
      * reflexivity.
      * intros j Hj Hlt. vm_compute in Hlt. lia.
      * vm_compute. lia.
    + apply Hoth. intros i Hi. vm_compute in Hi.
      assert (i = 0%nat) as -> by lia. vm_compute. discriminate.
Defined.

(** C3, as stated, fails: two statements are buffered and the batch
    response enumerates one sub-statement. The commit returns the
    indexing error, yet the first Delayed Result, empty before, is
    resolved to 5 rows while the second is not; and the connection is
    still in the transaction, with both statements buffered. *)
Lemma commit_short_batch_resolves_a_prefix :
  let d := finished [mkSubStatementData 5] in
  let m := run [OpBegin default_options; OpExec "a" []; OpExec "b" []]
             (NewConnection d no_config) in
  delayedResult (conn m) = [Some 0%nat; Some 2%nat] /\
  heap m !! 0%nat = Some NilResult /\
  fst (OnCommit m)
  = Done (Some (Errorf_d "sub statement not found: %d" 1)) /\
  heap (snd (OnCommit m)) !! 0%nat = Some (RedshiftDataResult 5) /\
  heap (snd (OnCommit m)) !! 2%nat = Some NilResult /\
  inTx (conn (snd (OnCommit m))) = true /\
  sqls (conn (snd (OnCommit m))) = ["a"; "b"]%string.
Proof. vm_compute. repeat split. Qed.

Lemma BeginTx_outcomes_witness :
  let m := run [OpBegin default_options; OpExec "DELETE FROM t" []; OpRollback]
             (NewConnection (finished []) no_config) in
  reachable m /\
  inTx (conn m) = false /\
  Isolation default_options = LevelDefault /\
  inTx (conn (snd (BeginTx default_options m))) = true /\
  txOpts (conn (snd (BeginTx default_options m))) = default_options /\
  sqls (conn (snd (BeginTx default_options m))) = [] /\
  delayedResult (conn (snd (BeginTx default_options m))) = [].
Proof.
  cbv zeta.
  assert (Hr : reachable
                 (run [OpBegin default_options; OpExec "DELETE FROM t" [];
                       OpRollback]
                    (NewConnection (finished []) no_config)))
    by (apply reachable_run; constructor).
  split; [exact Hr|]. split; [reflexivity|]. split; [reflexivity|].
  destruct (BeginTx_outcomes _ default_options Hr) as (_ & _ & Hok).
  destruct (Hok eq_refl eq_refl) as (_ & Ht & Ho & Hs & Hd & _).
  split; [exact Ht|]. split; [exact Ho|]. split; [exact Hs | exact Hd].
Defined.

(** The transaction test comes first: in a transaction, a begin that
    asks for another isolation level than the default fails with
    ErrInTx. *)
Example begin_in_transaction_with_isolation :
  let m := run [OpBegin default_options]
             (NewConnection (finished []) no_config) in
  let serializable := {| Isolation := 6; ReadOnly := false |} in
  inTx (conn m) = true /\
  Isolation serializable <> LevelDefault /\
  perform (OpBegin serializable) m = (Done (Some ErrInTx), m).
Proof. vm_compute. repeat split. discriminate. Qed.

Lemma unsupported_rejected_locally_witness :
  let m := run [OpBegin default_options]
             (NewConnection (finished []) no_config) in
  let o := OpExec "INSERT INTO t VALUES (?)"
             [{| Name := EmptyString; Ordinal := 1; Value := "7" |}] in
  capability_unsupported (conn m) o = true /\
  exists e,
    perform o m = (Done (Some e), m) /\
    (e = ErrInTx \/ exists format, e = Errorf_w format ErrNotSupported) /\
    calls (snd (perform o m)) = calls m /\
    world (snd (perform o m)) = world m.
Proof.
  cbv zeta. split; [reflexivity|].
  apply (unsupported_rejected_locally
           (run [OpBegin default_options]
              (NewConnection (finished []) no_config))).
  reflexivity.
Defined.

Lemma reachable_buffers_aligned_witness :
  let m := run [OpBegin default_options; OpExec "a" []; OpExec "b" [];
                OpQuery "SELECT 1" []; OpClose]
             (NewConnection (finished []) no_config) in
  reachable m /\
  length (sqls (conn m)) = length (delayedResult (conn m)) /\
  forall o a b, fst (perform o m) <> Panicked (PanicLengths a b).
Proof.
  cbv zeta.
  assert (Hr : reachable
                 (run [OpBegin default_options; OpExec "a" []; OpExec "b" [];
                       OpQuery "SELECT 1" []; OpClose]
                    (NewConnection (finished []) no_config))).
  { apply reachable_run. constructor. }
  split; [exact Hr|].
  apply reachable_buffers_aligned. exact Hr.
Defined.



(** The three other branches of the mapping, on the same service. *)
Example executeStatement_failed :
  fst (executeStatement (exec_params "DELETE FROM t" [])
         (NewConnection (description StatusStringFailed (Some "syntax error"%string) 0 [])
            no_config))
  = Done (Err (Errorf_s "query failed: %s" "syntax error")).
Proof. reflexivity. Qed.

Example executeStatement_started :
  fst (executeStatement (exec_params "DELETE FROM t" [])
         (NewConnection (description "STARTED" None 0 []) no_config))
  = Done (Err (Errorf_s "query status is not finished: %s" "STARTED")).
Proof. reflexivity. Qed.

Example ExecContext_finished :
  fst (ExecContext "DELETE FROM t" []
         (NewConnection (description StatusStringFinished None 4 []) no_config))
  = Done (Ok (RedshiftDataResult 4)).
Proof. reflexivity. Qed.

(** Rollback discards the buffer: the next transaction does not see
    the statements of the previous one. *)
Example rollback_discards :
  let m := run [OpBegin default_options; OpExec "a" []; OpExec "b" [];
                OpRollback; OpBegin default_options]
             (NewConnection (finished []) no_config) in
  inTx (conn m) = true /\ sqls (conn m) = [] /\ delayedResult (conn m) = [] /\
  calls m = [].
Proof. vm_compute. repeat split. Qed.

(** The commit of an empty transaction makes no remote call. *)
Example commit_empty :
  let m := run [OpBegin default_options]
             (NewConnection (finished []) no_config) in
  OnCommit m = (Done None, NewConnection (finished []) no_config).
Proof. reflexivity. Qed.

End Examples.

(** ** [Nullif], [Coalesce] and [convertArgsToParameters] *)

Section Utils.

Lemma Nullif_None (s : string) : Nullif s = None <-> s = EmptyString.
Proof.
unfold Nullif. destruct (String.eqb_spec s EmptyString); split; congruence.
Qed.

Lemma Nullif_Some (s : string) : s <> EmptyString -> Nullif s = Some s.
Proof.
intros Hs. unfold Nullif. now destruct (String.eqb_spec s EmptyString).
Qed.

Lemma Coalesce_skips_nil (pre rest : list (option string)) :
  Forall (fun o => o = None) pre -> Coalesce (pre ++ rest) = Coalesce rest.
Proof.
induction 1 as [|o pre Ho _ IH]; [reflexivity|]. subst o. exact IH.
Qed.

(** X1. [Coalesce] returns the first entry that is not nil, whatever
    follows it, and the empty string when every entry is nil. *)
Theorem Coalesce_first_non_nil (pre post : list (option string)) (x : string) :
  Forall (fun o => o = None) pre ->
  Coalesce (pre ++ Some x :: post) = x /\ Coalesce pre = EmptyString.
Proof.
intros Hpre. split.
- now rewrite Coalesce_skips_nil.
- rewrite <- (app_nil_r pre). now rewrite Coalesce_skips_nil.
Qed.

Lemma Coalesce_first_non_nil_witness :
  Forall (fun o : option string => o = None) [None; None] /\
  Coalesce ([None; None] ++ Some "a"%string :: [Some "b"%string]) = "a"%string /\
  Coalesce [None; None] = EmptyString.
Proof.
split; [repeat constructor|].
apply (Coalesce_first_non_nil [None; None] [Some "b"%string] "a").
repeat constructor.
Defined.

Lemma Coalesce_Nullif_fallback (s d : string) :
  Coalesce [Nullif s] = s /\
  Coalesce [Nullif s; Some d] = (if String.eqb s EmptyString then d else s).
Proof.
unfold Nullif. destruct (String.eqb_spec s EmptyString) as [->|Hs]; cbn; auto.
Qed.

(** X2. [Nullif] and [Coalesce] are inverse to each other on strings:
    [Coalesce(Nullif(s))] is [s] for every string, the empty one
    included; and with a fallback, [Coalesce(Nullif(s), d)] is [s]
    unless [s] is empty, in which case it is [d]. *)
Theorem Coalesce_Nullif (s d : string) :
  Coalesce [Nullif s] = s /\
  Coalesce [Nullif s; Some d] = (if String.eqb s EmptyString then d else s).
Proof. apply Coalesce_Nullif_fallback. Qed.

(** *** [fmt.Sprintf("%d", _)] *)

Lemma string_of_uint_nonempty (d : Decimal.uint) :
  d <> Decimal.Nil -> NilEmpty.string_of_uint d <> EmptyString.
Proof. destruct d; cbn; congruence. Qed.

Lemma to_int_NilZero (z : Z) :
  NilZero.string_of_int (Z.to_int z) = NilEmpty.string_of_int (Z.to_int z).
Proof.
destruct z as [|p|p]; cbn; [reflexivity| |];
  pose proof (DecimalPos.Unsigned.to_uint_nonnil p) as Hn;
  unfold NilZero.string_of_uint; now destruct (Pos.to_uint p).
Qed.

Lemma Sprintf_d_inj (a b : Z) : Sprintf_d a = Sprintf_d b -> a = b.
Proof.
unfold Sprintf_d. rewrite !to_int_NilZero. intros Heq.
apply DecimalZ.to_int_inj.
pose proof (NilEmpty.isi (Z.to_int a)) as Ha.
pose proof (NilEmpty.isi (Z.to_int b)) as Hb.
rewrite Heq in Ha. congruence.
Qed.

Lemma Sprintf_d_nonempty (z : Z) : Sprintf_d z <> EmptyString.
Proof.
unfold Sprintf_d. rewrite to_int_NilZero.
destruct z as [|p|p]; cbn; try discriminate.
apply string_of_uint_nonempty, DecimalPos.Unsigned.to_uint_nonnil.
Qed.

Lemma convertArgsToParameters_lookup (args : list NamedValue) (i : nat) :
  convertArgsToParameters args !! i =
  (fun arg =>
     {| param_Name :=
          Some (if String.eqb (Name arg) EmptyString
                then Sprintf_d (Ordinal arg) else Name arg);
        param_Value := Some (Value arg) |}) <$> args !! i.
Proof.
unfold convertArgsToParameters. rewrite list_lookup_fmap.
destruct (args !! i) as [arg|]; [|reflexivity]. cbn. do 3 f_equal.
apply Coalesce_Nullif_fallback.
Qed.

(** X3. [convertArgsToParameters] yields one parameter per argument, in
    the order of the arguments; the parameter of an argument carries
    its rendered value and a name that is never nil and never empty:
    the argument's name if it has one, its ordinal in decimal
    otherwise. *)
Theorem convertArgsToParameters_named (args : list NamedValue) :
  length (convertArgsToParameters args) = length args /\
  forall i arg,
    args !! i = Some arg ->
    exists name,
      convertArgsToParameters args !! i
      = Some {| param_Name := Some name; param_Value := Some (Value arg) |} /\
      name <> EmptyString /\
      (Name arg <> EmptyString -> name = Name arg) /\
      (Name arg = EmptyString -> name = Sprintf_d (Ordinal arg)).
Proof.
split; [apply length_map|].
intros i arg Hi. rewrite convertArgsToParameters_lookup, Hi. cbn.
eexists. split; [reflexivity|].
destruct (String.eqb_spec (Name arg) EmptyString) as [He|Hne].
- split; [apply Sprintf_d_nonempty|]. split; [congruence | reflexivity].
- split; [exact Hne|]. split; [reflexivity | congruence].
Qed.

Lemma convertArgsToParameters_named_witness :
  let args := [ {| Name := EmptyString; Ordinal := 1; Value := "7" |};
                {| Name := "id"; Ordinal := 2; Value := "x" |} ] in
  args !! 0%nat = Some {| Name := EmptyString; Ordinal := 1; Value := "7" |} /\
  exists name,
    convertArgsToParameters args !! 0%nat
    = Some {| param_Name := Some name; param_Value := Some "7"%string |} /\
    name <> EmptyString /\
    name = Sprintf_d 1.
Proof.
cbv zeta. split; [reflexivity|].
destruct (convertArgsToParameters_named
            [ {| Name := EmptyString; Ordinal := 1; Value := "7" |};
              {| Name := "id"; Ordinal := 2; Value := "x" |} ]) as [_ Hn].
destruct (Hn 0%nat _ eq_refl) as (name & Hl & Hne & _ & Hord).
exists name. split; [exact Hl|]. split; [exact Hne|]. now apply Hord.
Defined.

(** X4. Two arguments without a name get different parameter names as
    soon as their ordinals differ: the decimal rendering of the ordinal
    is injective. *)
Theorem unnamed_parameters_distinct (args : list NamedValue) (i j : nat)
    (a b : NamedValue) (pa pb : SqlParameter) :
  args !! i = Some a -> args !! j = Some b ->
  Name a = EmptyString -> Name b = EmptyString ->
  Ordinal a <> Ordinal b ->
  convertArgsToParameters args !! i = Some pa ->
  convertArgsToParameters args !! j = Some pb ->
  param_Name pa <> param_Name pb.
Proof.
intros Ha Hb Hna Hnb Hord Hpa Hpb.
rewrite convertArgsToParameters_lookup, Ha in Hpa.
rewrite convertArgsToParameters_lookup, Hb in Hpb.
cbn in Hpa, Hpb. rewrite Hna in Hpa. rewrite Hnb in Hpb. cbn in Hpa, Hpb.
injection Hpa as <-. injection Hpb as <-. cbn.
intros [= Heq]. apply Hord. now apply Sprintf_d_inj.
Qed.

Lemma unnamed_parameters_distinct_witness :
  param_Name {| param_Name := Some "1"%string; param_Value := Some "7"%string |}
  <> param_Name {| param_Name := Some "2"%string; param_Value := Some "8"%string |}.
Proof.
apply (unnamed_parameters_distinct
         [ {| Name := EmptyString; Ordinal := 1; Value := "7" |};
           {| Name := EmptyString; Ordinal := 2; Value := "8" |} ]
         0%nat 1%nat
         {| Name := EmptyString; Ordinal := 1; Value := "7" |}
         {| Name := EmptyString; Ordinal := 2; Value := "8" |});
  (reflexivity || (cbn; lia)).
Defined.

End Utils.

(** ** More on the query rewriter *)

Section RewriterExtras.

Implicit Types (p q rest : list rune) (r : rune) (st : rewriter).

Lemma Forall_removelast {A} (P : A -> Prop) (l : list A) :
  Forall P l -> Forall P (removelast l).
Proof.
induction 1 as [|a l Ha Hl IH]; [constructor|].
destruct l; [constructor|]. cbn [removelast]. constructor; assumption.
Qed.

(** The quote stack holds quote characters only. *)
Lemma stack_holds_quotes q :
  Forall (fun r => is_quote r = true) (stack (scan q)).
Proof.
induction q as [|r q IH] using rev_ind; [constructor|].
rewrite scan_snoc.
destruct (stack (scan q)) as [|top tl] eqn:Hst.
- rewrite rewrite_step_outside by assumption.
  destruct (r =? question_mark); [constructor|].
  destruct (r =? dollar); [constructor|]. cbn.
  destruct (is_quote r) eqn:Hq; repeat constructor. exact Hq.
- destruct (rewrite_step_inside (scan q) r) as (_ & _ & Hs); [congruence|].
  rewrite Hs, Hst.
  destruct (r =? List.last (top :: tl) 0).
  + now apply Forall_removelast.
  + destruct (is_quote r) eqn:Hq; [|exact IH].
    apply Forall_app. split; [exact IH|]. repeat constructor. exact Hq.
Qed.

Lemma last_in_stack (l : list Z) (d : Z) : l <> [] -> In (List.last l d) l.
Proof.
induction l as [|a [|b l] IH]; [congruence| |]; intros _.
- now left.
- right. apply IH. discriminate.
Qed.

(** Inside an open quote, runes that are not quote characters are
    copied and leave the stack alone. *)
Lemma fold_inside_quote rest :
  forall st,
    stack st <> [] ->
    Forall (fun r => is_quote r = true) (stack st) ->
    Forall (fun r => is_quote r = false) rest ->
    fold_left rewrite_step rest st =
      {| runes := runes st ++ rest; stack := stack st;
         exclamationCount := exclamationCount st |}.
Proof.
induction rest as [|r rest IH]; intros st Hne Hq Hrest.
- cbn. rewrite app_nil_r. now destruct st.
- inversion Hrest as [|? ? Hr Hrest']; subst. cbn [fold_left].
  destruct (rewrite_step_inside st r Hne) as (Hru & Hc & Hs).
  assert (Hlast : (r =? List.last (stack st) 0) = false).
  { apply Z.eqb_neq. intros ->.
    pose proof (last_in_stack (stack st) 0 Hne) as Hin.
    rewrite List.Forall_forall in Hq. specialize (Hq _ Hin). congruence. }
  rewrite Hlast, Hr in Hs.
  rewrite IH; rewrite ?Hs, ?Hru, ?Hc; try assumption.
  now rewrite <- app_assoc.
Qed.

(** Outside quotes, runes that are neither placeholders nor quote
    characters are copied and leave the stack empty. *)
Lemma fold_outside_plain rest :
  forall st,
    stack st = [] ->
    Forall (fun r => is_placeholder r = false /\ is_quote r = false) rest ->
    fold_left rewrite_step rest st =
      {| runes := runes st ++ rest; stack := [];
         exclamationCount := exclamationCount st |}.
Proof.
induction rest as [|r rest IH]; intros st He Hrest.
- cbn. rewrite app_nil_r. destruct st; cbn in *; now subst.
- inversion Hrest as [|? ? [Hp Hq] Hrest']; subst. cbn [fold_left].
  rewrite rewrite_step_outside by assumption.
  unfold is_placeholder in Hp. apply orb_false_iff in Hp as [-> ->].
  rewrite Hq, IH by (cbn; auto). cbn. now rewrite <- app_assoc.
Qed.

Lemma uint_runes (d : Decimal.uint) :
  Forall (fun r => 48 <= r <= 57)
    (map rune_of_ascii (list_ascii_of_string (NilEmpty.string_of_uint d))).
Proof.
induction d; cbn; constructor; try assumption; vm_compute; split; discriminate.
Qed.

(** A marker is a colon followed by decimal digits, or by a minus sign
    and decimal digits. *)
Lemma marker_runes (n : Z) : Forall (fun r => 45 <= r <= 58) (marker n).
Proof.
unfold marker, Sprintf_d. rewrite to_int_NilZero.
constructor; [vm_compute; split; discriminate|].
assert (Hd : forall d, Forall (fun r => 45 <= r <= 58)
           (map rune_of_ascii (list_ascii_of_string (NilEmpty.string_of_uint d)))).
{ intros d. eapply List.Forall_impl; [|apply uint_runes]. cbn. intros; lia. }
destruct n as [|z|z]; cbn; [repeat constructor; vm_compute; discriminate | apply Hd |].
constructor; [vm_compute; split; discriminate | apply Hd].
Qed.

Lemma marker_plain (n : Z) :
  Forall (fun r => is_placeholder r = false /\ is_quote r = false) (marker n).
Proof.
eapply List.Forall_impl; [|apply marker_runes]. cbn. intros r Hr.
unfold is_placeholder, is_quote, question_mark, dollar, single_quote,
  double_quote, rune_of_ascii, byte_of_ascii. cbn.
split; apply orb_false_iff; split; apply Z.eqb_neq; lia.
Qed.

(** A query that holds neither [?] nor [$] comes out of the loop as it
    went in, whatever quotes it holds, balanced or not. *)
Lemma rewrite_runes_without_placeholders q :
  Forall (fun r => is_placeholder r = false) q -> rewrite_runes q = q.
Proof.
unfold rewrite_runes.
induction q as [|r q IH] using rev_ind; intros Hq; [reflexivity|].
apply Forall_app in Hq as [Hq Hr]. inversion Hr as [|? ? Hp _]; subst.
rewrite scan_snoc.
destruct (stack (scan q)) as [|top tl] eqn:Hst.
- rewrite rewrite_step_outside by assumption.
  unfold is_placeholder in Hp. apply orb_false_iff in Hp as [-> ->].
  cbn. now rewrite IH.
- destruct (rewrite_step_inside (scan q) r) as (Hru & _); [congruence|].
  now rewrite Hru, IH.
Qed.

(** X6. Once a quote is open, nothing is rewritten until the next quote
    character: if the scan of [p] ends inside a quote and [rest] holds
    no quote character, the output for [p ++ rest] is the output for
    [p] followed by [rest] as it is, placeholders included, and the
    quote is still open. In particular an unclosed quote turns off the
    rewriting of the remainder of the query. *)
Theorem open_quote_freezes_rewriting p rest :
  stack (scan p) <> [] ->
  Forall (fun r => is_quote r = false) rest ->
  rewrite_runes (p ++ rest) = rewrite_runes p ++ rest /\
  stack (scan (p ++ rest)) = stack (scan p).
Proof.
intros Hne Hrest. unfold rewrite_runes. rewrite scan_app.
rewrite fold_inside_quote; auto using stack_holds_quotes.
Qed.

Lemma open_quote_freezes_rewriting_witness :
  rewrite_runes (runes_of_string "a = ? AND b = 'x ? $1 y")
  = rewrite_runes (runes_of_string "a = ? AND b = '")
    ++ runes_of_string "x ? $1 y".
Proof.
apply (open_quote_freezes_rewriting
         (runes_of_string "a = ? AND b = '") (runes_of_string "x ? $1 y")).
- vm_compute. discriminate.
- vm_compute. repeat constructor.
Defined.

(** The scan of an output of the loop ends with the same quote stack
    and reproduces that output. *)
Lemma scan_of_output q :
  runes (scan (runes (scan q))) = runes (scan q) /\
  stack (scan (runes (scan q))) = stack (scan q).
Proof.
induction q as [|r q [IHr IHs]] using rev_ind; [split; reflexivity|].
rewrite scan_snoc.
destruct (stack (scan q)) as [|top tl] eqn:Hst.
- rewrite rewrite_step_outside by assumption.
  destruct (r =? question_mark) eqn:Hq; cbn [runes stack].
  { rewrite scan_app, fold_outside_plain by (congruence || apply marker_plain).
    cbn. now rewrite IHr. }
  destruct (r =? dollar) eqn:Hd; cbn [runes stack].
  { rewrite scan_app, fold_outside_plain.
    - cbn. now rewrite IHr.
    - congruence.
    - repeat constructor. }
  rewrite scan_snoc, rewrite_step_outside by congruence.
  rewrite Hq, Hd. cbn. now rewrite IHr.
- destruct (rewrite_step_inside (scan q) r) as (Hru & _ & Hs); [congruence|].
  rewrite Hru, Hs, scan_snoc.
  destruct (rewrite_step_inside (scan (runes (scan q))) r) as (Hru' & _ & Hs');
    [congruence|].
  rewrite Hru', Hs', IHr, IHs, Hst. auto.
Qed.

End RewriterExtras.

(** ** More on the connection *)

Section ConnectionExtras.

Context {W : Type} `{RedshiftDataClient W}.

Implicit Types (m : machine W) (c : redshiftDataConn).

Lemma machine_step_same (m m' : machine W) :
  conn m' = conn m -> heap m' = heap m -> machine_step m m'.
Proof. intros Hc Hh. split; [rewrite Hh; lia | now left]. Qed.

Lemma resolve_loop_heap_length (desc : DescribeStatementOutput) (n : nat) :
  forall (i : nat) (m : machine W),
    length (heap (snd (resolve_loop desc i n m))) = length (heap m).
Proof.
induction n as [|n IH]; intros i m; [reflexivity|].
cbn [resolve_loop].
destruct (length (SubStatements desc) <=? i)%nat; [reflexivity|].
go. destruct (delayedResult (conn m) !! i) as [[p|]|]; cbn;
  [destruct (SubStatements desc !! i); cbn| |]; try reflexivity;
  rewrite IH; cbn; try reflexivity.
apply length_insert.
Qed.

Lemma QueryContext_heap (m : machine W) (q : string) (args : list NamedValue) :
  heap (snd (QueryContext q args m)) = heap m.
Proof.
unfold QueryContext. go.
destruct (inTx (conn m)); [reflexivity|].
pose proof (executeStatement_frame m (exec_params q args)) as [_ Hh].
destruct (executeStatement _ m) as [[[[p d]|e]|pn] m']; cbn in *; exact Hh.
Qed.

Lemma ExecContext_step (m : machine W) (q : string) (args : list NamedValue) :
  machine_step m (snd (ExecContext q args m)).
Proof.
destruct (inTx (conn m)) eqn:Ht.
- destruct args as [|a args].
  + destruct (ReadOnly (txOpts (conn m))) eqn:Hro.
    * apply machine_step_same; unfold ExecContext; go; now rewrite Ht, Hro.
    * rewrite ExecContext_buffers by assumption. cbn [snd].
      split; cbn; [rewrite !length_app; lia|].
      do 4 right. repeat split; try assumption.
      -- rewrite !length_app. cbn. lia.
      -- exists q. unfold buffered. now rewrite Ht.
  + apply machine_step_same; unfold ExecContext; go; now rewrite Ht.
- pose proof (executeStatement_frame m (exec_params q args)) as [Hc Hh].
  apply machine_step_same; unfold ExecContext; go; rewrite Ht;
    destruct (executeStatement _ m) as [[[[p d]|e]|pn] m']; cbn in *;
    assumption.
Qed.

Lemma OnCommit_step (m : machine W) : machine_step m (snd (OnCommit m)).
Proof.
unfold OnCommit. unfold bind at 1. unfold get_conn at 1.
destruct (inTx (conn m)) eqn:Ht; cbn [negb];
  [|now apply machine_step_same].
destruct (length (sqls (conn m)) =? 0)%nat.
{ split; [cbn; lia|]. do 3 right. left. split; [exact Ht | reflexivity]. }
destruct (length (sqls (conn m)) =? length (delayedResult (conn m)))%nat;
  cbn [negb]; [|now apply machine_step_same].
destruct (length (sqls (conn m)) =? 1)%nat.
- unfold bind at 1. unfold index.
  destruct (sqls (conn m) !! 0%nat) as [sql0|];
    [|now apply machine_step_same].
  unfold ret at 1. unfold bind at 1.
  pose proof (ExecContext_step m sql0 []) as Hstep.
  destruct (ExecContext sql0 [] m) as [[[res|e]|pn] m']; cbn [snd] in Hstep;
    [|exact Hstep|exact Hstep].
  destruct Hstep as [Hlen Hcases].
  go. destruct (delayedResult (conn m') !! 0%nat) as [[p|]|];
    cbn [snd conn heap]; (split; [cbn [heap]; rewrite ?length_insert; exact Hlen|]);
    cbn [conn heap]; try exact Hcases.
  destruct Hcases as [Hc|[Hc|[Hc|[Hc|(Hi & Hro & Hl & q & Hc)]]]]; auto.
  do 4 right. rewrite length_insert. eauto.
- unfold BatchExecuteStatement, remote, bind at 1.
  destruct (client_batch (sqls (conn m)) (world m)) as [[desc|e] w'];
    [|now apply machine_step_same].
  unfold bind at 1.
  match goal with |- context [resolve_loop desc 0 ?n ?m0] =>
    pose proof (resolve_loop_conn desc n 0 m0) as Hc;
    pose proof (resolve_loop_heap_length desc n 0 m0) as Hh;
    destruct (resolve_loop desc 0 n m0) as [[[e|]|pn] m'] end;
    cbn [snd conn heap] in Hc, Hh; go; unfold machine_step;
    cbn [snd conn heap].
  + split; [rewrite Hh; lia | now left].
  + split; [rewrite Hh; lia|]. do 3 right. left.
    split; [exact Ht|]. unfold cleaned. now rewrite Hc.
  + split; [rewrite Hh; lia | now left].
Qed.

(** Every operation is a step of the machine. *)
Lemma perform_step (o : operation) (m : machine W) :
  machine_step m (snd (perform o m)).
Proof.
destruct o as [q| |opts|q args|q args| |]; cbn [perform].
- now apply machine_step_same.
- unfold Close. go. destruct (isClosed (conn m)) eqn:Hc; cbn.
  + now apply machine_step_same.
  + split; [destruct (aliveCh (conn m)); cbn; lia|]. right. left.
    split; [exact Hc|].
    destruct (aliveCh (conn m)) eqn:Ha; cbn; unfold set_closed; cbn;
      rewrite ?Ha; reflexivity.
- unfold errors, BeginTx. go. destruct (inTx (conn m)) eqn:Ht; cbn.
  + now apply machine_step_same.
  + destruct (negb (Isolation opts =? LevelDefault)); cbn.
    * now apply machine_step_same.
    * split; [cbn; lia|]. do 2 right. left. eauto.
- pose proof (ExecContext_step m q args) as Hs. unfold errors, bind.
  destruct (ExecContext q args m) as [[r|pn] m']; exact Hs.
- pose proof (QueryContext_conn m q args) as Hc.
  pose proof (QueryContext_heap m q args) as Hh. unfold errors, bind.
  destruct (QueryContext q args m) as [[r|pn] m'];
    apply machine_step_same; assumption.
- apply OnCommit_step.
- unfold OnRollback. go. destruct (inTx (conn m)) eqn:Ht; cbn.
  + split; [cbn; lia|]. do 3 right. left. auto.
  + now apply machine_step_same.
Qed.

(** *** Invariants of the reachable states *)

Lemma reachable_invariants (m : machine W) :
  reachable m ->
  (isClosed (conn m) = true <-> aliveCh (conn m) = ChanClosed) /\
  (inTx (conn m) = true -> ReadOnly (txOpts (conn m)) = true ->
   sqls (conn m) = []) /\
  (exists ps,
      delayedResult (conn m) = map Some ps /\
      NoDup ps /\
      Forall (fun p => (p < length (heap m))%nat) ps).
Proof.
induction 1 as [client config | m o Hr (IHc & IHro & ps & IHd & IHn & IHp)].
- cbn. split; [split; discriminate|]. split; [discriminate|].
  exists []. repeat split; constructor.
- destruct (reachable_buffers m Hr) as [_ Hidle].
  destruct (perform_step o m) as [Hlen Hcases].
  assert (Hp' : Forall (fun p => (p < length (heap (snd (perform o m))))%nat) ps).
  { eapply List.Forall_impl; [|exact IHp]. cbn. intros; lia. }
  destruct Hcases as [Hc|[[Hcl Hc]|[(Ht & opts & Hc)|[[Ht Hc]|(Ht & Hro & Hl & q & Hc)]]]];
    rewrite Hc; cbn.
  + split; [exact IHc|]. split; [exact IHro|]. eauto.
  + split; [tauto|]. split; [exact IHro|]. eauto.
  + split; [exact IHc|]. split; [intros _ _; now apply Hidle|]. eauto.
  + split; [exact IHc|]. split; [reflexivity|].
    exists []. repeat split; constructor.
  + split; [exact IHc|]. split; [congruence|].
    exists (ps ++ [length (heap m)]). split; [|split].
    * now rewrite map_app, IHd.
    * apply NoDup_app. split; [exact IHn|]. split; [|apply NoDup_singleton].
      intros p Hin Hin'. apply list_elem_of_singleton in Hin'. subst p.
      rewrite Forall_forall in IHp. specialize (IHp _ Hin). lia.
    * apply Forall_app. split; [exact Hp'|]. repeat constructor. exact Hl.
Qed.

(** X8. On every connection reached from a new one, [Close] returns nil
    without panicking (the channel is closed exactly when [isClosed]
    is set, so it is never closed twice), leaves the connection closed,
    and a second [Close] changes nothing. *)
Theorem Close_is_safe_and_idempotent (m : machine W) :
  reachable m ->
  fst (Close m) = Done None /\
  isClosed (conn (snd (Close m))) = true /\
  aliveCh (conn (snd (Close m))) = ChanClosed /\
  Close (snd (Close m)) = (Done None, snd (Close m)).
Proof.
intros Hr. destruct (reachable_invariants m Hr) as (Hc & _).
destruct (isClosed (conn m)) eqn:Hcl.
- rewrite (Close_closed m Hcl). cbn [fst snd].
  rewrite (Close_closed m Hcl). repeat split; tauto.
- assert (Ha : aliveCh (conn m) = ChanOpen).
  { destruct (aliveCh (conn m)); [reflexivity|]. destruct Hc as [_ Hc].
    specialize (Hc eq_refl). discriminate. }
  destruct (Close_open m Hcl Ha) as (Hf & Hc' & Ha').
  repeat split; try assumption. now apply Close_closed.
Qed.

(** X9. A closed connection stays closed: no operation clears
    [isClosed] or reopens the channel once both are set. *)
Theorem closed_stays_closed (m : machine W) (o : operation) :
  isClosed (conn m) = true ->
  aliveCh (conn m) = ChanClosed ->
  isClosed (conn (snd (perform o m))) = true /\
  aliveCh (conn (snd (perform o m))) = ChanClosed.
Proof.
intros Hcl Ha. destruct (perform_step o m) as [_ Hcases].
destruct Hcases as [Hc|[[_ Hc]|[(_ & opts & Hc)|[[_ Hc]|(_ & _ & _ & q & Hc)]]]];
  rewrite Hc; cbn; auto.
Qed.

(** X10. On every connection reached from a new one, the buffered
    Delayed Results are objects of the store, none is nil and no two
    are the same object. *)
Theorem buffered_results_are_distinct_objects (m : machine W) :
  reachable m ->
  exists ps,
    delayedResult (conn m) = map Some ps /\
    NoDup ps /\
    Forall (fun p => (p < length (heap m))%nat) ps.
Proof. intros Hr. now apply reachable_invariants. Qed.

(** *** What contacts the remote service *)

Lemma in_transaction_local (m : machine W) (o : operation) :
  inTx (conn m) = true -> o <> OpCommit ->
  calls (snd (perform o m)) = calls m /\
  world (snd (perform o m)) = world m.
Proof.
intros Ht Ho.
destruct o as [q| |opts|q args|q args| |]; cbn [perform]; try congruence.
- auto.
- destruct (Close_frame m) as (_ & _ & _ & _ & _ & _ & Hw & Hc). auto.
- unfold errors, bind. rewrite BeginTx_in_transaction by assumption. auto.
- destruct args as [|a args].
  + destruct (ReadOnly (txOpts (conn m))) eqn:Hro.
    * unfold errors, ExecContext. go. rewrite Ht, Hro. auto.
    * unfold errors, bind. rewrite ExecContext_buffers by assumption. auto.
  + unfold errors, ExecContext. go. rewrite Ht. auto.
- unfold errors, QueryContext. go. rewrite Ht. auto.
- unfold OnRollback. go. rewrite Ht. auto.
Qed.

(** X11. While a transaction is open, prepare, close, begin, exec,
    query and rollback never contact the remote service: of all the
    operations only commit does. *)
Theorem only_commit_contacts_remote_in_transaction (m : machine W) (o : operation) :
  inTx (conn m) = true ->
  o <> OpCommit ->
  calls (snd (perform o m)) = calls m /\
  world (snd (perform o m)) = world m.
Proof. apply in_transaction_local. Qed.

(** X12. A read-only transaction never contacts the remote service:
    its buffer stays empty, because every exec is refused, so its
    commit is the commit of an empty transaction; no operation performed
    in it makes a remote call, commit included. *)
Theorem read_only_transaction_is_local (m : machine W) (o : operation) :
  reachable m ->
  inTx (conn m) = true ->
  ReadOnly (txOpts (conn m)) = true ->
  sqls (conn m) = [] /\
  calls (snd (perform o m)) = calls m /\
  world (snd (perform o m)) = world m.
Proof.
intros Hr Ht Hro.
destruct (reachable_invariants m Hr) as (_ & Hempty & _).
specialize (Hempty Ht Hro). split; [exact Hempty|].
destruct o as [q| |opts|q args|q args| |];
  try (apply in_transaction_local; [exact Ht | discriminate]).
cbn [perform]. unfold OnCommit. go. rewrite Ht, Hempty. cbn. auto.
Qed.

(** *** Buffering and committing *)

(** X13. In a transaction that is not read-only, a sequence of execs
    without arguments buffers the statements in the order of the calls,
    one Delayed Result per statement, and sends nothing: the calls made
    to the remote service and its state are as before. *)
Theorem execs_buffer_in_submission_order (qs : list string) :
  forall m : machine W,
    inTx (conn m) = true ->
    ReadOnly (txOpts (conn m)) = false ->
    sqls (conn (run (map (fun q => OpExec q []) qs) m)) = sqls (conn m) ++ qs /\
    length (delayedResult (conn (run (map (fun q => OpExec q []) qs) m)))
    = (length (delayedResult (conn m)) + length qs)%nat /\
    inTx (conn (run (map (fun q => OpExec q []) qs) m)) = true /\
    calls (run (map (fun q => OpExec q []) qs) m) = calls m /\
    world (run (map (fun q => OpExec q []) qs) m) = world m.
Proof.
induction qs as [|q qs IH]; intros m Ht Hro.
- cbn. rewrite app_nil_r. auto with arith.
- cbn [map run perform]. unfold errors, bind.
  rewrite ExecContext_buffers by assumption. cbn [snd].
  match goal with |- context [run _ ?m1] =>
    destruct (IH m1) as (Hs & Hd & Ht' & Hc & Hw); [exact Ht | exact Hro |] end.
  rewrite Hs, Hd, Ht', Hc, Hw. cbn. rewrite <- app_assoc, length_app. cbn.
  repeat split. lia.
Qed.

(** X14. The batched commit on a reachable connection: with two or more
    buffered statements and a response that enumerates at least as many
    sub-statements, commit returns nil after exactly one remote call, the
    batch carrying the statements in the order they were buffered; the
    i-th buffered Delayed Result holds the row count of the i-th
    sub-statement; and the connection is idle with empty buffers. *)
Theorem commit_batch_resolves_in_order (m : machine W)
    (desc : DescribeStatementOutput) (w' : W) :
  reachable m ->
  inTx (conn m) = true ->
  (2 <= length (sqls (conn m)))%nat ->
  client_batch (sqls (conn m)) (world m) = (Ok desc, w') ->
  (length (sqls (conn m)) <= length (SubStatements desc))%nat ->
  fst (OnCommit m) = Done None /\
  calls (snd (OnCommit m))
  = calls m ++ [CallBatchExecuteStatement (sqls (conn m))] /\
  conn (snd (OnCommit m)) = cleaned (conn m) /\
  forall i p st,
    delayedResult (conn m) !! i = Some (Some p) ->
    SubStatements desc !! i = Some st ->
    heap (snd (OnCommit m)) !! p = Some (RedshiftDataResult (sub_ResultRows st)).
Proof.
intros Hr Ht Hn Hb Hk.
destruct (reachable_buffers m Hr) as [Hl _].
destruct (reachable_invariants m Hr) as (_ & _ & ps & Hd & Hnd & Hp).
rewrite (OnCommit_batch m desc w' Ht Hn Hl Hb). cbn zeta.
destruct (Nat.leb_spec (length (sqls (conn m))) (length (SubStatements desc)));
  [|lia].
go. cbn. repeat split.
intros i p st Hi Hst.
apply (write_results_resolved _ p _ _ i st Hi Hst).
- intros j Hij _ Hj. rewrite Hd in Hi, Hj.
  rewrite list_lookup_fmap in Hi, Hj.
  destruct (ps !! i) as [pi|] eqn:Hpi; [|discriminate].
  destruct (ps !! j) as [pj|] eqn:Hpj; [|discriminate].
  cbn in Hi, Hj. injection Hi as ->. injection Hj as ->.
  pose proof (NoDup_lookup _ _ _ _ Hnd Hpi Hpj). lia.
- rewrite Hd, list_lookup_fmap in Hi.
  destruct (ps !! i) as [pi|] eqn:Hpi; [|discriminate].
  cbn in Hi. injection Hi as ->.
  rewrite Forall_forall in Hp. apply Hp. eapply list_elem_of_lookup_2, Hpi.
Qed.

(** X15. When the batch call of a commit fails, commit returns the
    error of the remote service as it is; the connection stays in the
    transaction with both buffers, no Delayed Result is written, and the
    batch call is the only call made. *)
Theorem commit_batch_error_keeps_transaction (m : machine W) (e : error) (w' : W) :
  inTx (conn m) = true ->
  (2 <= length (sqls (conn m)))%nat ->
  length (sqls (conn m)) = length (delayedResult (conn m)) ->
  client_batch (sqls (conn m)) (world m) = (Err e, w') ->
  OnCommit m =
    (Done (Some e),
     mkMachine (conn m) (heap m) w'
       (calls m ++ [CallBatchExecuteStatement (sqls (conn m))])).
Proof.
intros Ht Hn Hl Hb.
unfold OnCommit. unfold bind at 1. unfold get_conn at 1. rewrite Ht.
cbn [negb].
destruct (Nat.eqb_spec (length (sqls (conn m))) 0); [lia|].
rewrite <- Hl, Nat.eqb_refl. cbn [negb].
destruct (Nat.eqb_spec (length (sqls (conn m))) 1); [lia|].
unfold BatchExecuteStatement, remote, bind at 1. now rewrite Hb.
Qed.

(** X16. Commit and rollback at the ends of a transaction. Outside a
    transaction both return ErrNotInTx and change nothing. In a
    transaction, rollback always, and commit when no statement is
    buffered, return nil, make no remote call, leave the store as it
    is, and leave the connection idle: inTx cleared, options reset,
    both buffers empty. *)
Theorem commit_and_rollback_at_the_ends (m : machine W) :
  (inTx (conn m) = false ->
   OnCommit m = (Done (Some ErrNotInTx), m) /\
   OnRollback m = (Done (Some ErrNotInTx), m)) /\
  (inTx (conn m) = true ->
   OnRollback m
   = (Done None, mkMachine (cleaned (conn m)) (heap m) (world m) (calls m)) /\
   (sqls (conn m) = [] ->
    OnCommit m
    = (Done None, mkMachine (cleaned (conn m)) (heap m) (world m) (calls m)))).
Proof.
split; intros Ht.
- unfold OnCommit, OnRollback. go. rewrite Ht. cbn. now destruct m.
- split; [unfold OnRollback; go; now rewrite Ht|].
  intros Hs. unfold OnCommit. go. now rewrite Ht, Hs.
Qed.

(** X17. A transaction handle is not tied to the transaction that made
    it: every handle a successful begin returns runs the same two
    closures over the connection, so a handle kept from an earlier
    transaction commits and rolls back whatever transaction is open
    when it is used. *)
Theorem handle_acts_on_current_transaction (m m' : machine W)
    (opts : TxOptions) (tx : RedshiftDataTx) :
  fst (BeginTx opts m) = Done (Ok tx) ->
  Commit tx m' = OnCommit m' /\
  Rollback tx m' = OnRollback m' /\
  (inTx (conn m') = true ->
   Rollback tx m'
   = (Done None, mkMachine (cleaned (conn m')) (heap m') (world m') (calls m'))).
Proof.
intros Hb.
assert (Htx : tx = {| tx_OnCommit := OnCommit; tx_OnRollback := OnRollback |}).
{ revert Hb. unfold BeginTx. go.
  destruct (inTx (conn m)); [discriminate|].
  destruct (negb _); [discriminate|]. cbn. congruence. }
subst tx. cbn. repeat split.
intros Ht. unfold OnRollback. go. now rewrite Ht.
Qed.

(** *** Single statements *)

(** X18. Errors of [executeStatement]. When the submission fails, the
    error comes back wrapped as "execute statement error" and the
    statement is never polled: the submission is the only call. When
    the submission succeeds and the wait fails, the error of the wait
    comes back as it is. In both cases the connection and the store are
    untouched. *)
Theorem executeStatement_errors (m : machine W) (params : ExecuteStatementInput) :
  (forall e w1,
      client_ExecuteStatement (set_target (cfg (conn m)) params) (world m)
      = (Err e, w1) ->
      executeStatement params m =
        (Done (Err (Errorf_w "execute statement error: %w" e)),
         mkMachine (conn m) (heap m) w1
           (calls m ++ [CallExecuteStatement (set_target (cfg (conn m)) params)]))) /\
  (forall out w1 e w2,
      client_ExecuteStatement (set_target (cfg (conn m)) params) (world m)
      = (Ok out, w1) ->
      client_wait (Id out) w1 = (Err e, w2) ->
      executeStatement params m =
        (Done (Err e),
         mkMachine (conn m) (heap m) w2
           ((calls m ++ [CallExecuteStatement (set_target (cfg (conn m)) params)])
              ++ [CallDescribeStatement (Id out)]))).
Proof.
split.
- intros e w1 He. unfold executeStatement. go. now rewrite He.
- intros out w1 e w2 He Hw. unfold executeStatement. go.
  rewrite He. cbn. now rewrite Hw.
Qed.

(** X19. Outside a transaction, exec and query always submit the
    statement: whatever the query and the arguments, the first call they
    make is ExecuteStatement with the rewritten SQL text (nil when that
    text is empty), the converted arguments and the session target of
    the configuration; and they never write the connection or the
    store. *)
Theorem single_statement_is_always_submitted (m : machine W) (q : string)
    (args : list NamedValue) :
  inTx (conn m) = false ->
  let params :=
    set_target (cfg (conn m))
      {| Sql := Nullif (rewriteQuery q (Z.of_nat (length args)));
         Parameters := convertArgsToParameters args;
         in_ClusterIdentifier := None; in_Database := None; in_DbUser := None;
         in_SecretArn := None; in_WorkgroupName := None |} in
  (exists more,
      calls (snd (ExecContext q args m))
      = calls m ++ CallExecuteStatement params :: more) /\
  (exists more,
      calls (snd (QueryContext q args m))
      = calls m ++ CallExecuteStatement params :: more) /\
  conn (snd (ExecContext q args m)) = conn m /\
  heap (snd (ExecContext q args m)) = heap m /\
  conn (snd (QueryContext q args m)) = conn m /\
  heap (snd (QueryContext q args m)) = heap m.
Proof.
intros Ht params.
assert (Hcalls : exists more,
  calls (snd (executeStatement (exec_params q args) m))
  = calls m ++ CallExecuteStatement params :: more).
{ unfold executeStatement. go. fold params.
  destruct (client_ExecuteStatement _ _) as [[eo|e] w1]; cbn;
    [|exists []; reflexivity].
  destruct (client_wait _ _) as [[d|e] w2]; cbn;
    [|eexists; rewrite <- app_assoc; reflexivity].
  exists [CallDescribeStatement (Id eo)]. rewrite <- app_assoc.
  destruct (String.eqb _ _); [destruct (Error d); reflexivity|].
  destruct (String.eqb _ _); [destruct (Error d); reflexivity|].
  destruct (String.eqb _ _); cbn; [|reflexivity].
  destruct (HasResultSet d) as [[|]|]; reflexivity. }
pose proof (executeStatement_frame m (exec_params q args)) as [Hc Hh].
unfold ExecContext, QueryContext. go. rewrite Ht.
destruct (executeStatement (exec_params q args) m) as [[[[p d]|e]|pn] m'];
  cbn in *; auto 10.
Qed.

End ConnectionExtras.

(** ** Placeholders and parameters together *)

Section Binding.

(** X20. Positional placeholders bind to positional arguments. When the
    arguments carry no name and the ordinals 1, 2, ... in order, as for
    a call with positional arguments, a bare [?] met after k others
    is rewritten to a colon followed by exactly the name that
    [convertArgsToParameters] gives to argument k+1. *)
Theorem bare_question_names_next_parameter (p : list rune)
    (args : list NamedValue) (prm : SqlParameter) :
  stack (scan p) = [] ->
  Z.of_nat (length p) < 2 ^ 63 - 1 ->
  (forall j a, args !! j = Some a ->
               Name a = EmptyString /\ Ordinal a = Z.of_nat (S j)) ->
  convertArgsToParameters args !! bare_questions p (length p) = Some prm ->
  exists name,
    param_Name prm = Some name /\
    rewrite_runes (p ++ [question_mark])
    = rewrite_runes p ++ colon :: map rune_of_ascii (list_ascii_of_string name).
Proof.
intros Hst Hlen Hargs Hprm.
destruct (scan_rewritten p) as [_ Hcount]; [lia|].
pose proof (bare_questions_le p (length p)) as Hle.
rewrite convertArgsToParameters_lookup in Hprm.
destruct (args !! bare_questions p (length p)) as [a|] eqn:Ha; [|discriminate].
destruct (Hargs _ _ Ha) as [Hname Hord].
cbn in Hprm. rewrite Hname in Hprm. cbn in Hprm. injection Hprm as <-.
eexists. split; [reflexivity|].
unfold rewrite_runes. rewrite scan_snoc, rewrite_step_outside by assumption.
rewrite Z.eqb_refl. cbn [runes]. rewrite Hcount, int_wrap_small by lia.
unfold marker. rewrite Hord.
now replace (Z.of_nat (S (bare_questions p (length p))))
  with (Z.of_nat (bare_questions p (length p)) + 1) by lia.
Qed.

Lemma bare_question_names_next_parameter_witness :
  let p := runes_of_string "a = ? AND b = '?' AND c = " in
  let args := [ {| Name := EmptyString; Ordinal := 1; Value := "7" |};
                {| Name := EmptyString; Ordinal := 2; Value := "8" |} ] in
  exists name,
    param_Name {| param_Name := Some "2"%string; param_Value := Some "8"%string |}
    = Some name /\
    rewrite_runes (p ++ [question_mark])
    = rewrite_runes p ++ colon :: map rune_of_ascii (list_ascii_of_string name).
Proof.
cbv zeta.
apply (bare_question_names_next_parameter
         (runes_of_string "a = ? AND b = '?' AND c = ")
         [ {| Name := EmptyString; Ordinal := 1; Value := "7" |};
           {| Name := EmptyString; Ordinal := 2; Value := "8" |} ]).
- vm_compute. reflexivity.
- vm_compute. reflexivity.
- intros [|[|j]] a Ha; cbn in Ha; try discriminate;
    injection Ha as <-; cbn; split; reflexivity.
- vm_compute. reflexivity.
Defined.

End Binding.

(** ** The connection properties at work *)

Section MoreExamples.

#[local] Existing Instance canned_client.

Lemma Close_is_safe_and_idempotent_witness :
  let m := run [OpBegin default_options; OpExec "a" []; OpClose; OpClose]
             (NewConnection (finished []) no_config) in
  reachable m /\
  fst (Close m) = Done None /\
  isClosed (conn (snd (Close m))) = true /\
  aliveCh (conn (snd (Close m))) = ChanClosed /\
  Close (snd (Close m)) = (Done None, snd (Close m)).
Proof.
cbv zeta.
assert (Hr : reachable
               (run [OpBegin default_options; OpExec "a" []; OpClose; OpClose]
                  (NewConnection (finished []) no_config))).
{ apply reachable_run. constructor. }
split; [exact Hr|]. now apply Close_is_safe_and_idempotent.
Defined.

Lemma closed_stays_closed_witness :
  let m := run [OpClose] (NewConnection (finished []) no_config) in
  isClosed (conn m) = true /\
  aliveCh (conn m) = ChanClosed /\
  isClosed (conn (snd (perform (OpBegin default_options) m))) = true /\
  aliveCh (conn (snd (perform (OpBegin default_options) m))) = ChanClosed.
Proof.
cbv zeta. split; [reflexivity|]. split; [reflexivity|].
apply (closed_stays_closed
         (run [OpClose] (NewConnection (finished []) no_config))
         (OpBegin default_options)); reflexivity.
Defined.

Lemma buffered_results_are_distinct_objects_witness :
  let m := run [OpBegin default_options; OpExec "a" []; OpExec "b" []]
             (NewConnection (finished []) no_config) in
  reachable m /\
  exists ps,
    delayedResult (conn m) = map Some ps /\
    NoDup ps /\
    Forall (fun p => (p < length (heap m))%nat) ps.
Proof.
cbv zeta.
assert (Hr : reachable
               (run [OpBegin default_options; OpExec "a" []; OpExec "b" []]
                  (NewConnection (finished []) no_config))).
{ apply reachable_run. constructor. }
split; [exact Hr|]. now apply buffered_results_are_distinct_objects.
Defined.

Lemma only_commit_contacts_remote_in_transaction_witness :
  let m := run [OpBegin default_options]
             (NewConnection (finished []) no_config) in
  let o := OpExec "DELETE FROM t" [] in
  inTx (conn m) = true /\
  o <> OpCommit /\
  calls (snd (perform o m)) = calls m /\
  world (snd (perform o m)) = world m.
Proof.
cbv zeta. split; [reflexivity|]. split; [discriminate|].
apply (only_commit_contacts_remote_in_transaction
         (run [OpBegin default_options]
            (NewConnection (finished []) no_config))
         (OpExec "DELETE FROM t" [])); [reflexivity | discriminate].
Defined.

Lemma read_only_transaction_is_local_witness :
  let m := run [OpBegin {| Isolation := 0; ReadOnly := true |};
                OpExec "DELETE FROM t" []]
             (NewConnection (finished []) no_config) in
  reachable m /\
  inTx (conn m) = true /\
  ReadOnly (txOpts (conn m)) = true /\
  sqls (conn m) = [] /\
  calls (snd (perform OpCommit m)) = calls m /\
  world (snd (perform OpCommit m)) = world m.
Proof.
cbv zeta.
assert (Hr : reachable
               (run [OpBegin {| Isolation := 0; ReadOnly := true |};
                     OpExec "DELETE FROM t" []]
                  (NewConnection (finished []) no_config))).
{ apply reachable_run. constructor. }
split; [exact Hr|]. split; [reflexivity|]. split; [reflexivity|].
apply read_only_transaction_is_local; [exact Hr | reflexivity | reflexivity].
Defined.

Lemma execs_buffer_in_submission_order_witness :
  let m := run [OpBegin default_options]
             (NewConnection (finished []) no_config) in
  let qs := ["a"; "b"; "c"]%string in
  inTx (conn m) = true /\
  ReadOnly (txOpts (conn m)) = false /\
  sqls (conn (run (map (fun q => OpExec q []) qs) m)) = sqls (conn m) ++ qs /\
  length (delayedResult (conn (run (map (fun q => OpExec q []) qs) m)))
  = (length (delayedResult (conn m)) + length qs)%nat /\
  inTx (conn (run (map (fun q => OpExec q []) qs) m)) = true /\
  calls (run (map (fun q => OpExec q []) qs) m) = calls m /\
  world (run (map (fun q => OpExec q []) qs) m) = world m.
Proof.
cbv zeta. split; [reflexivity|]. split; [reflexivity|].
apply (execs_buffer_in_submission_order ["a"; "b"; "c"]%string
         (run [OpBegin default_options]
            (NewConnection (finished []) no_config))); reflexivity.
Defined.

Lemma commit_batch_resolves_in_order_witness :
  let d := finished [mkSubStatementData 5; mkSubStatementData 6] in
  let m := run [OpBegin default_options; OpExec "a" []; OpExec "b" []]
             (NewConnection d no_config) in
  fst (OnCommit m) = Done None /\
  calls (snd (OnCommit m)) = [CallBatchExecuteStatement ["a"; "b"]%string] /\
  heap (snd (OnCommit m)) !! 0%nat = Some (RedshiftDataResult 5) /\
  heap (snd (OnCommit m)) !! 2%nat = Some (RedshiftDataResult 6).
Proof.
cbv zeta.
set (d := finished [mkSubStatementData 5; mkSubStatementData 6]).
set (m := run _ _).
assert (Hr : reachable m) by (apply reachable_run; constructor).
destruct (commit_batch_resolves_in_order m d d Hr) as (Hf & Hc & _ & Hres).
- reflexivity.
- vm_compute. lia.
- reflexivity.
- vm_compute. lia.
- split; [exact Hf|]. split; [exact Hc|]. split.
  + apply (Hres 0%nat 0%nat (mkSubStatementData 5)); reflexivity.
  + apply (Hres 1%nat 2%nat (mkSubStatementData 6)); reflexivity.
Defined.

Lemma commit_batch_error_keeps_transaction_witness :
  let m := run (H := failing_client)
             [OpBegin default_options; OpExec "a" []; OpExec "b" []]
             (NewConnection tt no_config) in
  OnCommit (H := failing_client) m =
    (Done (Some (ClientError "down")),
     mkMachine (conn m) (heap m) tt
       (calls m ++ [CallBatchExecuteStatement (sqls (conn m))])).
Proof.
cbv zeta.
apply (commit_batch_error_keeps_transaction (H := failing_client));
  [reflexivity | vm_compute; lia | reflexivity | reflexivity].
Defined.

Lemma commit_and_rollback_at_the_ends_witness :
  let m := run [OpBegin default_options; OpExec "a" []]
             (NewConnection (finished []) no_config) in
  inTx (conn m) = true /\
  OnRollback m
  = (Done None, mkMachine (cleaned (conn m)) (heap m) (world m) (calls m)).
Proof.
cbv zeta. split; [reflexivity|].
destruct (commit_and_rollback_at_the_ends
            (run [OpBegin default_options; OpExec "a" []]
               (NewConnection (finished []) no_config))) as [_ Hin].
now apply Hin.
Defined.

Lemma handle_acts_on_current_transaction_witness :
  let m0 := NewConnection (finished []) no_config in
  let tx := {| tx_OnCommit := OnCommit; tx_OnRollback := OnRollback |} in
  let m' := run [OpBegin default_options; OpRollback;
                 OpBegin default_options; OpExec "a" []] m0 in
  fst (BeginTx default_options m0) = Done (Ok tx) /\
  inTx (conn m') = true /\
  sqls (conn m') = ["a"%string] /\
  Rollback tx m'
  = (Done None, mkMachine (cleaned (conn m')) (heap m') (world m') (calls m')).
Proof.
cbv zeta. split; [reflexivity|]. split; [reflexivity|]. split; [reflexivity|].
destruct (handle_acts_on_current_transaction
            (NewConnection (finished []) no_config)
            (run [OpBegin default_options; OpRollback;
                  OpBegin default_options; OpExec "a" []]
               (NewConnection (finished []) no_config))
            default_options
            {| tx_OnCommit := OnCommit; tx_OnRollback := OnRollback |})
  as (_ & _ & Hroll); [reflexivity|].
now apply Hroll.
Defined.

Lemma executeStatement_errors_witness :
  let m := NewConnection tt no_config in
  let params := exec_params "DELETE FROM t" [] in
  executeStatement (H := failing_client) params m =
    (Done (Err (Errorf_w "execute statement error: %w" (ClientError "down"))),
     mkMachine (conn m) (heap m) tt
       (calls m ++ [CallExecuteStatement (set_target (cfg (conn m)) params)])).
Proof.
cbv zeta.
destruct (executeStatement_errors (H := failing_client)
            (NewConnection tt no_config) (exec_params "DELETE FROM t" []))
  as [Hsub _].
now apply Hsub.
Defined.

Lemma single_statement_is_always_submitted_witness :
  let m := NewConnection (finished []) no_config in
  inTx (conn m) = false /\
  conn (snd (ExecContext EmptyString [] m)) = conn m /\
  exists more,
    calls (snd (ExecContext EmptyString [] m))
    = calls m
      ++ CallExecuteStatement
           (set_target (cfg (conn m))
              {| Sql := None; Parameters := [];
                 in_ClusterIdentifier := None; in_Database := None;
                 in_DbUser := None; in_SecretArn := None;
                 in_WorkgroupName := None |}) :: more.
Proof.
cbv zeta. split; [reflexivity|].
destruct (single_statement_is_always_submitted
            (NewConnection (finished []) no_config) EmptyString [])
  as (Hcalls & _ & Hc & _); [reflexivity|].
split; [exact Hc | exact Hcalls].
Defined.

End MoreExamples.

(** ** The configuration *)

Module ConfigFacts.
Import Config.

Section WithLibrary.

Context `{Library}.

(** *** Strings *)

Lemma HasPrefix_app (s prefix rest : string) :
  HasPrefix s prefix = true -> HasPrefix (s ++ rest) prefix = true.
Proof.
revert s. induction prefix as [|c prefix IH]; intros s; [reflexivity|].
destruct s as [|d s]; cbn [HasPrefix]; [discriminate|].
intros Hp. apply andb_true_iff in Hp as [Hc Hp].
change (String d s ++ rest)%string with (String d (s ++ rest)).
cbv beta iota. rewrite Hc. cbn [andb]. now apply IH.
Qed.

Lemma Split_without_sep (s : string) (sep : ascii) :
  contains sep s = false -> Split s sep = [s].
Proof.
induction s as [|c s IH]; cbn; [reflexivity|].
intros Hc. apply orb_false_iff in Hc as [Hc Hs].
rewrite Hc, (IH Hs). reflexivity.
Qed.

Lemma Split_nonempty (s : string) (sep : ascii) : Split s sep <> [].
Proof.
induction s as [|c s IH]; cbn; [discriminate|].
destruct (Ascii.eqb c sep); [discriminate|].
destruct (Split s sep); discriminate.
Qed.

Lemma append_cons (c : ascii) (a s : string) :
  (String c a ++ s)%string = String c (a ++ s).
Proof. reflexivity. Qed.

Lemma append_nil (s : string) : (EmptyString ++ s)%string = s.
Proof. reflexivity. Qed.

Lemma Split_at_first_sep (a q : string) (sep : ascii) :
  contains sep a = false ->
  Split (a ++ String sep q) sep = a :: Split q sep.
Proof.
induction a as [|c a IH]; cbn [contains].
- intros _. rewrite append_nil. cbn [Split]. now rewrite Ascii.eqb_refl.
- intros Hc. apply orb_false_iff in Hc as [Hc Hs].
  rewrite append_cons. cbn [Split]. rewrite Hc, (IH Hs). reflexivity.
Qed.

Lemma Join_cons (p : string) (ps : list string) (sep : string) :
  Join (p :: ps) sep =
  match ps with
  | [] => p
  | _ :: _ => (p ++ sep ++ Join ps sep)%string
  end.
Proof. now destruct ps. Qed.

(** Joining the pieces of a split gives the string back. *)
Lemma Join_Split (s : string) (sep : ascii) :
  Join (Split s sep) (String sep EmptyString) = s.
Proof.
induction s as [|c s IH]; [reflexivity|].
cbn [Split].
pose proof (Split_nonempty s sep) as Hn.
destruct (Split s sep) as [|p ps]; [congruence|].
destruct (Ascii.eqb_spec c sep) as [->|Hne].
- rewrite Join_cons, IH. reflexivity.
- rewrite Join_cons. rewrite Join_cons in IH. rewrite <- IH.
  destruct ps; reflexivity.
Qed.

(** *** [ParseDSN] on the ARN of a secret *)

(** X21. Round trip on secrets. A DSN that begins with [arn:] and holds
    no [?] parses to the configuration whose only field is that secret
    ARN, whatever the library does; [BaseString] of that configuration
    is the DSN again; and for every configuration with such a secret
    ARN, whatever its other fields, parsing its [BaseString] gives the
    configuration that holds the secret alone. *)
Theorem ParseDSN_secret_round_trip (arn : string) :
  HasPrefix arn "arn:" = true ->
  contains "?" arn = false ->
  ParseDSN arn = Ok (secret_config arn) /\
  BaseString (secret_config arn) = arn /\
  forall cfg, SecretsArn cfg = Some arn ->
              ParseDSN (BaseString cfg) = Ok (secret_config arn).
Proof.
intros Hp Hq.
assert (Hparse : ParseDSN arn = Ok (secret_config arn)).
{ unfold ParseDSN. destruct arn as [|c arn]; [discriminate|].
  cbn [String.eqb]. rewrite Hp, Split_without_sep by assumption.
  reflexivity. }
split; [exact Hparse|]. split; [reflexivity|].
intros cfg Hs. unfold BaseString. now rewrite Hs.
Qed.

(** X22. A secret DSN with parameters is cut at its first [?]: the
    secret ARN is the text before it, and the text after it, later [?]
    included, is what is parsed as the query. A query that does not
    parse, or parameters [SetParams] refuses, make the DSN invalid. *)
Theorem ParseDSN_secret_with_query (arn query : string) :
  HasPrefix arn "arn:" = true ->
  contains "?" arn = false ->
  ParseDSN (arn ++ String "?" query) =
    match url_ParseQuery query with
    | Err err =>
        Err (Errorf_w "dsn is invalid: can not parse query params: %w" err)
    | Ok params =>
        match SetParams (secret_config arn) params with
        | (_, Some err) =>
            Err (Errorf_w "dsn is invalid: set query params: %w" err)
        | (cfg, None) => Ok cfg
        end
    end.
Proof.
intros Hp Hq. unfold ParseDSN.
destruct arn as [|c arn]; [discriminate|].
cbn [String.append String.eqb].
change (String c (arn ++ String "?" query)) with (String c arn ++ String "?" query)%string.
rewrite (HasPrefix_app _ _ _ Hp), Split_at_first_sep by assumption.
cbn [List.hd List.tl length].
pose proof (Split_nonempty query "?") as Hn.
destruct (Split query "?") as [|p ps] eqn:Hs; [congruence|].
cbn [length Nat.leb]. rewrite <- Hs, Join_Split. reflexivity.
Qed.

(** *** [SetParams] *)

Lemma SetParams_timeout_frame (cfg cfg' : RedshiftDataConfig) (e : option error) :
  SetParams_timeout cfg = (cfg', e) ->
  ClusterIdentifier cfg' = ClusterIdentifier cfg /\
  Database cfg' = Database cfg /\ DBUser cfg' = DBUser cfg /\
  WorkgroupName cfg' = WorkgroupName cfg /\ SecretsArn cfg' = SecretsArn cfg /\
  Polling cfg' = Polling cfg /\
  RedshiftDataOptFns cfg' = RedshiftDataOptFns cfg /\
  (e = None ->
   Has (Params cfg') "timeout" = false /\
   forall key, key <> "timeout"%string ->
               entry (Params cfg') key = entry (Params cfg) key).
Proof.
unfold SetParams_timeout.
destruct (Has (Params cfg) "timeout") eqn:Hh.
- destruct (time_ParseDuration _) as [d [err|]]; intros [= <- <-]; cbn;
    repeat split; try discriminate.
  + destruct (Params cfg) as [m|]; cbn; [|reflexivity].
    now rewrite lookup_delete_eq.
  + intros key Hk. destruct (Params cfg) as [m|]; cbn; [|reflexivity].
    now rewrite lookup_delete_ne.
- intros [= <- <-]. repeat split. exact Hh.
Qed.

Lemma SetParams_polling_frame (cfg cfg' : RedshiftDataConfig) (e : option error) :
  SetParams_polling cfg = (cfg', e) ->
  ClusterIdentifier cfg' = ClusterIdentifier cfg /\
  Database cfg' = Database cfg /\ DBUser cfg' = DBUser cfg /\
  WorkgroupName cfg' = WorkgroupName cfg /\ SecretsArn cfg' = SecretsArn cfg /\
  Timeout cfg' = Timeout cfg /\
  RedshiftDataOptFns cfg' = RedshiftDataOptFns cfg /\
  (e = None ->
   Has (Params cfg') "polling" = false /\
   forall key, key <> "polling"%string ->
               entry (Params cfg') key = entry (Params cfg) key).
Proof.
unfold SetParams_polling.
destruct (Has (Params cfg) "polling") eqn:Hh.
- destruct (time_ParseDuration _) as [d [err|]]; intros [= <- <-]; cbn;
    repeat split; try discriminate.
  + destruct (Params cfg) as [m|]; cbn; [|reflexivity].
    now rewrite lookup_delete_eq.
  + intros key Hk. destruct (Params cfg) as [m|]; cbn; [|reflexivity].
    now rewrite lookup_delete_ne.
- intros [= <- <-]. repeat split. exact Hh.
Qed.

Lemma Has_entry (v : Values) (key : string) :
  Has v key = match entry v key with Some _ => true | None => false end.
Proof. destruct v; reflexivity. Qed.

Lemma SetParams_frame (cfg cfg' : RedshiftDataConfig) (params : Values)
    (e : option error) :
  SetParams cfg params = (cfg', e) ->
  ClusterIdentifier cfg' = ClusterIdentifier cfg /\
  Database cfg' = Database cfg /\ DBUser cfg' = DBUser cfg /\
  WorkgroupName cfg' = WorkgroupName cfg /\ SecretsArn cfg' = SecretsArn cfg.
Proof.
unfold SetParams.
destruct (SetParams_timeout (set_Params cfg params)) as [c1 e1] eqn:H1.
destruct (SetParams_timeout_frame _ _ _ H1) as (A1 & A2 & A3 & A4 & A5 & _).
destruct e1 as [err|]; [intros [= <- <-]; cbn in *; auto|].
destruct (SetParams_polling c1) as [c2 e2] eqn:H2.
destruct (SetParams_polling_frame _ _ _ H2) as (B1 & B2 & B3 & B4 & B5 & _).
destruct e2 as [err|]; [intros [= <- <-]; cbn in *; repeat split; congruence|].
destruct (Has (Params c2) "region"); intros [= <- <-]; cbn in *;
  repeat split; congruence.
Qed.

Lemma SetParams_success (cfg cfg' : RedshiftDataConfig) (params : Values) :
  SetParams cfg params = (cfg', None) ->
  Has (Params cfg') "timeout" = false /\
  Has (Params cfg') "polling" = false /\
  (forall key,
      key <> "timeout"%string -> key <> "polling"%string ->
      key <> "region"%string ->
      entry (Params cfg') key = entry params key) /\
  (ClusterIdentifier cfg' = ClusterIdentifier cfg /\
   Database cfg' = Database cfg /\ DBUser cfg' = DBUser cfg /\
   WorkgroupName cfg' = WorkgroupName cfg /\ SecretsArn cfg' = SecretsArn cfg) /\
  RedshiftDataOptFns cfg' =
    RedshiftDataOptFns cfg
    ++ (if Has params "region" then [Get params "region"] else []).
Proof.
intros Hset. pose proof (SetParams_frame _ _ _ _ Hset) as Hframe.
revert Hset. unfold SetParams.
destruct (SetParams_timeout (set_Params cfg params)) as [c1 e1] eqn:H1.
destruct (SetParams_timeout_frame _ _ _ H1) as (_ & _ & _ & _ & _ & _ & F1 & T1).
destruct e1 as [err|]; [discriminate|].
destruct (T1 eq_refl) as [Ht1 Hk1]. cbn [Params set_Params] in Hk1.
destruct (SetParams_polling c1) as [c2 e2] eqn:H2.
destruct (SetParams_polling_frame _ _ _ H2) as (_ & _ & _ & _ & _ & _ & F2 & T2).
destruct e2 as [err|]; [discriminate|].
destruct (T2 eq_refl) as [Hp2 Hk2].
assert (Ht2 : Has (Params c2) "timeout" = false).
{ rewrite Has_entry, Hk2 by discriminate. now rewrite <- Has_entry. }
assert (Hregion : Has (Params c2) "region" = Has params "region").
{ rewrite !Has_entry, Hk2, Hk1 by discriminate. reflexivity. }
assert (Hget : Get (Params c2) "region" = Get params "region").
{ assert (He : entry (Params c2) "region" = entry params "region")
    by (rewrite Hk2, Hk1 by discriminate; reflexivity).
  unfold Get, entry in *. destruct (Params c2), params; cbn in *;
    rewrite ?He; try reflexivity; now rewrite <- ?He. }
rewrite <- Hregion, <- Hget.
destruct (Has (Params c2) "region") eqn:Hr; intros [= <-].
- cbn [Params WithRegion RedshiftDataOptFns]. unfold Set_.
  split; [|split; [|split; [|split]]].
  + unfold Has. rewrite lookup_insert_ne by discriminate.
    unfold Has in Ht2. now destruct (Params c2).
  + unfold Has. rewrite lookup_insert_ne by discriminate.
    unfold Has in Hp2. now destruct (Params c2).
  + intros key K1 K2 K3. cbn [entry]. rewrite lookup_insert_ne by congruence.
    rewrite <- Hk1, <- Hk2 by assumption.
    destruct (Params c2); [reflexivity | apply lookup_empty].
  + exact Hframe.
  + cbn in F1. congruence.
- split; [exact Ht2|]. split; [exact Hp2|]. split; [|split; [exact Hframe|]].
  + intros key K1 K2 K3. now rewrite Hk2, Hk1.
  + rewrite app_nil_r. cbn in F1. congruence.
Qed.

(** X23. What a successful [SetParams] leaves. The keys [timeout] and
    [polling] are gone from the parameters of the configuration, every
    key other than [timeout], [polling] and [region] is there as it was
    given, and the five fields that name the target (cluster, database,
    user, workgroup, secret) are not written. When a region is given,
    one region option is appended for its first value. *)
Theorem SetParams_consumes_timeout_and_polling (cfg cfg' : RedshiftDataConfig)
    (params : Values) :
  SetParams cfg params = (cfg', None) ->
  Has (Params cfg') "timeout" = false /\
  Has (Params cfg') "polling" = false /\
  (forall key,
      key <> "timeout"%string -> key <> "polling"%string ->
      key <> "region"%string ->
      entry (Params cfg') key = entry params key) /\
  (ClusterIdentifier cfg' = ClusterIdentifier cfg /\
   Database cfg' = Database cfg /\ DBUser cfg' = DBUser cfg /\
   WorkgroupName cfg' = WorkgroupName cfg /\ SecretsArn cfg' = SecretsArn cfg) /\
  RedshiftDataOptFns cfg' =
    RedshiftDataOptFns cfg
    ++ (if Has params "region" then [Get params "region"] else []).
Proof. apply SetParams_success. Qed.

(** *** The shape of a parsed configuration *)

Lemma Nullif_value (s d : string) : Nullif s = Some d -> d = s /\ d <> EmptyString.
Proof.
unfold Nullif. destruct (String.eqb_spec s EmptyString); [discriminate|].
intros [= <-]. auto.
Qed.

(** X24. No configuration [ParseDSN] returns names its target in two
    ways. For a DSN that begins with [arn:] it holds a secret ARN and
    no database, cluster, user or workgroup. For any other DSN it holds
    no secret, a database that is not empty, and never both a workgroup
    and a cluster or user; it may hold none of the three, as the
    example [ParseDSN_without_target] shows. In both cases the keys
    [timeout] and [polling] are absent from its parameters. An empty
    DSN is never accepted. *)
Theorem ParseDSN_names_at_most_one_target (dsn : string) (cfg : RedshiftDataConfig) :
  ParseDSN dsn = Ok cfg ->
  dsn <> EmptyString /\
  Has (Params cfg) "timeout" = false /\
  Has (Params cfg) "polling" = false /\
  (HasPrefix dsn "arn:" = true ->
   (exists arn, SecretsArn cfg = Some arn) /\
   Database cfg = None /\ ClusterIdentifier cfg = None /\
   DBUser cfg = None /\ WorkgroupName cfg = None) /\
  (HasPrefix dsn "arn:" = false ->
   SecretsArn cfg = None /\
   (exists d, Database cfg = Some d /\ d <> EmptyString) /\
   (WorkgroupName cfg = None \/
    (ClusterIdentifier cfg = None /\ DBUser cfg = None))).
Proof.
unfold ParseDSN.
destruct (String.eqb_spec dsn EmptyString) as [->|Hne]; [discriminate|].
destruct (HasPrefix dsn "arn:") eqn:Hp.
- destruct (2 <=? length (Split dsn "?"))%nat.
  + destruct (url_ParseQuery _) as [params|err]; [|discriminate].
    destruct (SetParams _ params) as [c [err|]] eqn:Hset; [discriminate|].
    intros [= <-].
    destruct (SetParams_success _ _ _ Hset) as (Ht & Hpo & _ & (A & B & C & D & E) & _).
    cbn in A, B, C, D, E.
    repeat split; try assumption; try discriminate. eauto.
  + intros [= <-]. cbn. repeat split; try discriminate; try assumption. eauto.
- destruct (url_Parse _) as [u|err]; [|discriminate].
  destruct (Nullif (TrimPrefix (Path u) "/")) as [d|] eqn:Hd;
    cbn [Database database_config]; [|discriminate].
  destruct (Nullif_value _ _ Hd) as [_ Hdne].
  destruct (SetParams _ (URL_Query u)) as [c [err|]] eqn:Hset; [discriminate|].
  destruct (SetParams_success _ _ _ Hset) as (Ht & Hpo & _ & (A & B & C & D & E) & _).
  cbn in A, B, C, D, E.
  destruct (HasPrefix (Host u) "cluster(").
  + intros [= <-]. cbn. repeat split; try assumption; try discriminate.
    * rewrite B. eauto.
    * now left.
  + destruct (HasPrefix (Host u) "workgroup("); [|discriminate].
    intros [= <-]. cbn. repeat split; try assumption; try discriminate.
    * rewrite B. eauto.
    * right. auto.
Qed.

(** *** Configurations without a target *)

(** X25. A configuration without a secret that lacks a database, or
    that has neither a workgroup nor both a cluster and a user, or whose
    workgroup name is empty, has an empty [BaseString] and an empty
    [String]: the library is not even asked to build a URL. An empty
    workgroup name does so even when a cluster and a user are set,
    because the workgroup overwrites the host. *)
Theorem BaseString_empty_without_target (cfg : RedshiftDataConfig) :
  SecretsArn cfg = None ->
  Database cfg = None \/
  (WorkgroupName cfg = None /\
   (ClusterIdentifier cfg = None \/ DBUser cfg = None)) \/
  WorkgroupName cfg = Some EmptyString ->
  BaseString cfg = EmptyString /\ String_ cfg = EmptyString.
Proof.
intros Hs Hcases.
assert (Hb : BaseString cfg = EmptyString).
{ unfold BaseString. rewrite Hs.
  destruct Hcases as [Hd | [[Hw Hc] | Hw]].
  - rewrite Hd. now rewrite orb_true_r.
  - rewrite Hw.
    destruct Hc as [Hc|Hc]; rewrite Hc;
      destruct (ClusterIdentifier cfg), (Database cfg); reflexivity.
  - rewrite Hw.
    destruct (ClusterIdentifier cfg), (DBUser cfg), (Database cfg); reflexivity. }
split; [exact Hb|]. unfold String_. now rewrite Hb.
Qed.

End WithLibrary.

End ConfigFacts.

(** ** The configuration at work *)

Section ConfigExamples.

#[local] Existing Instance go_library.

Lemma ParseDSN_secret_round_trip_witness :
  let arn := "arn:aws:secretsmanager:us-east-1:0123456789:secret:redshift"%string in
  Config.ParseDSN arn = Config.Ok (Config.secret_config arn) /\
  Config.BaseString (Config.secret_config arn) = arn.
Proof.
cbv zeta.
destruct (ConfigFacts.ParseDSN_secret_round_trip
            "arn:aws:secretsmanager:us-east-1:0123456789:secret:redshift")
  as (Hp & Hb & _); [reflexivity | reflexivity |].
split; [exact Hp | exact Hb].
Defined.

Lemma ParseDSN_secret_with_query_witness :
  Config.ParseDSN "arn:aws:secret?a=1?b&timeout=5s" =
    Config.Ok
      (Config.mkConfig None None None None (Some "arn:aws:secret"%string)
         5000000000 0 (Some {[ "a"%string := ["1?b"%string] ]}) []).
Proof.
change "arn:aws:secret?a=1?b&timeout=5s"%string
  with ("arn:aws:secret" ++ String "?" "a=1?b&timeout=5s")%string.
rewrite (ConfigFacts.ParseDSN_secret_with_query "arn:aws:secret" "a=1?b&timeout=5s");
  [|reflexivity|reflexivity].
vm_compute. reflexivity.
Defined.

(** The text after a later [?] belongs to the value it follows: here
    the timeout is [5s?x], which is no duration. *)
Example ParseDSN_secret_with_later_question_mark :
  Config.ParseDSN "arn:aws:secret?timeout=5s?x" =
    Config.Err
      (Config.Errorf_w "dsn is invalid: set query params: %w"
         (Config.Errorf_w "error parsing timeout: %w"
            (Config.LibraryError "unknown unit in duration"))).
Proof. vm_compute. reflexivity. Qed.

Lemma SetParams_consumes_timeout_and_polling_witness :
  let params : Config.Values :=
    Some {[ "timeout"%string := ["5s"%string] ]} in
  exists cfg',
    Config.SetParams (Config.secret_config "arn:x") params = (cfg', None) /\
    Config.Has (Config.Params cfg') "timeout" = false /\
    Config.Has (Config.Params cfg') "polling" = false.
Proof.
cbv zeta.
destruct (Config.SetParams (Config.secret_config "arn:x")
            (Some {[ "timeout"%string := ["5s"%string] ]})) as [cfg' e] eqn:Hset.
assert (He : e = None).
{ revert Hset. vm_compute. now intros [= _ <-]. }
subst e. exists cfg'. split; [reflexivity|].
destruct (ConfigFacts.SetParams_consumes_timeout_and_polling _ _ _ Hset)
  as (Ht & Hp & _).
split; [exact Ht | exact Hp].
Defined.

Lemma ParseDSN_names_at_most_one_target_witness :
  let cfg :=
    Config.mkConfig (Some "c"%string) (Some "db"%string) (Some "u"%string)
      None None 0 3000000000 (Some {[ "x"%string := ["1"%string] ]}) [] in
  Config.ParseDSN "u@cluster(c)/db?polling=3s&x=1" = Config.Ok cfg /\
  Config.Has (Config.Params cfg) "polling" = false /\
  Config.SecretsArn cfg = None /\
  (exists d, Config.Database cfg = Some d /\ d <> EmptyString) /\
  (Config.WorkgroupName cfg = None \/
   (Config.ClusterIdentifier cfg = None /\ Config.DBUser cfg = None)).
Proof.
cbv zeta.
assert (Hp : Config.ParseDSN "u@cluster(c)/db?polling=3s&x=1"
             = Config.Ok
                 (Config.mkConfig (Some "c"%string) (Some "db"%string)
                    (Some "u"%string) None None 0 3000000000
                    (Some {[ "x"%string := ["1"%string] ]}) []))
  by (vm_compute; reflexivity).
split; [exact Hp|].
destruct (ConfigFacts.ParseDSN_names_at_most_one_target _ _ Hp)
  as (_ & _ & Hpo & _ & Hn).
split; [exact Hpo|]. now apply Hn.
Defined.

(** A DSN with an empty workgroup name is accepted, with a database
    and no workgroup, cluster or user: the configuration names no
    target, and its [BaseString] is empty. *)
Example ParseDSN_without_target :
  Config.ParseDSN "workgroup()/db" =
    Config.Ok
      (Config.mkConfig None (Some "db"%string) None None None 0 0 (Some ∅) []) /\
  Config.BaseString
    (Config.mkConfig None (Some "db"%string) None None None 0 0 (Some ∅) [])
  = EmptyString.
Proof. vm_compute. split; reflexivity. Qed.

(** A workgroup is written back without [workgroup( )], so the text
    [String] gives for a parsed workgroup DSN is no DSN. The polling
    interval is written although it is zero: the text of a zero
    duration is [0s], not the [0] that [AddOrDeleteParam] tests for. *)
Example String_of_workgroup_is_no_DSN :
  Config.ParseDSN "workgroup(w)/db?timeout=90s" =
    Config.Ok
      (Config.mkConfig None (Some "db"%string) None (Some "w"%string) None
         90000000000 0 (Some ∅) []) /\
  Config.String_
    (Config.mkConfig None (Some "db"%string) None (Some "w"%string) None
       90000000000 0 (Some ∅) [])
  = "w/db?polling=0s&timeout=1m30s"%string /\
  Config.ParseDSN "w/db?polling=0s&timeout=1m30s"
  = Config.Err Config.ErrRedshiftDSNInvalid.
Proof. vm_compute. repeat split. Qed.

(** A cluster DSN is written back as it was read. *)
Example String_of_cluster :
  Config.ParseDSN "u@cluster(c)/db?timeout=90s&polling=250ms" =
    Config.Ok
      (Config.mkConfig (Some "c"%string) (Some "db"%string) (Some "u"%string)
         None None 90000000000 250000000 (Some ∅) []) /\
  Config.String_
    (Config.mkConfig (Some "c"%string) (Some "db"%string) (Some "u"%string)
       None None 90000000000 250000000 (Some ∅) [])
  = "u@cluster(c)/db?polling=250ms&timeout=1m30s"%string.
Proof. vm_compute. split; reflexivity. Qed.

Lemma BaseString_empty_without_target_witness :
  let cfg :=
    Config.mkConfig (Some "c"%string) (Some "db"%string) (Some "u"%string)
      (Some EmptyString) None 0 0 None [] in
  Config.BaseString cfg = EmptyString /\ Config.String_ cfg = EmptyString.
Proof.
cbv zeta. apply ConfigFacts.BaseString_empty_without_target; [reflexivity|].
right. right. reflexivity.
Defined.

End ConfigExamples.

(** ** Strings and runes: UTF-8 *)

Section Utf8Facts.

Lemma land_mask (x : Z) (n : Z) : 0 <= n -> Z.land x (2 ^ n - 1) = x mod 2 ^ n.
Proof.
intros Hn. rewrite <- Z.land_ones by assumption. f_equal.
rewrite Z.ones_equiv. lia.
Qed.

Lemma lor_disjoint (x y k : Z) :
  0 <= k -> 0 <= y < 2 ^ k -> Z.lor (x * 2 ^ k) y = x * 2 ^ k + y.
Proof.
intros Hk Hy.
assert (Hl : Z.land (x * 2 ^ k) y = 0).
{ apply Z.bits_inj'. intros i Hi. rewrite Z.land_spec, Z.bits_0.
  destruct (Z.lt_ge_cases i k) as [Hlt|Hge].
  - rewrite Z.mul_pow2_bits_low by lia. reflexivity.
  - assert (Hb : Z.testbit y i = false).
    { destruct (Z.eq_dec y 0) as [->|Hy0]; [apply Z.bits_0|].
      apply Z.bits_above_log2; [lia|].
      apply Z.lt_le_trans with k; [|lia].
      apply Z.log2_lt_pow2; lia. }
    rewrite Hb. apply andb_false_r. }
rewrite <- Z.lxor_lor by assumption.
symmetry. now apply Z.add_nocarry_lxor.
Qed.

Ltac decide_tests :=
  repeat match goal with
  | |- context [Z.leb ?a ?b] => destruct (Z.leb_spec a b); try lia
  | |- context [Z.ltb ?a ?b] => destruct (Z.ltb_spec a b); try lia
  | |- context [Z.eqb ?a ?b] => destruct (Z.eqb_spec a b); try lia
  end.

Lemma low6_mod (x : Z) : low6 x = x mod 64.
Proof. unfold low6. exact (land_mask x 6 ltac:(lia)). Qed.

Lemma lor_192 (y : Z) : 0 <= y < 64 -> Z.lor 192 y = 192 + y.
Proof. intros Hy. exact (lor_disjoint 3 y 6 ltac:(lia) ltac:(cbn; lia)). Qed.

Lemma lor_128 (y : Z) : 0 <= y < 64 -> Z.lor 128 y = 128 + y.
Proof. intros Hy. exact (lor_disjoint 2 y 6 ltac:(lia) ltac:(cbn; lia)). Qed.

Lemma lor_224 (y : Z) : 0 <= y < 16 -> Z.lor 224 y = 224 + y.
Proof. intros Hy. exact (lor_disjoint 14 y 4 ltac:(lia) ltac:(cbn; lia)). Qed.

Lemma lor_240 (y : Z) : 0 <= y < 8 -> Z.lor 240 y = 240 + y.
Proof. intros Hy. exact (lor_disjoint 30 y 3 ltac:(lia) ltac:(cbn; lia)). Qed.

Lemma EncodeRune_2 (r : Z) :
  0x80 <= r <= 0x7FF -> EncodeRune r = [192 + r / 64; 128 + r mod 64].
Proof.
intros Hr. unfold EncodeRune, between. decide_tests. cbn [andb orb negb].
rewrite low6_mod, (Z.shiftr_div_pow2 r 6) by lia.
change (2 ^ 6) with 64.
rewrite lor_192, lor_128; [reflexivity | |]; Z.div_mod_to_equations; lia.
Qed.

Lemma EncodeRune_3 (r : Z) :
  0x800 <= r <= 0xFFFF -> ~ (0xD800 <= r <= 0xDFFF) ->
  EncodeRune r = [224 + r / 4096; 128 + (r / 64) mod 64; 128 + r mod 64].
Proof.
intros Hr Hs. unfold EncodeRune, between. decide_tests; cbn [andb orb negb].
all: rewrite !low6_mod, (Z.shiftr_div_pow2 r 6), (Z.shiftr_div_pow2 r 12) by lia;
  change (2 ^ 6) with 64; change (2 ^ 12) with 4096;
  rewrite lor_224, !lor_128; [reflexivity | | |]; Z.div_mod_to_equations; lia.
Qed.

Lemma EncodeRune_4 (r : Z) :
  0x10000 <= r <= 0x10FFFF ->
  EncodeRune r =
    [240 + r / 262144; 128 + (r / 4096) mod 64; 128 + (r / 64) mod 64;
     128 + r mod 64].
Proof.
intros Hr. unfold EncodeRune, between. decide_tests; cbn [andb orb negb].
all: rewrite !low6_mod, (Z.shiftr_div_pow2 r 6), (Z.shiftr_div_pow2 r 12),
    (Z.shiftr_div_pow2 r 18) by lia;
  change (2 ^ 6) with 64; change (2 ^ 12) with 4096; change (2 ^ 18) with 262144;
  rewrite lor_240, !lor_128; [reflexivity | | | |]; Z.div_mod_to_equations; lia.
Qed.

Ltac decide_step :=
  match goal with
  | |- context [Z.leb ?a ?b] => destruct (Z.leb_spec a b); try lia
  | |- context [Z.ltb ?a ?b] => destruct (Z.ltb_spec a b); try lia
  | |- context [Z.eqb ?a ?b] => destruct (Z.eqb_spec a b); try lia
  end; cbn [andb orb negb]; cbv beta iota.

Lemma land_31 (x : Z) : Z.land x 31 = x mod 32.
Proof. exact (land_mask x 5 ltac:(lia)). Qed.
Lemma land_15 (x : Z) : Z.land x 15 = x mod 16.
Proof. exact (land_mask x 4 ltac:(lia)). Qed.
Lemma land_7 (x : Z) : Z.land x 7 = x mod 8.
Proof. exact (land_mask x 3 ltac:(lia)). Qed.

Lemma lor_shl_6 (x y : Z) : 0 <= y < 64 -> Z.lor (Z.shiftl x 6) y = 64 * x + y.
Proof.
intros Hy. rewrite Z.shiftl_mul_pow2 by lia.
rewrite (lor_disjoint x y 6) by (cbn; lia). lia.
Qed.
Lemma lor_shl_12 (x y : Z) : 0 <= y < 4096 -> Z.lor (Z.shiftl x 12) y = 4096 * x + y.
Proof.
intros Hy. rewrite Z.shiftl_mul_pow2 by lia.
rewrite (lor_disjoint x y 12) by (cbn; lia). lia.
Qed.
Lemma lor_shl_18 (x y : Z) : 0 <= y < 262144 -> Z.lor (Z.shiftl x 18) y = 262144 * x + y.
Proof.
intros Hy. rewrite Z.shiftl_mul_pow2 by lia.
rewrite (lor_disjoint x y 18) by (cbn; lia). lia.
Qed.

(** The value of a two-, three- and four-byte sequence. *)
Lemma value_2 (b0 b1 : Z) :
  Z.lor (Z.shiftl (Z.land b0 31) 6) (low6 b1) = 64 * (b0 mod 32) + b1 mod 64.
Proof.
rewrite land_31, low6_mod, lor_shl_6; [reflexivity|].
Z.div_mod_to_equations; lia.
Qed.

Lemma value_3 (b0 b1 b2 : Z) :
  Z.lor (Z.shiftl (Z.land b0 15) 12) (Z.lor (Z.shiftl (low6 b1) 6) (low6 b2))
  = 4096 * (b0 mod 16) + 64 * (b1 mod 64) + b2 mod 64.
Proof.
rewrite land_15, !low6_mod, (lor_shl_6 (b1 mod 64)), lor_shl_12;
  [lia | |]; Z.div_mod_to_equations; lia.
Qed.

Lemma value_4 (b0 b1 b2 b3 : Z) :
  Z.lor (Z.shiftl (Z.land b0 7) 18)
    (Z.lor (Z.shiftl (low6 b1) 12) (Z.lor (Z.shiftl (low6 b2) 6) (low6 b3)))
  = 262144 * (b0 mod 8) + 4096 * (b1 mod 64) + 64 * (b2 mod 64) + b3 mod 64.
Proof.
rewrite land_7, !low6_mod, (lor_shl_6 (b2 mod 64)), (lor_shl_12 (b1 mod 64)),
  lor_shl_18; [lia | | |]; Z.div_mod_to_equations; lia.
Qed.

Lemma DecodeRune_encoded (r : Z) (rest : list Z) :
  valid_rune r = true ->
  DecodeRune (EncodeRune r ++ rest) = (r, length (EncodeRune r)).
Proof.
unfold valid_rune, between. intros Hv.
apply andb_true_iff in Hv as [Hr Hs]. apply andb_true_iff in Hr as [H0 H1].
apply Z.leb_le in H0, H1. apply negb_true_iff, andb_false_iff in Hs.
assert (Hsur : ~ (0xD800 <= r <= 0xDFFF)).
{ intros [Ha Hb]. destruct Hs as [Hs|Hs]; apply Z.leb_gt in Hs; lia. }
clear Hs.
destruct (Z.le_gt_cases r 0x7F) as [Ha|Ha].
{ unfold EncodeRune, between. repeat decide_step. cbn [app length].
  unfold DecodeRune. repeat decide_step. reflexivity. }
destruct (Z.le_gt_cases r 0x7FF) as [Hb|Hb].
{ rewrite EncodeRune_2 by lia. cbn [app length].
  unfold DecodeRune, first, between.
  repeat (decide_step; try (Z.div_mod_to_equations; lia)).
  rewrite value_2. f_equal. Z.div_mod_to_equations; lia. }
destruct (Z.le_gt_cases r 0xFFFF) as [Hc|Hc].
{ rewrite EncodeRune_3 by lia. cbn [app length].
  unfold DecodeRune, first, between.
  repeat (decide_step; try (Z.div_mod_to_equations; lia)).
  all: rewrite value_3; f_equal; Z.div_mod_to_equations; lia. }
rewrite EncodeRune_4 by lia. cbn [app length].
unfold DecodeRune, first, between.
repeat (decide_step; try (Z.div_mod_to_equations; lia)).
all: rewrite value_4; f_equal; Z.div_mod_to_equations; lia.
Qed.

Lemma EncodeRune_shape (r : Z) :
  EncodeRune r <> [] /\ (valid_rune r = true -> Forall (fun b => is_byte b = true) (EncodeRune r)).
Proof.
split.
- unfold EncodeRune. repeat destruct (_ : bool); discriminate.
- unfold valid_rune, between. intros Hv.
  apply andb_true_iff in Hv as [Hr Hs]. apply andb_true_iff in Hr as [H0 H1].
  apply Z.leb_le in H0, H1. apply negb_true_iff, andb_false_iff in Hs.
  assert (Hsur : ~ (0xD800 <= r <= 0xDFFF)).
  { intros [Ha Hb]. destruct Hs as [Hs|Hs]; apply Z.leb_gt in Hs; lia. }
  clear Hs.
  assert (Hbyte : forall b, 0 <= b <= 255 -> is_byte b = true).
  { intros b Hb. unfold is_byte, between. apply andb_true_iff.
    split; apply Z.leb_le; lia. }
  destruct (Z.le_gt_cases r 0x7F) as [Ha|Ha].
  { unfold EncodeRune, between. repeat decide_step.
    repeat constructor. apply Hbyte. lia. }
  destruct (Z.le_gt_cases r 0x7FF) as [Hb|Hb].
  { rewrite EncodeRune_2 by lia.
    repeat constructor; apply Hbyte; Z.div_mod_to_equations; lia. }
  destruct (Z.le_gt_cases r 0xFFFF) as [Hc|Hc].
  { rewrite EncodeRune_3 by lia.
    repeat constructor; apply Hbyte; Z.div_mod_to_equations; lia. }
  rewrite EncodeRune_4 by lia.
  repeat constructor; apply Hbyte; Z.div_mod_to_equations; lia.
Qed.

Lemma range_runes_encoded (rs : list Z) :
  Forall (fun r => valid_rune r = true) rs ->
  forall fuel,
    (length (concat (map EncodeRune rs)) <= fuel)%nat ->
    range_runes fuel (concat (map EncodeRune rs)) = rs.
Proof.
induction 1 as [|r rs Hr Hrs IH]; intros fuel Hf.
- destruct fuel; reflexivity.
- cbn [map concat] in *.
  destruct (EncodeRune_shape r) as [Hne _].
  destruct (EncodeRune r) as [|b bs] eqn:He; [congruence|].
  destruct fuel as [|fuel]; [cbn in Hf; lia|].
  cbn [app range_runes].
  change (b :: bs ++ concat (map EncodeRune rs))
    with ((b :: bs) ++ concat (map EncodeRune rs)).
  rewrite <- He, DecodeRune_encoded by assumption.
  rewrite drop_app_length. f_equal. apply IH.
  cbn in Hf. rewrite length_app in Hf. lia.
Qed.

Lemma byte_of_ascii_of_byte (b : Z) :
  is_byte b = true -> byte_of_ascii (ascii_of_byte b) = b.
Proof.
unfold is_byte, between, byte_of_ascii, ascii_of_byte. intros Hb.
apply andb_true_iff in Hb as [H0 H1]. apply Z.leb_le in H0, H1.
rewrite N_ascii_embedding by lia. lia.
Qed.

Lemma bytes_of_string_of_bytes (bs : list Z) :
  Forall (fun b => is_byte b = true) bs ->
  bytes_of_string (string_of_bytes bs) = bs.
Proof.
unfold bytes_of_string, string_of_bytes. intros Hb.
rewrite list_ascii_of_string_of_list_ascii, map_map.
induction Hb as [|b bs Hb _ IH]; [reflexivity|].
cbn. now rewrite byte_of_ascii_of_byte, IH.
Qed.

Lemma runes_of_string_of_runes (rs : list Z) :
  Forall (fun r => valid_rune r = true) rs ->
  runes_of_string (string_of_runes rs) = rs.
Proof.
intros Hv. unfold runes_of_string, string_of_runes.
rewrite bytes_of_string_of_bytes.
- now apply range_runes_encoded.
- apply Forall_concat, Forall_map.
  eapply List.Forall_impl; [|exact Hv]. intros r Hr.
  now apply EncodeRune_shape.
Qed.

Lemma valid_rune_intro (r : Z) :
  0 <= r <= 0x10FFFF -> ~ (0xD800 <= r <= 0xDFFF) -> valid_rune r = true.
Proof.
intros Hr Hs. unfold valid_rune, between.
repeat decide_step; reflexivity.
Qed.

Lemma DecodeRune_valid (p : list Z) :
  Forall (fun b => is_byte b = true) p ->
  valid_rune (fst (DecodeRune p)) = true.
Proof.
intros Hp. destruct p as [|b0 t]; [reflexivity|].
inversion Hp as [|? ? Hb0 _]; subst.
unfold is_byte, between in Hb0.
apply andb_true_iff in Hb0 as [H0 H1]. apply Z.leb_le in H0, H1.
unfold DecodeRune. decide_step.
{ apply valid_rune_intro; cbn [fst]; lia. }
unfold first, between. repeat decide_step.
all: destruct t as [|b1 [|b2 [|b3 t]]]; cbv beta iota; repeat decide_step;
  cbn [fst]; try reflexivity;
  rewrite ?value_2, ?value_3, ?value_4; apply valid_rune_intro;
  Z.div_mod_to_equations; lia.
Qed.

Lemma bytes_of_string_bytes (s : string) :
  Forall (fun b => is_byte b = true) (bytes_of_string s).
Proof.
unfold bytes_of_string. apply Forall_map.
apply List.Forall_forall. intros c _. cbn.
unfold is_byte, between, byte_of_ascii.
pose proof (N_ascii_bounded c). apply andb_true_iff.
split; apply Z.leb_le; lia.
Qed.

Lemma range_runes_valid (fuel : nat) :
  forall p, Forall (fun b => is_byte b = true) p ->
            Forall (fun r => valid_rune r = true) (range_runes fuel p).
Proof.
induction fuel as [|fuel IH]; intros p Hp; [constructor|].
destruct p as [|b t]; [constructor|].
cbn [range_runes].
pose proof (DecodeRune_valid (b :: t) Hp) as Hv.
destruct (DecodeRune (b :: t)) as [r w]. cbn [fst] in Hv.
constructor; [exact Hv|]. apply IH. now apply Forall_drop.
Qed.

Lemma runes_of_string_valid (s : string) :
  Forall (fun r => valid_rune r = true) (runes_of_string s).
Proof. apply range_runes_valid, bytes_of_string_bytes. Qed.

Lemma marker_valid (n : Z) : Forall (fun r => valid_rune r = true) (marker n).
Proof.
eapply List.Forall_impl; [|apply marker_runes]. cbn. intros r Hr.
apply valid_rune_intro; lia.
Qed.

Lemma scan_valid (q : list Z) :
  Forall (fun r => valid_rune r = true) q ->
  Forall (fun r => valid_rune r = true) (runes (scan q)).
Proof.
induction q as [|r q IH] using rev_ind; intros Hq; [constructor|].
apply Forall_app in Hq as [Hq Hr]. specialize (IH Hq).
rewrite scan_snoc.
destruct (stack (scan q)) as [|top tl] eqn:Hst.
- rewrite rewrite_step_outside by assumption.
  destruct (r =? question_mark); cbn [runes];
    [apply Forall_app; split; [exact IH | apply marker_valid]|].
  destruct (r =? dollar); cbn [runes]; apply Forall_app; split;
    try exact IH; try exact Hr.
  repeat constructor.
- destruct (rewrite_step_inside (scan q) r) as (Hru & _); [congruence|].
  rewrite Hru. apply Forall_app. split; assumption.
Qed.

Lemma EncodeRune_decoded (b0 : Z) (t : list Z) :
  is_byte b0 = true ->
  (b0 <? 0x80) || negb (Nat.eqb (snd (DecodeRune (b0 :: t))) 1) = true ->
  EncodeRune (fst (DecodeRune (b0 :: t)))
  = take (snd (DecodeRune (b0 :: t))) (b0 :: t).
Proof.
intros Hb0 Hw.
unfold is_byte, between in Hb0.
apply andb_true_iff in Hb0 as [H0 H1]. apply Z.leb_le in H0, H1.
revert Hw. unfold DecodeRune. decide_step.
{ intros _. cbn [fst snd take]. unfold EncodeRune, between.
  repeat decide_step. reflexivity. }
cbn [orb]. unfold first, between. repeat decide_step.
all: destruct t as [|b1 [|b2 [|b3 t]]]; cbv beta iota; repeat decide_step;
  cbn [fst snd Nat.eqb negb take]; try discriminate; intros _.
all: rewrite ?value_2, ?value_3, ?value_4.
all: first
  [ rewrite EncodeRune_2 by (Z.div_mod_to_equations; lia)
  | rewrite EncodeRune_3 by (Z.div_mod_to_equations; lia)
  | rewrite EncodeRune_4 by (Z.div_mod_to_equations; lia) ].
all: repeat f_equal; Z.div_mod_to_equations; lia.
Qed.

Lemma well_formed_round_trip (fuel : nat) :
  forall p,
    Forall (fun b => is_byte b = true) p ->
    well_formed fuel p = true ->
    concat (map EncodeRune (range_runes fuel p)) = p.
Proof.
induction fuel as [|fuel IH]; intros p Hp Hw.
- destruct p; [reflexivity | discriminate].
- destruct p as [|b0 t]; [reflexivity|].
  cbn [well_formed range_runes] in *.
  inversion Hp as [|? ? Hb0 _]; subst.
  pose proof (EncodeRune_decoded b0 t Hb0) as He.
  destruct (DecodeRune (b0 :: t)) as [r w]. cbn [fst snd] in He.
  apply andb_true_iff in Hw as [Hstep Hrest].
  cbn [map concat]. rewrite (He Hstep), IH.
  + apply take_drop.
  + now apply Forall_drop.
  + exact Hrest.
Qed.

Lemma string_of_bytes_of_string (s : string) :
  string_of_bytes (bytes_of_string s) = s.
Proof.
unfold string_of_bytes, bytes_of_string. rewrite map_map.
rewrite <- (string_of_list_ascii_of_string s) at 2. f_equal.
induction (list_ascii_of_string s) as [|c l IH]; [reflexivity|].
cbn. rewrite IH. f_equal.
unfold ascii_of_byte, byte_of_ascii. rewrite N2Z.id. apply ascii_N_embedding.
Qed.

Lemma reencode_valid_utf8 (s : string) :
  valid_utf8 s = true -> string_of_runes (runes_of_string s) = s.
Proof.
unfold valid_utf8, string_of_runes, runes_of_string. intros Hv.
rewrite well_formed_round_trip; [apply string_of_bytes_of_string | | exact Hv].
apply bytes_of_string_bytes.
Qed.

Lemma EncodeRune_lead (r : Z) :
  valid_rune r = true ->
  exists b bs, EncodeRune r = b :: bs /\
               (b <? 0x80) || negb (Nat.eqb (length (b :: bs)) 1) = true.
Proof.
unfold valid_rune, between. intros Hv.
apply andb_true_iff in Hv as [Hr Hs]. apply andb_true_iff in Hr as [H0 H1].
apply Z.leb_le in H0, H1. apply negb_true_iff, andb_false_iff in Hs.
assert (Hsur : ~ (0xD800 <= r <= 0xDFFF)).
{ intros [Ha Hb]. destruct Hs as [Hs|Hs]; apply Z.leb_gt in Hs; lia. }
clear Hs.
destruct (Z.le_gt_cases r 0x7F) as [Ha|Ha].
{ exists r, []. split.
  - unfold EncodeRune, between. repeat decide_step. reflexivity.
  - apply orb_true_iff. left. apply Z.ltb_lt. lia. }
destruct (Z.le_gt_cases r 0x7FF) as [Hb|Hb].
{ rewrite EncodeRune_2 by lia. eexists _, _. split; [reflexivity|].
  apply orb_true_r. }
destruct (Z.le_gt_cases r 0xFFFF) as [Hc|Hc].
{ rewrite EncodeRune_3 by lia. eexists _, _. split; [reflexivity|].
  apply orb_true_r. }
rewrite EncodeRune_4 by lia. eexists _, _. split; [reflexivity|].
apply orb_true_r.
Qed.

Lemma well_formed_encoded (rs : list Z) :
  Forall (fun r => valid_rune r = true) rs ->
  forall fuel,
    (length (concat (map EncodeRune rs)) <= fuel)%nat ->
    well_formed fuel (concat (map EncodeRune rs)) = true.
Proof.
induction 1 as [|r rs Hr Hrs IH]; intros fuel Hf.
- destruct fuel; reflexivity.
- cbn [map concat] in *.
  pose proof (DecodeRune_encoded r (concat (map EncodeRune rs)) Hr) as Hd.
  destruct (EncodeRune_lead r Hr) as (b & bs & He & Hlead).
  rewrite He in *.
  destruct fuel as [|fuel]; [cbn in Hf; lia|].
  cbn [app well_formed].
  change (b :: bs ++ concat (map EncodeRune rs))
    with ((b :: bs) ++ concat (map EncodeRune rs)).
  rewrite Hd, Hlead. cbn [andb].
  rewrite drop_app_length. apply IH.
  cbn in Hf. rewrite length_app in Hf. lia.
Qed.

Lemma runes_of_rewriteQuery (query : string) (paramsCount : Z) :
  paramsCount <> 0 ->
  runes_of_string (rewriteQuery query paramsCount)
  = rewrite_runes (runes_of_string query).
Proof.
intros Hn. unfold rewriteQuery.
destruct (Z.eqb_spec paramsCount 0); [contradiction|].
apply runes_of_string_of_runes, scan_valid, runes_of_string_valid.
Qed.

(** X5. Whatever the bytes of the query, for paramsCount other than 0
    the text [rewriteQuery] returns is well-formed UTF-8, and it decodes
    to the runes the loop produced from the runes of the query: ill-formed
    bytes of the query come out as U+FFFD. *)
Theorem rewriteQuery_output_is_utf8 (query : string) (paramsCount : Z) :
  paramsCount <> 0 ->
  valid_utf8 (rewriteQuery query paramsCount) = true /\
  runes_of_string (rewriteQuery query paramsCount)
  = rewrite_runes (runes_of_string query).
Proof.
intros Hn. split; [|now apply runes_of_rewriteQuery].
unfold rewriteQuery. destruct (Z.eqb_spec paramsCount 0); [contradiction|].
assert (Hv : Forall (fun r => valid_rune r = true)
               (rewrite_runes (runes_of_string query)))
  by apply scan_valid, runes_of_string_valid.
unfold valid_utf8, string_of_runes.
rewrite bytes_of_string_of_bytes.
- now apply well_formed_encoded.
- apply Forall_concat, Forall_map.
  eapply List.Forall_impl; [|exact Hv]. intros r Hr.
  now apply EncodeRune_shape.
Qed.

Lemma rewriteQuery_output_is_utf8_witness :
  valid_utf8 (rewriteQuery "a = ? AND b = 'é'" 1) = true /\
  runes_of_string (rewriteQuery "a = ? AND b = 'é'" 1)
  = rewrite_runes (runes_of_string "a = ? AND b = 'é'").
Proof.
apply rewriteQuery_output_is_utf8. discriminate.
Defined.

(** X7. [rewriteQuery] is idempotent, for every query and every
    paramsCount: rewriting its own output changes nothing. The markers
    it writes hold no placeholder and no quote character, and the quotes
    of the query are kept, so a second pass finds the same quoting and
    nothing left to rewrite outside it. *)
Theorem rewriteQuery_idempotent (query : string) (paramsCount : Z) :
  rewriteQuery (rewriteQuery query paramsCount) paramsCount
  = rewriteQuery query paramsCount.
Proof.
destruct (Z.eq_dec paramsCount 0) as [->|Hn]; [reflexivity|].
unfold rewriteQuery at 1.
destruct (Z.eqb_spec paramsCount 0); [contradiction|].
rewrite runes_of_rewriteQuery by assumption.
unfold rewriteQuery. destruct (Z.eqb_spec paramsCount 0); [contradiction|].
f_equal. apply scan_of_output.
Qed.

(** X26. A query without [?] and [$] is not rewritten. For paramsCount
    other than 0 it comes back as the encoding of its runes, and so
    byte for byte when it is well-formed UTF-8; when it is not, its
    ill-formed bytes come back as U+FFFD although nothing was to be
    rewritten. *)
Theorem rewriteQuery_without_placeholders (query : string) (paramsCount : Z) :
  Forall (fun r => is_placeholder r = false) (runes_of_string query) ->
  (paramsCount <> 0 ->
   rewriteQuery query paramsCount = string_of_runes (runes_of_string query)) /\
  (valid_utf8 query = true -> rewriteQuery query paramsCount = query).
Proof.
intros Hq.
assert (Hre : paramsCount <> 0 ->
  rewriteQuery query paramsCount = string_of_runes (runes_of_string query)).
{ intros Hn. unfold rewriteQuery.
  destruct (Z.eqb_spec paramsCount 0); [contradiction|].
  now rewrite rewrite_runes_without_placeholders. }
split; [exact Hre|].
intros Hv. destruct (Z.eq_dec paramsCount 0) as [->|Hn]; [reflexivity|].
rewrite Hre by assumption. now apply reencode_valid_utf8.
Qed.

Lemma rewriteQuery_without_placeholders_witness :
  Forall (fun r => is_placeholder r = false)
    (runes_of_string "SELECT 'é' FROM t -- ∀") /\
  valid_utf8 "SELECT 'é' FROM t -- ∀" = true /\
  rewriteQuery "SELECT 'é' FROM t -- ∀" 2 = "SELECT 'é' FROM t -- ∀"%string.
Proof.
assert (Hq : Forall (fun r => is_placeholder r = false)
               (runes_of_string "SELECT 'é' FROM t -- ∀"))
  by (vm_compute; repeat constructor).
split; [exact Hq|]. split; [vm_compute; reflexivity|].
destruct (rewriteQuery_without_placeholders "SELECT 'é' FROM t -- ∀" 2 Hq)
  as [_ Hv].
apply Hv. vm_compute. reflexivity.
Defined.

(** An ill-formed byte is replaced even when nothing is to be rewritten. *)
Example rewriteQuery_replaces_ill_formed_byte :
  bytes_of_string
    (rewriteQuery (string_of_bytes [0x61; 0xFF; 0x62]) 1)
  = [0x61; 0xEF; 0xBF; 0xBD; 0x62].
Proof. vm_compute. reflexivity. Qed.

End Utf8Facts.
